(** * The object-graph codec of webpack's persistent cache

    A shallow embedding of [lib/serialization/ObjectMiddleware.js],
    [lib/serialization/Serializer.js] and of the field-list capability
    ([PropertiesSerializer]), with the properties of the codec stated
    and proved over it.

    JavaScript values live in a heap of cells; references carry object
    identity.  Numbers are restricted to integers, which is all the codec
    computes with (positions and relative offsets).  An object is its
    constructor's name and its own data properties: the codec and the
    field-list capability read and assign properties by name and look at
    [object.constructor], nothing else.  The classes of other modules
    ([require], the constructors a capability instantiates, the fallback
    capability for plain objects) are parameters, gathered in [Env]. *)

From stdpp Require Import gmap strings list fin_maps pretty.
From Stdlib Require Import ZArith Lia Sorting.Sorted.

Local Open Scope string_scope.
Local Open Scope list_scope.
Local Open Scope Z_scope.

(** ** Values *)

Definition addr := nat.

(** The two closures the middleware wraps around a lazy producer:
    [_handleFunctionSerialization] and [_handleFunctionDeserialization]. *)
Inductive wrapper := SerializeWrap | DeserializeWrap.

Inductive value :=
| VUndefined
| VNull
| VBool (b : bool)
| VNum (n : Z)
| VStr (s : string)
| VRef (a : addr)                       (* an object, by identity *)
| VFun (f : nat) (ws : list wrapper).   (* function [f] under wrappers *)

#[global] Instance wrapper_eq_dec : EqDecision wrapper.
Proof. solve_decision. Defined.

#[global] Instance value_eq_dec : EqDecision value.
Proof. solve_decision. Defined.

Definition wrapper_to_bool (w : wrapper) : bool :=
  match w with SerializeWrap => true | DeserializeWrap => false end.

Definition wrapper_of_bool (b : bool) : wrapper :=
  if b then SerializeWrap else DeserializeWrap.

#[global] Instance wrapper_countable : Countable wrapper.
Proof.
  refine (inj_countable' wrapper_to_bool wrapper_of_bool _).
  by intros [].
Defined.

Definition value_to_sum (v : value)
  : unit + unit + bool + Z + string + nat + nat * list wrapper :=
  match v with
  | VUndefined => inl (inl (inl (inl (inl (inl tt)))))
  | VNull => inl (inl (inl (inl (inl (inr tt)))))
  | VBool b => inl (inl (inl (inl (inr b))))
  | VNum n => inl (inl (inl (inr n)))
  | VStr s => inl (inl (inr s))
  | VRef a => inl (inr a)
  | VFun f ws => inr (f, ws)
  end.

Definition value_of_sum
  (x : unit + unit + bool + Z + string + nat + nat * list wrapper) : value :=
  match x with
  | inl (inl (inl (inl (inl (inl _))))) => VUndefined
  | inl (inl (inl (inl (inl (inr _))))) => VNull
  | inl (inl (inl (inl (inr b)))) => VBool b
  | inl (inl (inl (inr n))) => VNum n
  | inl (inl (inr s)) => VStr s
  | inl (inr a) => VRef a
  | inr (f, ws) => VFun f ws
  end.

#[global] Instance value_countable : Countable value.
Proof.
  refine (inj_countable' value_to_sum value_of_sum _).
  by intros [].
Defined.

(** [typeof v], as JavaScript reports it. *)
Definition typeof (v : value) : string :=
  match v with
  | VUndefined => "undefined"
  | VNull => "object"
  | VBool _ => "boolean"
  | VNum _ => "number"
  | VStr _ => "string"
  | VRef _ => "object"
  | VFun _ _ => "function"
  end.

(** Truthiness, for [if (exportName)]. *)
Definition truthy (v : value) : bool :=
  match v with
  | VUndefined | VNull => false
  | VBool b => b
  | VNum n => negb (Z.eqb n 0)
  | VStr s => negb (String.eqb s "")
  | VRef _ | VFun _ _ => true
  end.

(** ** The heap *)

(** A constructor function, identified by its name. *)
Definition Constructor := string.

Inductive cell :=
| Instance_ (C : Constructor) (props : gmap string value)
| Buffer_ (bytes : list Byte.byte).

Abbreviation heap := (gmap addr cell).

(** [object.constructor] *)
Definition constructor_of (c : cell) : Constructor :=
  match c with
  | Instance_ C _ => C
  | Buffer_ _ => "Buffer"
  end.

(** [Buffer.isBuffer(item)] *)
Definition isBuffer (h : heap) (item : value) : bool :=
  match item with
  | VRef a => match h !! a with Some (Buffer_ _) => true | _ => false end
  | _ => false
  end.

(** ** Exceptions and the state monad of a call *)

Inductive exn :=
| Error (message : string)       (* [throw new Error(message)] *)
| TypeError (message : string).  (* raised by the runtime itself *)

(** The outcome of running a piece of code from a state: it returns, it
    throws (the state reached at the throw is kept), or the recursion bound
    of the model is exhausted, which stands for a call that does not
    return. *)
Inductive outcome (S A : Type) :=
| Return (a : A) (s : S)
| Throw (e : exn) (s : S)
| OutOfFuel.
Arguments Return {S A} a s.
Arguments Throw {S A} e s.
Arguments OutOfFuel {S A}.

Definition M (S A : Type) : Type := S → outcome S A.

Definition ret {S A} (a : A) : M S A := λ s, Return a s.

Definition throw {S A} (e : exn) : M S A := λ s, Throw e s.

Definition bind {S A B} (m : M S A) (k : A → M S B) : M S B :=
  λ s, match m s with
       | Return a s' => k a s'
       | Throw e s' => Throw e s'
       | OutOfFuel => OutOfFuel
       end.

Definition modify {S} (f : S → S) : M S unit := λ s, Return tt (f s).

Definition gets {S A} (f : S → A) : M S A := λ s, Return (f s) s.

Notation "'let*' x ':=' m 'in' k" := (bind m (λ x, k))
  (at level 10, x name, m at level 100, k at level 200).
Notation "m ';;' k" := (bind m (λ _, k))
  (at level 100, k at level 200, right associativity).

(** States that carry the heap. *)
Class HasHeap (S : Type) := {
  get_heap : S → heap;
  set_heap : heap → S → S
}.

(** ** Capability code

    What the body of a capability's [serialize] or [deserialize] may do:
    call [write] or [read] of the context it is given, allocate, read and
    assign properties, and call a hook. *)
Inductive code (A : Type) : Type :=
| Ret (a : A)
| Read (k : value → code A)                              (* [read()] *)
| Write (v : value) (k : code A)                         (* [write(v)] *)
| New (C : Constructor) (k : value → code A)             (* [new C()] *)
| GetProp (o : value) (p : string) (k : value → code A)  (* [o[p]] *)
| SetProp (o : value) (p : string) (v : value) (k : code A) (* [o[p] = v] *)
| Invoke (f : value → heap → heap) (arg : value) (k : code A). (* [f(arg)] *)
Arguments Ret {A} a.
Arguments Read {A} k.
Arguments Write {A} v k.
Arguments New {A} C k.
Arguments GetProp {A} o p k.
Arguments SetProp {A} o p v k.
Arguments Invoke {A} f arg k.

Fixpoint code_bind {A B} (c : code A) (f : A → code B) : code B :=
  match c with
  | Ret a => f a
  | Read k => Read (λ v, code_bind (k v) f)
  | Write v k => Write v (code_bind k f)
  | New C k => New C (λ o, code_bind (k o) f)
  | GetProp o p k => GetProp o p (λ v, code_bind (k v) f)
  | SetProp o p v k => SetProp o p v (code_bind k f)
  | Invoke g arg k => Invoke g arg (code_bind k f)
  end.

Definition read_ : code value := Read Ret.
Definition write_ (v : value) : code unit := Write v (Ret tt).
Definition new_ (C : Constructor) : code value := New C Ret.
Definition get_prop (o : value) (p : string) : code value := GetProp o p Ret.
Definition set_prop (o : value) (p : string) (v : value) : code unit :=
  SetProp o p v (Ret tt).
Definition invoke (f : value → heap → heap) (arg : value) : code unit :=
  Invoke f arg (Ret tt).

(** [for (const x of l) body(x)] *)
Fixpoint for_of {A} (l : list A) (body : A → code unit) : code unit :=
  match l with
  | [] => Ret tt
  | x :: l' => code_bind (body x) (λ _, for_of l' body)
  end.

(** ** [ObjectSerializer]: the capability of a registered type *)

Module ObjectSerializer.
Record t := {
serialize : value → code unit;
deserialize : code value
}.
End ObjectSerializer.

Abbreviation ObjectSerializer := ObjectSerializer.t.

(** ** [PropertiesSerializer]: the field-list capability *)

Definition PropertiesSerializer (Constructor_ : Constructor)
    (properties : list string) (onRestored : option (value → heap → heap))
  : ObjectSerializer :=
  {| ObjectSerializer.serialize obj :=
       for_of properties (λ prop,
         code_bind (get_prop obj prop) write_);
     ObjectSerializer.deserialize :=
       code_bind (new_ Constructor_) (λ obj,
       code_bind (for_of properties (λ prop,
                    code_bind read_ (set_prop obj prop))) (λ _,
       code_bind (match onRestored with
                  | Some hook => invoke hook obj
                  | None => Ret tt
                  end) (λ _,
       Ret obj))) |}.

(** ** The environment of a process

    What the repository takes from outside: the body of each constructor
    (the own properties of [new C()]), the module loader behind
    [require(request)], and [PlainObjectSerializer], whose source file is
    not part of this development. *)

Inductive module_value :=
| ModuleClass (C : Constructor)                      (* [module.exports = C] *)
| ModuleNamespace (exports : gmap string Constructor). (* [exports.name = C] *)

(** What a property of a class, [C[key]], holds when it is neither
    [undefined] nor [null]: a class, or another value, of which the
    codec reads the property [name] only. *)
Inductive member :=
| MemberClass (C : Constructor)
| MemberOther (name : value).

(** [require r = None] when [require(r)] throws; [require_error r] is
    what it throws then: an [Error] for a module that is not found, a
    [TypeError] for a request such as the empty string.  [static C key]
    is the property [C[key]] of the class itself, own or inherited
    ([name], [length], [prototype], static members), and [inherited key]
    the property of that name every module object inherits
    ([constructor], [toString], ...); both are [None] when the property
    is [undefined] or [null].  [class_text C] is the class as a string,
    as a template literal shows it. *)
Class Env := {
  instantiate : Constructor → gmap string value;
  require : string → option module_value;
  require_error : string → exn;
  static : Constructor → string → option member;
  inherited : string → option member;
  class_text : Constructor → string;
  plainObjectSerializer : ObjectSerializer
}.

(** ** Running capability code *)

Section run.
Context {E : Env} {S : Type} `{HasHeap S}.

(** [new C()] *)
Definition alloc (C : Constructor) : M S value :=
λ s, let h := get_heap s in
     let a := fresh (dom h) in
     Return (VRef a) (set_heap (<[a := Instance_ C (instantiate C)]> h) s).

(** [o[p]] *)
Definition js_get (o : value) (p : string) : M S value :=
λ s, match o with
     | VRef a =>
         match get_heap s !! a with
         | Some (Instance_ _ props) =>
             Return (default VUndefined (props !! p)) s
         | Some (Buffer_ _) => Return VUndefined s
         | None => Throw (TypeError "dangling reference") s
         end
     | VUndefined | VNull =>
         Throw (TypeError "Cannot read property of undefined or null") s
     | _ => Return VUndefined s
     end.

(** [o[p] = v] *)
Definition js_set (o : value) (p : string) (v : value) : M S unit :=
λ s, match o with
     | VRef a =>
         match get_heap s !! a with
         | Some (Instance_ C props) =>
             Return tt
               (set_heap (<[a := Instance_ C (<[p := v]> props)]>
                            (get_heap s)) s)
         | Some (Buffer_ _) => Return tt s
         | None => Throw (TypeError "dangling reference") s
         end
     | VUndefined | VNull =>
         Throw (TypeError "Cannot set property of undefined or null") s
     | _ => Return tt s
     end.

Variable read : M S value.
Variable write : value → M S unit.

Fixpoint run {A} (c : code A) : M S A :=
match c with
| Ret a => ret a
| Read k => let* v := read in run (k v)
| Write v k => write v ;; run k
| New C k => let* o := alloc C in run (k o)
| GetProp o p k => let* v := js_get o p in run (k v)
| SetProp o p v k => js_set o p v ;; run k
| Invoke f arg k =>
    modify (λ s, set_heap (f arg (get_heap s)) s) ;; run k
end.
End run.

(** ** [ObjectMiddleware] *)

Module ObjectMiddleware.

Definition ESCAPE : value := VNull.
Definition ESCAPE_ESCAPE_VALUE : value := VNum 1.
Definition GLOBAL_SERIALIZER_REQUEST : value := VNull.

(** An entry of [serializers]. *)
Record config := {
request : value;
exportName : value;
serializer : ObjectSerializer
}.

(** The two module-level maps. *)
Record registry := {
serializers : gmap Constructor config;
globalSerializers : gmap value ObjectSerializer
}.

(** The maps as the module leaves them when it is loaded. *)
Definition initial {E : Env} : registry :=
{| serializers :=
     <["Array" := {| request := GLOBAL_SERIALIZER_REQUEST;
                     exportName := VNull;
                     serializer := plainObjectSerializer |}]>
     (<["Object" := {| request := GLOBAL_SERIALIZER_REQUEST;
                       exportName := VNull;
                       serializer := plainObjectSerializer |}]> ∅);
   globalSerializers := <[VNull := plainObjectSerializer]> ∅ |}.

Definition set_globalSerializers (k : value) (s : ObjectSerializer)
  (r : registry) : registry :=
{| serializers := serializers r;
   globalSerializers := <[k := s]> (globalSerializers r) |}.

Definition set_serializers (C : Constructor) (c : config) (r : registry)
: registry :=
{| serializers := <[C := c]> (serializers r);
   globalSerializers := globalSerializers r |}.

(** The text of a value inside a template literal. *)
Definition to_string (v : value) : string :=
match v with
| VUndefined => "undefined"
| VNull => "null"
| VBool true => "true"
| VBool false => "false"
| VNum n => pretty n
| VStr s => s
| VRef _ => "[object Object]"
| VFun _ _ => "function"
end.

Definition register (Constructor_ : Constructor) (request_ exportName_ : value)
  (serializer_ : ObjectSerializer) : M registry unit :=
(if decide (request_ = GLOBAL_SERIALIZER_REQUEST) then
   let* has := gets (λ r, bool_decide
                            (is_Some (globalSerializers r !! exportName_))) in
   if has : bool then
     throw (Error ("ObjectMiddleware.register: global serializer with this name ("
                   +:+ to_string exportName_ +:+ ") is already registered"))
   else modify (set_globalSerializers exportName_ serializer_)
 else ret tt) ;;
modify (set_serializers Constructor_
          {| request := request_;
             exportName := exportName_;
             serializer := serializer_ |}).

Definition registerGlobal (Constructor_ : Constructor) (name : value)
  (serializer_ : ObjectSerializer) : M registry unit :=
register Constructor_ GLOBAL_SERIALIZER_REQUEST name serializer_.

(** [getSerializerFor(object)], for an object of the heap [h]. *)
Definition getSerializerFor (reg : registry) (h : heap) (object : value)
: exn + config :=
match object with
| VRef a =>
    match h !! a with
    | Some cl =>
        let c := constructor_of cl in
        match serializers reg !! c with
        | Some config => inr config
        | None => inl (Error ("No serializer registered for " +:+ c))
        end
    | None => inl (TypeError "dangling reference")
    end
| _ => inl (TypeError "getSerializerFor: not an object")
end.

Definition _handleFunctionSerialization (fn : value) : value :=
match fn with
| VFun f ws => VFun f (SerializeWrap :: ws)
| _ => fn
end.

Definition _handleFunctionDeserialization (fn : value) : value :=
match fn with
| VFun f ws => VFun f (DeserializeWrap :: ws)
| _ => fn
end.

Definition lift_sum {S A} (x : exn + A) : M S A :=
match x with
| inl e => throw e
| inr a => ret a
end.

(** *** [serialize] *)

(** The variables of one call of [serialize]. *)
Record wstate := {
wr_heap : heap;
wr_result : list value;
wr_currentPos : Z;
wr_referenceable : gmap value Z
}.

#[global] Instance wstate_heap : HasHeap wstate := {|
get_heap := wr_heap;
set_heap h s := {| wr_heap := h; wr_result := wr_result s;
                   wr_currentPos := wr_currentPos s;
                   wr_referenceable := wr_referenceable s |}
|}.

(** [result.push(...items)] *)
Definition push (items : list value) : M wstate unit :=
modify (λ s, {| wr_heap := wr_heap s;
                wr_result := wr_result s ++ items;
                wr_currentPos := wr_currentPos s;
                wr_referenceable := wr_referenceable s |}).

(** [referenceable.set(item, currentPos++)] *)
Definition addReferenceable (item : value) : M wstate unit :=
modify (λ s, {| wr_heap := wr_heap s;
                wr_result := wr_result s;
                wr_currentPos := wr_currentPos s + 1;
                wr_referenceable :=
                  <[item := wr_currentPos s]> (wr_referenceable s) |}).

Section serialize.
Context {E : Env} (reg : registry).

(** The body of [process]; the parameter stands for the recursive
call through the [write] of the context. *)
Definition process_body (process : value → M wstate unit) (item : value)
: M wstate unit :=
let* ref := gets (λ s, wr_referenceable s !! item) in
match ref with
| Some ref =>
  let* currentPos := gets wr_currentPos in
  push [ESCAPE; VNum (ref - currentPos)]
| None =>
  if String.eqb (typeof item) "object"
     && negb (bool_decide (item = VNull)) then
    let* h := gets wr_heap in
    let* cfg := lift_sum (getSerializerFor reg h item) in
    push [ESCAPE; request cfg; exportName cfg] ;;
    run (throw (TypeError "read is not a function"))
        process
        (ObjectSerializer.serialize (serializer cfg) item) ;;
    addReferenceable item
  else if String.eqb (typeof item) "string" then
    addReferenceable item ;;
    push [item]
  else
    let* buffer := gets (λ s, isBuffer (wr_heap s) item) in
    if buffer : bool then
      addReferenceable item ;;
      push [item]
    else if bool_decide (item = ESCAPE) then
      push [ESCAPE; ESCAPE_ESCAPE_VALUE]
    else if String.eqb (typeof item) "function" then
      push [_handleFunctionSerialization item]
    else
      push [item]
end.

Fixpoint process (fuel : nat) (item : value) : M wstate unit :=
match fuel with
| O => λ _, OutOfFuel
| S fuel' => process_body (process fuel') item
end.

(** [for (const item of data) process(item)] *)
Fixpoint process_all (fuel : nat) (data : list value) : M wstate unit :=
match data with
| [] => ret tt
| item :: data' => process fuel item ;; process_all fuel data'
end.

Definition wstate_init (h : heap) : wstate :=
{| wr_heap := h; wr_result := []; wr_currentPos := 0;
 wr_referenceable := ∅ |}.

(** [serialize(data, context)], called in the heap [h]. *)
Definition serialize (fuel : nat) (data : list value) (context : value)
: M heap (list value) :=
λ h, match process_all fuel data (wstate_init h) with
   | Return _ s => Return (wr_result s) (wr_heap s)
   | Throw e s => Throw e (wr_heap s)
   | OutOfFuel => OutOfFuel
   end.
End serialize.

(** *** [deserialize] *)

(** The variables of one call of [deserialize]. *)
Record rstate := {
rd_heap : heap;
rd_currentDataPos : nat;
rd_currentPos : Z;
rd_referenceable : gmap Z value
}.

#[global] Instance rstate_heap : HasHeap rstate := {|
get_heap := rd_heap;
set_heap h s := {| rd_heap := h; rd_currentDataPos := rd_currentDataPos s;
                   rd_currentPos := rd_currentPos s;
                   rd_referenceable := rd_referenceable s |}
|}.

(** [read()] *)
Definition read (data : list value) : M rstate value :=
λ s, match data !! rd_currentDataPos s with
     | None => Throw (Error "Unexpected end of stream") s
     | Some item =>
         Return item {| rd_heap := rd_heap s;
                        rd_currentDataPos := Datatypes.S (rd_currentDataPos s);
                        rd_currentPos := rd_currentPos s;
                        rd_referenceable := rd_referenceable s |}
     end.

(** [referenceable.set(currentPos++, item)] *)
Definition addReferenceable' (item : value) : M rstate unit :=
modify (λ s, {| rd_heap := rd_heap s;
                rd_currentDataPos := rd_currentDataPos s;
                rd_currentPos := rd_currentPos s + 1;
                rd_referenceable :=
                  <[rd_currentPos s := item]> (rd_referenceable s) |}).

Section deserialize.
Context {E : Env} (reg : registry).

(** The capability a header [(request, exportName)] names.  For a module
    request, [requestValue] is [require(request)], or its property
    [exportName] when the export name is truthy; the key of a property
    is the export name as a string. *)
Definition resolve (request_ exportName_ : value) : exn + ObjectSerializer :=
if bool_decide (request_ = GLOBAL_SERIALIZER_REQUEST) then
match globalSerializers reg !! exportName_ with
| Some serializer_ => inr serializer_
| None => inl (TypeError "Cannot read property 'deserialize' of undefined")
end
else
match request_ with
| VStr r =>
    match require r with
    | None => inl (require_error r)
    | Some m =>
        let requestValue : option member :=
          if truthy exportName_ then
            match m with
            | ModuleClass C => static C (to_string exportName_)
            | ModuleNamespace exports =>
                match exports !! to_string exportName_ with
                | Some C => Some (MemberClass C)
                | None => inherited (to_string exportName_)
                end
            end
          else
            match m with
            | ModuleClass C => Some (MemberClass C)
            | ModuleNamespace exports =>
                Some (MemberOther
                        (match exports !! "name" with
                         | Some C => VStr (class_text C)
                         | None => VUndefined
                         end))
            end in
        match requestValue with
        | Some (MemberClass C) =>
            match serializers reg !! C with
            | Some config => inr (serializer config)
            | None => inl (Error ("No deserializer registered for " +:+ C))
            end
        | Some (MemberOther name) =>
            inl (Error ("No deserializer registered for " +:+ to_string name))
        | None =>
            inl (TypeError "Cannot read property 'name' of undefined")
        end
    end
| _ => inl (TypeError "The argument of require must be a string")
end.

Section decodeValue.
Variable data : list value.

(** The body of [decodeValue]; the parameter stands for the
recursive call through the [read] of the context. *)
Definition decodeValue_body (decodeValue : M rstate value)
: M rstate value :=
let* item := read data in
if bool_decide (item = ESCAPE) then
let* nextItem := read data in
if bool_decide (nextItem = ESCAPE_ESCAPE_VALUE) then
ret ESCAPE
else
match nextItem with
| VNum offset =>
    (* relative reference *)
    gets (λ s, default VUndefined
                 (rd_referenceable s !! (rd_currentPos s + offset)))
| _ =>
    let request_ := nextItem in
    let* exportName_ := read data in
    let* serializer_ := lift_sum (resolve request_ exportName_) in
    let* item :=
      run decodeValue
          (λ _, throw (TypeError "write is not a function"))
          (ObjectSerializer.deserialize serializer_) in
    addReferenceable' item ;;
    ret item
end
else if String.eqb (typeof item) "string" then
addReferenceable' item ;;
ret item
else
let* buffer := gets (λ s, isBuffer (rd_heap s) item) in
if buffer : bool then
addReferenceable' item ;;
ret item
else if String.eqb (typeof item) "function" then
ret (_handleFunctionDeserialization item)
else
ret item.

Fixpoint decodeValue (fuel : nat) : M rstate value :=
match fuel with
| O => λ _, OutOfFuel
| S fuel' => decodeValue_body (decodeValue fuel')
end.

(** [while (currentDataPos < data.length) result.push(decodeValue())] *)
Fixpoint decode_all (n fuel : nat) (result : list value)
: M rstate (list value) :=
λ s, if bool_decide (rd_currentDataPos s < length data)%nat then
   match n with
   | O => OutOfFuel
   | S n' =>
       (let* v := decodeValue fuel in
        decode_all n' fuel (result ++ [v])) s
   end
 else Return result s.
End decodeValue.

Definition rstate_init (h : heap) : rstate :=
{| rd_heap := h; rd_currentDataPos := 0; rd_currentPos := 0;
 rd_referenceable := ∅ |}.

(** [deserialize(data, context)], called in the heap [h].  Every
[decodeValue] consumes an item before it recurses, so the length of
[data] bounds both the loop and the nesting. *)
Definition deserialize (data : list value) (context : value)
: M heap (list value) :=
λ h, match decode_all data (length data) (Datatypes.S (length data)) []
           (rstate_init h) with
   | Return vs s => Return vs (rd_heap s)
   | Throw e s => Throw e (rd_heap s)
   | OutOfFuel => OutOfFuel
   end.
End deserialize.

End ObjectMiddleware.

(** The function the module of [PropertiesSerializer] exports: it builds
    the capability and registers it for its constructor, without export
    name. *)
Definition register_PropertiesSerializer (Constructor_ : Constructor)
    (request_ : value) (properties : list string)
    (onRestored : option (value → heap → heap))
  : M ObjectMiddleware.registry unit :=
  ObjectMiddleware.register Constructor_ request_ VNull
    (PropertiesSerializer Constructor_ properties onRestored).

(** ** [Serializer]: the chain of middlewares *)

Module Serializer.

(** A promise, by the way it settles. *)
Inductive promise (A : Type) :=
| Fulfilled (a : A)
| Rejected (e : exn).
Arguments Fulfilled {A} a.
Arguments Rejected {A} e.

(** What a call hands back: a plain value, a promise, or an exception. *)
Inductive completion (A : Type) :=
| Value (a : A)
| Promise (p : promise A)
| Thrown (e : exn).
Arguments Value {A} a.
Arguments Promise {A} p.
Arguments Thrown {A} e.

Record context := { filename : string }.

(** A middleware: [serialize(data, context)] and
  [deserialize(data, context)], each returning [any[]] or a promise
  of it. *)
Record SerializerMiddleware := {
serialize : list value → context → completion (list value);
deserialize : list value → context → completion (list value)
}.

(** [p.then(f)] *)
Definition then_ {A B} (p : promise A) (f : A → completion B) : promise B :=
match p with
| Fulfilled a =>
    match f a with
    | Value b => Fulfilled b
    | Promise q => q
    | Thrown e => Rejected e
    end
| Rejected e => Rejected e
end.

(** [Promise.resolve(x)]: a promise, unless computing [x] threw. *)
Definition Promise_resolve {A} (x : completion A) : exn + promise A :=
match x with
| Value a => inr (Fulfilled a)
| Promise p => inr p
| Thrown e => inl e
end.

(** One step of [reduce]: an exception of an earlier step has already
  left the loop. *)
Definition step {A} (call : A → completion A) (last : completion A)
: completion A :=
match last with
| Promise p => Promise (then_ p call)    (* [last instanceof Promise] *)
| Value data => call data
| Thrown e => Thrown e
end.

Definition serializeToFile (middlewares : list SerializerMiddleware)
  (obj : value) (filename_ : string) : exn + promise (list value) :=
let context_ := {| filename := filename_ |} in
Promise_resolve
  (fold_left (λ last middleware,
                step (λ data, serialize middleware data context_) last)
             middlewares (Value [obj])).

Definition deserializeFromFile (middlewares : list SerializerMiddleware)
  (filename_ : string) : exn + promise value :=
let context_ := {| filename := filename_ |} in
match Promise_resolve
        (fold_left (λ last middleware,
                      step (λ data, deserialize middleware data context_) last)
                   (rev middlewares) (Value [])) with
| inr p => inr (then_ p (λ array, Value (default VUndefined (array !! 0%nat))))
| inl e => inl e
end.

(** How a call ends once its promise has settled. *)
Definition settle {A} (x : exn + promise A) : exn + A :=
match x with
| inr (Fulfilled a) => inr a
| inr (Rejected e) => inl e
| inl e => inl e
end.

(** The same for what a single middleware hands back. *)
Definition outcome_of {A} (x : completion A) : exn + A :=
match x with
| Value a => inr a
| Promise (Fulfilled a) => inr a
| Promise (Rejected e) => inl e
| Thrown e => inl e
end.

(** Sequencing of stages that may fail: a stage is fed the value the
  stage before ended with, and is not run once one has failed. *)
Definition and_then {A B} (x : exn + A) (f : A → exn + B) : exn + B :=
match x with
| inr a => f a
| inl e => inl e
end.

End Serializer.

(** ** A recording context

    A sink that records what is written and a source that hands out a
    given list of values, to observe a capability on its own. *)

Record probe := {
  pr_heap : heap;
  pr_written : list value;
  pr_pending : list value
}.

#[global] Instance probe_heap : HasHeap probe := {|
  get_heap := pr_heap;
  set_heap h s := {| pr_heap := h; pr_written := pr_written s;
                     pr_pending := pr_pending s |}
|}.

Definition probe_write (v : value) : M probe unit :=
  modify (λ s, {| pr_heap := pr_heap s;
                  pr_written := pr_written s ++ [v];
                  pr_pending := pr_pending s |}).

Definition probe_read : M probe value :=
  λ s, match pr_pending s with
       | [] => Throw (Error "Unexpected end of stream") s
       | v :: rest =>
           Return v {| pr_heap := pr_heap s; pr_written := pr_written s;
                       pr_pending := rest |}
       end.

(** The own properties of an instance after [o[p] = v] for each pair. *)
Definition assign_all (props : gmap string value)
    (fields : list (string * value)) : gmap string value :=
  fold_left (λ acc pv, <[pv.1 := pv.2]> acc) fields props.

(** ** Invariants of one call of [serialize] *)

(** What [process] ever registers: a string or an object. *)
Definition referenceable_value (v : value) : Prop :=
  (∃ s, v = VStr s) ∨ (∃ a, v = VRef a).

(** Every entry of the write-side table is a string or an object, at a
    position below the counter. *)
Definition table_bounded (s : ObjectMiddleware.wstate) : Prop :=
  0 ≤ ObjectMiddleware.wr_currentPos s ∧
  ∀ k p, ObjectMiddleware.wr_referenceable s !! k = Some p →
         referenceable_value k ∧ 0 ≤ p < ObjectMiddleware.wr_currentPos s.

(** ** A small process, for the examples *)

Module Example.
(** Module ["./Point"] exports the class [Point]; constructors create
  instances without own properties.  [PlainObjectSerializer] is not
  part of the sources at hand: a capability without fields stands in
  for it. *)
#[local] Instance env : Env := {|
instantiate _ := ∅;
require r :=
  if String.eqb r "./Point" then Some (ModuleClass "Point") else None;
require_error r :=
  if String.eqb r ""
  then TypeError "The argument 'id' must be a non-empty string"
  else Error ("Cannot find module '" +:+ r +:+ "'");
static C key :=
  if String.eqb key "name" then Some (MemberOther VUndefined)
  else if String.eqb key "length" then Some (MemberOther VUndefined)
  else if String.eqb key "prototype" then Some (MemberOther VUndefined)
  else if String.eqb key "constructor" then Some (MemberClass "Function")
  else None;
inherited key :=
  if String.eqb key "constructor" then Some (MemberClass "Object")
  else if String.eqb key "toString" then Some (MemberOther (VStr "toString"))
  else if String.eqb key "valueOf" then Some (MemberOther (VStr "valueOf"))
  else None;
class_text C := "class " +:+ C +:+ " {}";
plainObjectSerializer := PropertiesSerializer "Object" [] None
|}.

Definition point_serializer : ObjectSerializer :=
PropertiesSerializer "Point" ["x"; "y"] None.

(** The registry once the field-list capability of [Point], over the
  fields [x] and [y], has been registered under ["./Point"]. *)
Definition registry : ObjectMiddleware.registry :=
ObjectMiddleware.set_serializers "Point"
  {| ObjectMiddleware.request := VStr "./Point";
     ObjectMiddleware.exportName := VNull;
     ObjectMiddleware.serializer := point_serializer |}
  ObjectMiddleware.initial.

(** [{x: 1, y: "a"}], a [Point]. *)
Definition point : cell :=
Instance_ "Point" (<["x" := VNum 1]> (<["y" := VStr "a"]> ∅)).

Definition heap1 : heap := <[0%nat := point]> ∅.

(** A [Point] whose field [x] is the point itself. *)
Definition heap_cyclic : heap :=
<[0%nat := Instance_ "Point" (<["x" := VRef 0%nat]> (<["y" := VNum 2]> ∅))]> ∅.

(** A [Point] with a field the capability does not list. *)
Definition heap_extra : heap :=
<[0%nat := Instance_ "Point"
             (<["x" := VNum 1]> (<["y" := VNum 2]> (<["z" := VNum 3]> ∅)))]> ∅.

(** A [Buffer] of one byte. *)
Definition heap_buffer : heap := <[0%nat := Buffer_ [Byte.x01]]> ∅.

(** Two references to one object: a [Point] whose fields [x] and [y]
  both hold the point of [heap1]. *)
Definition heap_shared : heap :=
<[1%nat := Instance_ "Point" (<["x" := VRef 0%nat]> (<["y" := VRef 0%nat]> ∅))]>
  heap1.

Definition rank (a : addr) : nat := a.

(** A hook that counts, in the field [restored] of the instance, how
  often it has been called on it. *)
Definition count_restored (obj : value) (h : heap) : heap :=
match obj with
| VRef a =>
    match h !! a with
    | Some (Instance_ C P) =>
        let seen := match P !! "restored" with
                    | Some (VNum k) => k
                    | _ => 0
                    end in
        <[a := Instance_ C (<["restored" := VNum (seen + 1)]> P)]> h
    | _ => h
    end
| _ => h
end.
End Example.

(** ** Object graphs and their reconstruction *)

(** A value an object graph holds: a primitive, or a reference to an
    object of the heap; no lazy producer. *)
Definition value_ok (h : heap) (v : value) : Prop :=
  match v with
  | VRef a => is_Some (h !! a)
  | VFun _ _ => False
  | _ => True
  end.

(** The height of a value in an acyclic graph ranked by [rank]. *)
Definition key_rank (rank : addr → nat) (v : value) : nat :=
  match v with
  | VRef a => S (rank a)
  | _ => 0
  end.

(** A heap of records of registered types: every cell is an instance of a
    type registered with a field-list capability without hook that lists
    exactly the fields of the instance; the header written for the type
    resolves back to that capability; the fields the constructor creates
    are among the listed ones; and the fields refer only to objects of
    lower rank, so the graph has no cycle. *)
Definition graph_ok {E : Env} (reg : ObjectMiddleware.registry)
    (rank : addr → nat) (h : heap) : Prop :=
  ∀ a c, h !! a = Some c →
    ∃ C P props req exp,
      c = Instance_ C P ∧
      ObjectMiddleware.serializers reg !! C =
        Some (ObjectMiddleware.Build_config req exp
                (PropertiesSerializer C props None)) ∧
      ObjectMiddleware.resolve reg req exp =
        inr (PropertiesSerializer C props None) ∧
      (∀ p, is_Some (instantiate C !! p) → p ∈ props) ∧
      (∀ p, p ∈ props ↔ is_Some (P !! p)) ∧
      (∀ p v, P !! p = Some v →
         value_ok h v ∧ (key_rank rank v ≤ rank a)%nat).

(** [related f v v']: [v'] is [v], read through the correspondence [f]
    between the objects of the two heaps. *)
Definition related (f : addr → option addr) (v v' : value) : Prop :=
  match v with
  | VRef a => ∃ a', f a = Some a' ∧ v' = VRef a'
  | _ => v' = v
  end.

(** [reconstructs f hw hr]: every object in the domain of [f] has, at its
    image, an instance of the same type with the same fields, holding
    related values. *)
Definition reconstructs (f : addr → option addr) (hw hr : heap) : Prop :=
  ∀ a a', f a = Some a' →
    ∃ C P P',
      hw !! a = Some (Instance_ C P) ∧
      hr !! a' = Some (Instance_ C P') ∧
      ∀ p, option_Forall2 (related f) (P !! p) (P' !! p).

(** *** The two calls, side by side *)

Section simulation_defs.
Import ObjectMiddleware.

(** The correspondence the two tables define. *)
Definition table_map (sw : wstate) (sr : rstate) (a : addr) : option addr :=
match wr_referenceable sw !! VRef a with
| Some p =>
    match rd_referenceable sr !! p with
    | Some (VRef a') => Some a'
    | _ => None
    end
| None => None
end.

(** The state of a [deserialize] that has read what a [serialize] has
  written so far: the cursor is at the end of [result], the counters
  agree, and each entry of the write-side table has, at its position
  in the read-side table, the same string or a reconstruction of the
  object. *)
Definition sim_inv (hw : heap) (sw : wstate) (sr : rstate) : Prop :=
wr_heap sw = hw ∧
rd_currentDataPos sr = length (wr_result sw) ∧
rd_currentPos sr = wr_currentPos sw ∧
0 ≤ wr_currentPos sw ∧
(∀ k p, wr_referenceable sw !! k = Some p →
   0 ≤ p < wr_currentPos sw ∧
   match k with
   | VStr s => rd_referenceable sr !! p = Some (VStr s)
   | VRef a =>
       ∃ a' C P P',
         rd_referenceable sr !! p = Some (VRef a') ∧
         hw !! a = Some (Instance_ C P) ∧
         rd_heap sr !! a' = Some (Instance_ C P') ∧
         ∀ q, option_Forall2 (related (table_map sw sr)) (P !! q) (P' !! q)
   | _ => False
   end) ∧
(∀ p v', rd_referenceable sr !! p = Some v' →
   0 ≤ p < rd_currentPos sr ∧
   ∀ a', v' = VRef a' → is_Some (rd_heap sr !! a')).

(** How the states of the two calls grow. *)
Definition grows (rank : addr → nat) (bound : nat)
  (sw : wstate) (sr : rstate) (sw' : wstate) (sr' : rstate) : Prop :=
wr_referenceable sw ⊆ wr_referenceable sw' ∧
rd_referenceable sr ⊆ rd_referenceable sr' ∧
rd_heap sr ⊆ rd_heap sr' ∧
(∀ k, wr_referenceable sw !! k = None →
      is_Some (wr_referenceable sw' !! k) → (key_rank rank k ≤ bound)%nat) ∧
(∀ p a', rd_referenceable sr !! p = None →
         rd_referenceable sr' !! p = Some (VRef a') →
         rd_heap sr !! a' = None).

(** [dec] decodes what [proc] encodes: from states in the invariant,
  when [proc] returns having written a prefix of [data], [dec] returns
  a related value and the invariant holds again. *)
Definition simulates (rank : addr → nat) (hw : heap) (data : list value)
  (proc : value → M wstate unit) (dec : M rstate value) : Prop :=
∀ v sw sw' sr,
  value_ok hw v →
  sim_inv hw sw sr →
  proc v sw = Return tt sw' →
  wr_result sw' `prefix_of` data →
  ∃ v' sr',
    dec sr = Return v' sr' ∧
    sim_inv hw sw' sr' ∧
    related (table_map sw' sr') v v' ∧
    grows rank (key_rank rank v) sw sr sw' sr'.
End simulation_defs.

(** *** States after the elementary steps *)

Section state_steps.
Import ObjectMiddleware.

(** The write-side state after [result.push(...items)], *)
Definition pushed (items : list value) (s : wstate) : wstate :=
{| wr_heap := wr_heap s; wr_result := wr_result s ++ items;
   wr_currentPos := wr_currentPos s;
   wr_referenceable := wr_referenceable s |}.

(** and after [addReferenceable(item)]. *)
Definition registered (item : value) (s : wstate) : wstate :=
{| wr_heap := wr_heap s; wr_result := wr_result s;
   wr_currentPos := wr_currentPos s + 1;
   wr_referenceable := <[item := wr_currentPos s]> (wr_referenceable s) |}.

(** The read-side state after [n] calls of [read], *)
Definition advance (n : nat) (s : rstate) : rstate :=
{| rd_heap := rd_heap s; rd_currentDataPos := n + rd_currentDataPos s;
   rd_currentPos := rd_currentPos s;
   rd_referenceable := rd_referenceable s |}.

(** and after [addReferenceable(item)]. *)
Definition registered' (item : value) (s : rstate) : rstate :=
{| rd_heap := rd_heap s; rd_currentDataPos := rd_currentDataPos s;
   rd_currentPos := rd_currentPos s + 1;
   rd_referenceable := <[rd_currentPos s := item]> (rd_referenceable s) |}.
End state_steps.

(** A value [process] emits as it is, and [decodeValue] returns as it is. *)
Definition plain (v : value) : Prop :=
  match v with
  | VUndefined | VBool _ | VNum _ => True
  | _ => False
  end.

(** *** A call on a truncated stream *)

(** [truncates n m1 m2]: [m1] reads the whole stream and [m2] its first
    [n] items.  The cursor never moves back in [m1]; when [m1] returns
    without having read past item [n], [m2] returns the same; when it has,
    [m2] throws at the end of its stream. *)
Definition truncates {A} (n : nat)
    (m1 m2 : M ObjectMiddleware.rstate A) : Prop :=
  ∀ s a s',
    m1 s = Return a s' →
    (ObjectMiddleware.rd_currentDataPos s ≤ ObjectMiddleware.rd_currentDataPos s')%nat ∧
    ((ObjectMiddleware.rd_currentDataPos s ≤ n)%nat →
     ((ObjectMiddleware.rd_currentDataPos s' ≤ n)%nat ∧ m2 s = Return a s') ∨
     ((n < ObjectMiddleware.rd_currentDataPos s')%nat ∧
      ∃ s'', m2 s = Throw (Error "Unexpected end of stream") s'')).

(** *** The format of the stream

    After the comment at the head of [ObjectMiddleware.js]:

      File -> Section*
      Section -> ObjectSection | ReferenceSection | EscapeSection | OtherSection
      ObjectSection -> ESC (null | string:request (string|null):export) Section:value*
      ReferenceSection -> ESC number:relativeOffset
      EscapeSection -> ESC 1 (escaped value ESC)
      OtherSection -> any (except ESC)

    [sections pos items pos' targets]: [items] is a sequence of sections
    that takes the position counter from [pos] to [pos']; a string
    section and a completed object section take one position each; every
    reference section has a negative offset and points at a position that
    exists; [targets] lists the positions the reference sections point
    at, in order. *)
Definition request_ok (req : value) : Prop :=
  req = VNull ∨ ∃ r, req = VStr r.

Inductive sections : Z → list value → Z → list Z → Prop :=
| sections_nil pos :
    sections pos [] pos []
| ObjectSection pos req exp body pos1 ts1 rest pos2 ts2 :
    request_ok req →
    sections pos body pos1 ts1 →
    sections (pos1 + 1) rest pos2 ts2 →
    sections pos (ObjectMiddleware.ESCAPE :: req :: exp :: body ++ rest) pos2
             (ts1 ++ ts2)
| ReferenceSection pos offset rest pos2 ts :
    offset < 0 → 0 ≤ pos + offset →
    sections pos rest pos2 ts →
    sections pos (ObjectMiddleware.ESCAPE :: VNum offset :: rest) pos2
             ((pos + offset) :: ts)
| EscapeSection pos rest pos2 ts :
    sections pos rest pos2 ts →
    sections pos (ObjectMiddleware.ESCAPE :: ObjectMiddleware.ESCAPE_ESCAPE_VALUE
                    :: rest) pos2 ts
| StringSection pos str rest pos2 ts :
    sections (pos + 1) rest pos2 ts →
    sections pos (VStr str :: rest) pos2 ts
| OtherSection pos item rest pos2 ts :
    item ≠ ObjectMiddleware.ESCAPE → (∀ str, item ≠ VStr str) →
    sections pos rest pos2 ts →
    sections pos (item :: rest) pos2 ts.

(** The requests of a registry are what [register] documents: [null], for
    a global capability, or the name of a module. *)
Definition registry_typed (reg : ObjectMiddleware.registry) : Prop :=
  ∀ C cfg, ObjectMiddleware.serializers reg !! C = Some cfg →
           request_ok (ObjectMiddleware.request cfg).

(** What a run of capability code writes, when each [write] writes
    sections: from a state whose table is below the counter, a sequence of
    sections, to a state whose table is below the counter. *)
Definition writes_sections (s s' : ObjectMiddleware.wstate) : Prop :=
  table_bounded s →
  table_bounded s' ∧
  ∃ out ts, ObjectMiddleware.wr_result s' = ObjectMiddleware.wr_result s ++ out ∧
            sections (ObjectMiddleware.wr_currentPos s) out
                     (ObjectMiddleware.wr_currentPos s') ts.

(** The read-side table holds exactly the positions below the counter. *)
Definition positions_dense (s : ObjectMiddleware.rstate) : Prop :=
  0 ≤ ObjectMiddleware.rd_currentPos s ∧
  ∀ p, is_Some (ObjectMiddleware.rd_referenceable s !! p) ↔
       0 ≤ p < ObjectMiddleware.rd_currentPos s.

(** ** The registries a process can be in *)

(** The two maps as the module leaves them, and what a call of [register]
    that returned has made of such a registry.  A call that throws leaves
    the maps as they were. *)
Inductive reachable {E : Env} : ObjectMiddleware.registry → Prop :=
| reachable_initial :
    reachable ObjectMiddleware.initial
| reachable_register reg C req name s reg' :
    reachable reg →
    ObjectMiddleware.register C req name s reg = Return tt reg' →
    reachable reg'.

(** Every type with a global entry is found again under its name, and the
    name [null] is taken. *)
Definition globals_agree (reg : ObjectMiddleware.registry) : Prop :=
  is_Some (ObjectMiddleware.globalSerializers reg !! VNull) ∧
  ∀ C cfg,
    ObjectMiddleware.serializers reg !! C = Some cfg →
    ObjectMiddleware.request cfg = ObjectMiddleware.GLOBAL_SERIALIZER_REQUEST →
    ObjectMiddleware.globalSerializers reg !! ObjectMiddleware.exportName cfg =
      Some (ObjectMiddleware.serializer cfg).

(** The registrations the module that builds the serializer of the cache
    makes when it is loaded.  The two capabilities work on the classes of
    [webpack-sources]; they are parameters here. *)
Definition register_sources
    (CachedSourceSerializer RawSourceSerializer : ObjectSerializer)
  : M ObjectMiddleware.registry unit :=
  ObjectMiddleware.registerGlobal "CachedSource"
    (VStr "webpack-source/CachedSource") CachedSourceSerializer ;;
  ObjectMiddleware.registerGlobal "RawSource"
    (VStr "webpack-source/RawSource") RawSourceSerializer.

(** ** Kinds of items *)

(** A primitive: [undefined], [null], a boolean, a number or a string. *)
Definition is_primitive (v : value) : bool :=
  match v with
  | VRef _ | VFun _ _ => false
  | _ => true
  end.

Definition is_function (v : value) : bool :=
  match v with
  | VFun _ _ => true
  | _ => false
  end.

(** The strings among the items of a stream. *)
Definition strings_of (items : list value) : list string :=
  omap (λ v, match v with VStr s => Some s | _ => None end) items.

(** The table of a [serialize] that has met only primitives: its keys are
    the strings among the items written, and each of them has been written
    once. *)
Definition strings_registered (s : ObjectMiddleware.wstate) : Prop :=
  NoDup (strings_of (ObjectMiddleware.wr_result s)) ∧
  ∀ k, is_Some (ObjectMiddleware.wr_referenceable s !! k) ↔
       ∃ str, k = VStr str ∧ str ∈ strings_of (ObjectMiddleware.wr_result s).

(** An item that is no object. *)
Definition is_flat (v : value) : bool :=
  match v with
  | VRef _ => false
  | _ => true
  end.

(** What [deserialize] hands back for an item that is no object, written
    by [serialize]: a function under the two handlers, anything else as
    it was. *)
Definition restored (v : value) : value :=
  match v with
  | VFun _ _ =>
      ObjectMiddleware._handleFunctionDeserialization
        (ObjectMiddleware._handleFunctionSerialization v)
  | _ => v
  end.

(** ** Calling a function the middleware has wrapped *)

(** What a call [fn()] of a lazy producer hands back: the items, or a
    promise of them. *)
Inductive produced :=
| Items (data : list value)
| Later (p : Serializer.promise (list value)).

Section call.
Context {E : Env} (reg : ObjectMiddleware.registry) (fuel : nat).

(** The closure [_handleFunctionSerialization] and
[_handleFunctionDeserialization] build around [fn], for [op] the
[serialize] or the [deserialize] of the middleware:

  () => { const r = fn();
          if (r instanceof Promise) return r.then(data => op(data, context));
          return op(r, context); }

An exception of [fn], or of [op] on items handed back directly, leaves
the closure; an exception of [op] inside [then] rejects the promise the
closure returns.  As in [Serializer], a promise stands for the way it
settles. *)
Definition handled (op : list value → M heap (list value))
  (fn : M heap produced) : M heap produced :=
let* r := fn in
match r with
| Later (Serializer.Fulfilled data) =>
    λ h, match op data h with
         | Return out h' => Return (Later (Serializer.Fulfilled out)) h'
         | Throw e h' => Return (Later (Serializer.Rejected e)) h'
         | OutOfFuel => OutOfFuel
         end
| Later (Serializer.Rejected e) => ret (Later (Serializer.Rejected e))
| Items data => let* out := op data in ret (Items out)
end.

(** A call of the function value [VFun f ws]: [functions] says what the
functions of the program do, and each wrapper is the closure of its
handler.  [serialize] wraps without a context, so its closure passes
[undefined]; [deserialize] wraps with the context it was called with. *)
Fixpoint call (functions : nat → M heap produced) (f : nat)
  (ws : list wrapper) (context : value) : M heap produced :=
match ws with
| [] => functions f
| SerializeWrap :: ws' =>
    handled (λ data, ObjectMiddleware.serialize reg fuel data VUndefined)
            (call functions f ws' context)
| DeserializeWrap :: ws' =>
    handled (λ data, ObjectMiddleware.deserialize reg data context)
            (call functions f ws' context)
end.
End call.

(** ** Objects that stay apart *)

(** No two keys of the write-side table share a position. *)
Definition positions_apart (s : ObjectMiddleware.wstate) : Prop :=
  ∀ k1 k2 p,
    ObjectMiddleware.wr_referenceable s !! k1 = Some p →
    ObjectMiddleware.wr_referenceable s !! k2 = Some p →
    k1 = k2.

(** No object is held at two positions of the read-side table. *)
Definition references_apart (s : ObjectMiddleware.rstate) : Prop :=
  ∀ p q a,
    ObjectMiddleware.rd_referenceable s !! p = Some (VRef a) →
    ObjectMiddleware.rd_referenceable s !! q = Some (VRef a) →
    p = q.

(** ** Sections without header

    A section of the stream that is no object section: one item other
    than the sentinel, or the sentinel and a number (the sentinel as
    data, or a back-reference). *)
Definition flat_section (sec : list value) : Prop :=
  (∃ x, sec = [x] ∧ x ≠ ObjectMiddleware.ESCAPE) ∨
  (∃ k, sec = [ObjectMiddleware.ESCAPE; VNum k]).

(** ** Capabilities that leave the objects of a heap alone *)

(** [capability_keeps h0 cap]: the code [deserialize] of the capability,
    run as [decodeValue] runs it and with a [read] that keeps every
    object of [h0] as it is, keeps every object of [h0] as it is. *)
Definition capability_keeps {E : Env} (h0 : heap) (cap : ObjectSerializer)
  : Prop :=
  ∀ rec : M ObjectMiddleware.rstate value,
    (∀ t w t', rec t = Return w t' →
               h0 ⊆ ObjectMiddleware.rd_heap t →
               h0 ⊆ ObjectMiddleware.rd_heap t') →
    ∀ s v s',
      run rec (λ _, throw (TypeError "write is not a function"))
          (ObjectSerializer.deserialize cap) s = Return v s' →
      h0 ⊆ ObjectMiddleware.rd_heap s →
      h0 ⊆ ObjectMiddleware.rd_heap s'.

(** * Properties *)

(** ** The registry *)

Section registry.
Import ObjectMiddleware.

Lemma register_global_taken reg C name s :
is_Some (globalSerializers reg !! name) →
register C GLOBAL_SERIALIZER_REQUEST name s reg =
Throw (Error ("ObjectMiddleware.register: global serializer with this name ("
              +:+ to_string name +:+ ") is already registered")) reg.
Proof.
intros Hsome. unfold register, bind, gets, throw.
rewrite decide_True by done.
by rewrite bool_decide_eq_true_2.
Qed.

Lemma register_global_fresh reg C name s :
globalSerializers reg !! name = None →
register C GLOBAL_SERIALIZER_REQUEST name s reg =
Return tt
  (set_serializers C {| request := GLOBAL_SERIALIZER_REQUEST;
                        exportName := name; serializer := s |}
     (set_globalSerializers name s reg)).
Proof.
intros Hnone. unfold register, bind, gets, modify.
rewrite decide_True by done.
rewrite bool_decide_eq_false_2; [done|].
rewrite Hnone. by intros [? ?].
Qed.

Lemma register_request reg C req name s :
req ≠ GLOBAL_SERIALIZER_REQUEST →
register C req name s reg =
Return tt
  (set_serializers C {| request := req; exportName := name;
                        serializer := s |} reg).
Proof.
intros Hne. unfold register, bind, ret, modify.
by rewrite decide_False.
Qed.
End registry.

(** C7.  A global registration under a name that already has a global
    entry throws from [register] itself and leaves that entry as it was;
    under a fresh global name, or with a request of its own, the
    registration returns and the type's entry is the new one. *)
Theorem register_duplicate_global_name
    (reg : ObjectMiddleware.registry) (C : Constructor)
    (req name : value) (s : ObjectSerializer) :
  (∀ old, req = ObjectMiddleware.GLOBAL_SERIALIZER_REQUEST →
     ObjectMiddleware.globalSerializers reg !! name = Some old →
     ∃ msg reg',
       ObjectMiddleware.register C req name s reg = Throw (Error msg) reg' ∧
       ObjectMiddleware.registerGlobal C name s reg = Throw (Error msg) reg' ∧
       ObjectMiddleware.globalSerializers reg' !! name = Some old) ∧
  (req = ObjectMiddleware.GLOBAL_SERIALIZER_REQUEST →
     ObjectMiddleware.globalSerializers reg !! name = None →
     ∃ reg',
       ObjectMiddleware.register C req name s reg = Return tt reg' ∧
       ObjectMiddleware.globalSerializers reg' !! name = Some s ∧
       ObjectMiddleware.serializers reg' !! C =
         Some (ObjectMiddleware.Build_config req name s)) ∧
  (req ≠ ObjectMiddleware.GLOBAL_SERIALIZER_REQUEST →
     ∃ reg',
       ObjectMiddleware.register C req name s reg = Return tt reg' ∧
       ObjectMiddleware.globalSerializers reg' =
         ObjectMiddleware.globalSerializers reg ∧
       ObjectMiddleware.serializers reg' !! C =
         Some (ObjectMiddleware.Build_config req name s)).
Proof.
  split; [|split].
  - intros old -> Hold. eexists _, reg.
    unfold ObjectMiddleware.registerGlobal.
    rewrite register_global_taken by eauto. done.
  - intros -> Hnone. eexists.
    rewrite register_global_fresh by done.
    split; [done|]. simpl. by rewrite !lookup_insert_eq.
  - intros Hne. eexists.
    rewrite register_request by done.
    split; [done|]. simpl. by rewrite lookup_insert_eq.
Qed.

(** C10.  A global registration under a taken name throws before it
    changes anything: the state at the throw is the registry the call
    started from, so both tables are as they were, the type's own entry
    included. *)
Theorem register_failure_atomic
    (reg : ObjectMiddleware.registry) (C : Constructor)
    (name : value) (s : ObjectSerializer) :
  is_Some (ObjectMiddleware.globalSerializers reg !! name) →
  ∃ msg reg',
    ObjectMiddleware.register C ObjectMiddleware.GLOBAL_SERIALIZER_REQUEST
      name s reg = Throw (Error msg) reg' ∧
    reg' = reg ∧
    ObjectMiddleware.globalSerializers reg' = ObjectMiddleware.globalSerializers reg ∧
    ObjectMiddleware.serializers reg' = ObjectMiddleware.serializers reg ∧
    ObjectMiddleware.serializers reg' !! C = ObjectMiddleware.serializers reg !! C.
Proof.
  intros Hsome. eexists _, reg.
  by rewrite register_global_taken.
Qed.

(** ** The chain of middlewares *)

Section pipeline.
Import Serializer.

Lemma outcome_of_step {A} (call : A → completion A) (last : completion A) :
outcome_of (step call last) =
and_then (outcome_of last) (λ data, outcome_of (call data)).
Proof.
destruct last as [data|[data|e]|e]; simpl; try done.
by destruct (call data) as [?|[?|?]|?].
Qed.

Lemma outcome_of_fold {A B} (call : B → A → completion A)
  (stages : list B) (last : completion A) :
outcome_of (fold_left (λ last m, step (call m) last) stages last) =
fold_left (λ acc m, and_then acc (λ data, outcome_of (call m data)))
          stages (outcome_of last).
Proof.
revert last. induction stages as [|m stages IH]; intros last; simpl.
- done.
- by rewrite IH, outcome_of_step.
Qed.

Lemma settle_Promise_resolve {A} (x : completion A) :
settle (Promise_resolve x) = outcome_of x.
Proof. by destruct x as [?|[?|?]|?]. Qed.
End pipeline.

(** C9.  [serializeToFile] starts from the one-element array [[obj]] and
    feeds every middleware, first to last, the data the one before it ended
    with, whether that came directly or through a promise; a middleware
    after a failed one is not run.  [deserializeFromFile] does the same
    with [deserialize] over the middlewares last to first, starting from
    the empty array, and ends with element 0 of the final array. *)
Theorem serializer_folds_middlewares
    (middlewares : list Serializer.SerializerMiddleware)
    (obj : value) (file : string) :
  let context := Serializer.Build_context file in
  Serializer.settle (Serializer.serializeToFile middlewares obj file) =
    fold_left
      (λ acc m, Serializer.and_then acc (λ data,
         Serializer.outcome_of (Serializer.serialize m data context)))
      middlewares (inr [obj])
  ∧
  Serializer.settle (Serializer.deserializeFromFile middlewares file) =
    Serializer.and_then
      (fold_left
         (λ acc m, Serializer.and_then acc (λ data,
            Serializer.outcome_of (Serializer.deserialize m data context)))
         (rev middlewares) (inr []))
      (λ array, inr (default VUndefined (array !! 0%nat))).
Proof.
  intros context. split.
  - unfold Serializer.serializeToFile.
    rewrite settle_Promise_resolve.
    by rewrite (outcome_of_fold (λ m data, Serializer.serialize m data _)).
  - unfold Serializer.deserializeFromFile.
    pose proof (outcome_of_fold
                  (λ m data, Serializer.deserialize m data context)
                  (rev middlewares) (Serializer.Value [])) as Hfold.
    simpl in Hfold. fold context. rewrite <- Hfold.
    by destruct (fold_left _ _ _) as [?|[?|?]|?].
Qed.

(** ** Running capability code *)

Section run_lemmas.
Context {E : Env} {S : Type} `{HasHeap S}.
Variable rd : M S value.
Variable wr : value → M S unit.

Lemma run_bind {A B} (c : code A) (f : A → code B) (s : S) :
run rd wr (code_bind c f) s = bind (run rd wr c) (λ x, run rd wr (f x)) s.
Proof.
revert s. induction c as [a|k IH|v k IH|C k IH|o p k IH|o p v k IH|g arg k IH];
  intros s; simpl; try done.
- unfold bind. destruct (rd s); eauto.
- unfold bind. destruct (wr v s); eauto.
- unfold bind. destruct (alloc C s); eauto.
- unfold bind. destruct (js_get o p s); eauto.
- unfold bind. destruct (js_set o p v s); eauto.
- unfold bind. simpl. eauto.
Qed.

Lemma run_for_of_cons {A} (x : A) (l : list A) (body : A → code unit) (s : S) :
run rd wr (for_of (x :: l) body) s =
bind (run rd wr (body x)) (λ _, run rd wr (for_of l body)) s.
Proof. simpl. apply run_bind. Qed.
End run_lemmas.

(** ** The field-list capability *)

Section properties_serializer.
Context {E : Env}.

Lemma properties_write_fields (props : list string) (h : heap) (a : addr)
  (cls : Constructor) (P : gmap string value) (written pending : list value) :
h !! a = Some (Instance_ cls P) →
run probe_read probe_write
  (for_of props (λ prop, code_bind (get_prop (VRef a) prop) write_))
  {| pr_heap := h; pr_written := written; pr_pending := pending |} =
Return tt
  {| pr_heap := h;
     pr_written := written ++ ((λ prop, default VUndefined (P !! prop)) <$> props);
     pr_pending := pending |}.
Proof.
intros Ha. revert written.
induction props as [|prop props IH]; intros written.
- simpl. unfold ret. by rewrite app_nil_r.
- rewrite run_for_of_cons. unfold bind at 1. simpl.
  unfold bind at 1. unfold js_get. simpl. rewrite Ha.
  unfold bind at 1. unfold probe_write, modify. simpl. unfold ret.
  rewrite IH. by rewrite <- app_assoc.
Qed.

Lemma properties_assign_fields (props : list string) (vs : list value)
  (h : heap) (a : addr) (C : Constructor) (Q : gmap string value)
  (written rest : list value) :
length vs = length props →
h !! a = Some (Instance_ C Q) →
run probe_read probe_write
  (for_of props (λ prop, code_bind read_ (set_prop (VRef a) prop)))
  {| pr_heap := h; pr_written := written; pr_pending := vs ++ rest |} =
Return tt
  {| pr_heap := <[a := Instance_ C (assign_all Q (zip props vs))]> h;
     pr_written := written; pr_pending := rest |}.
Proof.
revert vs h Q.
induction props as [|prop props IH]; intros vs h Q Hlen Ha.
- destruct vs; [|done]. simpl. unfold ret.
  by rewrite insert_id.
- destruct vs as [|v vs]; [done|]. simpl in Hlen.
  rewrite run_for_of_cons. unfold bind at 1. simpl.
  unfold bind at 1. unfold probe_read. simpl.
  unfold bind at 1. unfold js_set. simpl. rewrite Ha. unfold ret.
  rewrite (IH vs _ (<[prop := v]> Q)).
  + by rewrite insert_insert_eq.
  + lia.
  + by rewrite lookup_insert_eq.
Qed.

Lemma properties_serialize_unfold C props hook obj :
ObjectSerializer.serialize (PropertiesSerializer C props hook) obj =
for_of props (λ prop, code_bind (get_prop obj prop) write_).
Proof. reflexivity. Qed.

Lemma properties_deserialize_unfold C props hook :
ObjectSerializer.deserialize (PropertiesSerializer C props hook) =
code_bind (new_ C) (λ obj,
code_bind (for_of props (λ prop, code_bind read_ (set_prop obj prop))) (λ _,
code_bind (match hook with
           | Some hook => invoke hook obj
           | None => Ret tt
           end) (λ _, Ret obj))).
Proof. reflexivity. Qed.

Lemma assign_all_lookup (f : string → value) (props : list string)
  (Q : gmap string value) (prop : string) :
assign_all Q (zip props (f <$> props)) !! prop =
if decide (prop ∈ props) then Some (f prop) else Q !! prop.
Proof.
revert Q. induction props as [|x props IH]; intros Q.
- case_decide as Hin; [by apply elem_of_nil in Hin | done].
- change (assign_all Q (zip (x :: props) (f <$> x :: props)))
    with (assign_all (<[x := f x]> Q) (zip props (f <$> props))).
  rewrite IH.
  destruct (decide (prop ∈ props)) as [Hin|Hnin].
  + rewrite decide_True; [done|]. apply elem_of_cons. by right.
  + destruct (decide (prop = x)) as [->|Hne].
    * rewrite lookup_insert_eq. rewrite decide_True; [done|].
      apply elem_of_cons. by left.
    * rewrite lookup_insert_ne by done.
      rewrite decide_False; [done|].
      rewrite elem_of_cons. by intros [?|?].
Qed.
End properties_serializer.

(** C8.  The capability built from a constructor, a field list and an
    optional hook: [serialize] hands the sink the current value of each
    listed field, in list order; [deserialize] makes a new instance with
    the constructor, assigns the listed fields in the same order from the
    source, then applies the hook, if there is one, once to the populated
    instance and returns that instance; fed what [serialize] wrote, the
    instance the hook sees has every listed field as the record had it. *)
Theorem properties_serializer_fields {E : Env}
    (C : Constructor) (properties : list string)
    (onRestored : option (value → heap → heap))
    (h : heap) (a : addr) (cls : Constructor) (P : gmap string value)
    (written pending : list value) :
  h !! a = Some (Instance_ cls P) →
  let cap := PropertiesSerializer C properties onRestored in
  let values := (λ prop, default VUndefined (P !! prop)) <$> properties in
  let obj := fresh (dom h) in
  let populated vs :=
    <[obj := Instance_ C (assign_all (instantiate C) (zip properties vs))]> h in
  run probe_read probe_write (ObjectSerializer.serialize cap (VRef a))
    {| pr_heap := h; pr_written := written; pr_pending := pending |} =
  Return tt
    {| pr_heap := h; pr_written := written ++ values; pr_pending := pending |}
  ∧
  (∀ vs, length vs = length properties →
     run probe_read probe_write (ObjectSerializer.deserialize cap)
       {| pr_heap := h; pr_written := written; pr_pending := vs ++ pending |} =
     Return (VRef obj)
       {| pr_heap := match onRestored with
                     | Some hook => hook (VRef obj) (populated vs)
                     | None => populated vs
                     end;
          pr_written := written; pr_pending := pending |})
  ∧
  h !! obj = None
  ∧
  (∀ prop, prop ∈ properties →
     ∃ Q, populated values !! obj = Some (Instance_ C Q) ∧
          Q !! prop = Some (default VUndefined (P !! prop))).
Proof.
  intros Ha cap values obj populated.
  assert (h !! obj = None) as Hfresh.
  { apply not_elem_of_dom, is_fresh. }
  split; [|split; [|split]].
  - unfold cap. rewrite properties_serialize_unfold.
    by apply properties_write_fields with (cls := cls).
  - intros vs Hlen. unfold cap. rewrite properties_deserialize_unfold.
    rewrite run_bind. unfold bind at 1.
    change (run probe_read probe_write (new_ C)) with (bind (S := probe) (alloc C) ret).
    unfold bind at 1. unfold alloc. simpl. unfold ret.
    rewrite run_bind. unfold bind at 1.
    rewrite (properties_assign_fields _ _ _ obj C (instantiate C));
      [| done | by rewrite lookup_insert_eq].
    rewrite insert_insert_eq.
    rewrite run_bind. unfold bind at 1.
    destruct onRestored as [hook|]; simpl; unfold bind, modify, ret; simpl; done.
  - done.
  - intros prop Hin. eexists. unfold populated.
    rewrite lookup_insert_eq. split; [done|].
    unfold values. rewrite assign_all_lookup.
    by rewrite decide_True.
Qed.

(** ** Relations every run keeps *)

Section run_preserves.
Context {E : Env} {S : Type} `{HasHeap S}.
Variable I : S → S → Prop.
Hypothesis I_refl : ∀ s, I s s.
Hypothesis I_trans : ∀ s1 s2 s3, I s1 s2 → I s2 s3 → I s1 s3.
Hypothesis I_heap : ∀ h s, I s (set_heap h s).
Variable rd : M S value.
Variable wr : value → M S unit.
Hypothesis I_rd : ∀ s v s', rd s = Return v s' → I s s'.
Hypothesis I_wr : ∀ v s s', wr v s = Return tt s' → I s s'.

Lemma run_preserves {A} (c : code A) (s : S) (a : A) (s' : S) :
run rd wr c s = Return a s' → I s s'.
Proof.
revert s.
induction c as [x|k IH|v k IH|C k IH|o p k IH|o p v k IH|g arg k IH];
  intros s; simpl; unfold bind.
- unfold ret. intros [= _ <-]. apply I_refl.
- destruct (rd s) as [v s1| |] eqn:Hrd; try done.
  intros Hk. eapply I_trans; [by eapply I_rd|by eapply IH].
- destruct (wr v s) as [[] s1| |] eqn:Hwr; try done.
  intros Hk. eapply I_trans; [by eapply I_wr|by eapply IH].
- unfold alloc. intros Hk.
  eapply I_trans; [apply I_heap|by eapply IH].
- unfold js_get.
  destruct o as [| | | | |a0|]; try done;
    try (intros Hk; by eapply IH).
  destruct (get_heap s !! a0) as [[]|]; try done;
    intros Hk; by eapply IH.
- unfold js_set.
  destruct o as [| | | | |a0|]; try done;
    try (intros Hk; by eapply IH).
  destruct (get_heap s !! a0) as [[]|]; try done; intros Hk.
  + eapply I_trans; [apply I_heap|by eapply IH].
  + by eapply IH.
- unfold modify. intros Hk.
  eapply I_trans; [apply I_heap|by eapply IH].
Qed.
End run_preserves.

Section process_preserves.
Import ObjectMiddleware.
Context {E : Env} (reg : registry).
Variable I : wstate → wstate → Prop.
Hypothesis I_refl : ∀ s, I s s.
Hypothesis I_trans : ∀ s1 s2 s3, I s1 s2 → I s2 s3 → I s1 s3.
Hypothesis I_heap : ∀ h s, I s (set_heap h s).
Hypothesis I_push : ∀ items s s', push items s = Return tt s' → I s s'.
Hypothesis I_add : ∀ item s s',
referenceable_value item → addReferenceable item s = Return tt s' → I s s'.

Lemma object_test_ref (item : value) :
String.eqb (typeof item) "object" && negb (bool_decide (item = VNull)) = true →
∃ a, item = VRef a.
Proof. destruct item; try done. eauto. Qed.

Lemma string_test_str (item : value) :
String.eqb (typeof item) "string" = true → ∃ s, item = VStr s.
Proof. destruct item; try done. eauto. Qed.

Lemma isBuffer_ref (h : heap) (item : value) :
isBuffer h item = true → ∃ a, item = VRef a.
Proof. destruct item; try done. eauto. Qed.

Lemma process_body_preserves (rec : value → M wstate unit) (item : value)
  (s s' : wstate) :
(∀ v t t', rec v t = Return tt t' → I t t') →
process_body reg rec item s = Return tt s' → I s s'.
Proof.
intros IH.
unfold process_body. unfold bind at 1. unfold gets at 1.
destruct (wr_referenceable s !! item) as [ref|].
{ unfold bind, gets. apply I_push. }
destruct (String.eqb (typeof item) "object" && negb (bool_decide (item = VNull)))
  eqn:Hobj.
{ apply object_test_ref in Hobj.
  unfold bind at 1. unfold gets at 1.
  unfold bind at 1.
  destruct (getSerializerFor reg (wr_heap s) item) as [e|cfg]; [done|].
  unfold lift_sum, ret.
  unfold bind at 1.
  destruct (push _ s) as [[] s1| |] eqn:Hpush; try done.
  unfold bind at 1.
  destruct (run _ _ _ s1) as [[] s2| |] eqn:Hrun; try done.
  intros Hadd.
  eapply I_trans; [by eapply I_push|].
  eapply I_trans; [|eapply I_add; [by right|done]].
  eapply (run_preserves I); [done..| | |exact Hrun]; done. }
destruct (String.eqb (typeof item) "string") eqn:Hstr.
{ apply string_test_str in Hstr.
  unfold bind at 1.
  destruct (addReferenceable item s) as [[] s1| |] eqn:Hadd; try done.
  intros Hpush.
  eapply I_trans; [eapply I_add; [by left|done]|by eapply I_push]. }
unfold bind at 1. unfold gets at 1.
destruct (isBuffer (wr_heap s) item) eqn:Hbuf.
{ apply isBuffer_ref in Hbuf.
  unfold bind at 1.
  destruct (addReferenceable item s) as [[] s1| |] eqn:Hadd; try done.
  intros Hpush.
  eapply I_trans; [eapply I_add; [by right|done]|by eapply I_push]. }
destruct (bool_decide (item = ESCAPE)); [apply I_push|].
destruct (String.eqb (typeof item) "function"); apply I_push.
Qed.

Lemma process_preserves (fuel : nat) (item : value) (s s' : wstate) :
process reg fuel item s = Return tt s' → I s s'.
Proof.
revert item s s'. induction fuel as [|fuel IH]; intros item s s'; [done|].
by apply process_body_preserves.
Qed.
End process_preserves.

Section process_facts.
Import ObjectMiddleware.
Context {E : Env} (reg : registry).

(** [process] only appends to [result]. *)
Lemma process_result_prefix fuel item s s' :
process reg fuel item s = Return tt s' →
wr_result s `prefix_of` wr_result s'.
Proof.
apply (process_preserves reg (λ s s', wr_result s `prefix_of` wr_result s')).
- done.
- intros s1 s2 s3 ??. by etrans.
- done.
- intros items t t' [= <-]. simpl. by apply prefix_app_r.
- intros it t t' _ [= <-]. done.
Qed.

(** [process] keeps the table below the counter, which never decreases. *)
Lemma process_table_bounded fuel item s s' :
process reg fuel item s = Return tt s' →
table_bounded s →
table_bounded s' ∧ wr_currentPos s ≤ wr_currentPos s'.
Proof.
apply (process_preserves reg
         (λ s s', table_bounded s →
                  table_bounded s' ∧ wr_currentPos s ≤ wr_currentPos s')).
- intros t Ht. split; [done|lia].
- intros s1 s2 s3 H12 H23 H1.
  destruct (H12 H1) as [H2 ?]. destruct (H23 H2) as [H3 ?].
  split; [done|lia].
- intros h t Ht. split; [done|simpl; lia].
- intros items t t' [= <-] Ht. split; [done|simpl; lia].
- intros it t t' Hit [= <-] [Hpos Ht]. split; [|simpl; lia].
  split; simpl; [lia|].
  intros k p. rewrite lookup_insert.
  case_decide as Hk.
  + intros [= <-]. subst k. split; [done|lia].
  + intros Hkp. destruct (Ht _ _ Hkp) as [? ?]. split; [done|lia].
Qed.

Lemma table_bounded_init h : table_bounded (wstate_init h).
Proof. split; simpl; [lia|]. intros k p. by rewrite lookup_empty. Qed.
End process_facts.

Section decodeValue_preserves.
Import ObjectMiddleware.
Context {E : Env} (reg : registry) (data : list value).
Variable J : rstate → rstate → Prop.
Hypothesis J_refl : ∀ s, J s s.
Hypothesis J_trans : ∀ s1 s2 s3, J s1 s2 → J s2 s3 → J s1 s3.
Hypothesis J_heap : ∀ h s, J s (set_heap h s).
Hypothesis J_read : ∀ s v s', read data s = Return v s' → J s s'.
Hypothesis J_add : ∀ item s s', addReferenceable' item s = Return tt s' → J s s'.

(** A decoded value starts with a [read]; the rest of the call keeps [J]. *)
Lemma decodeValue_body_preserves (rec : M rstate value) (s : rstate)
  (v : value) (s' : rstate) :
(∀ t w t', rec t = Return w t' → J t t') →
decodeValue_body reg data rec s = Return v s' →
∃ item s1, read data s = Return item s1 ∧ J s1 s'.
Proof.
intros IH.
unfold decodeValue_body. unfold bind at 1.
destruct (read data s) as [item s1| |] eqn:Hread1; try done.
intros Hk. exists item, s1. split; [done|]. revert Hk.
destruct (bool_decide (item = ESCAPE)).
{ unfold bind at 1.
  destruct (read data s1) as [nextItem s2| |] eqn:Hread2; try done.
  apply J_read in Hread2.
  destruct (bool_decide (nextItem = ESCAPE_ESCAPE_VALUE)).
  { unfold ret. by intros [= _ <-]. }
  assert (∀ s3,
    (let* exportName_ := read data in
     let* serializer_ := lift_sum (resolve reg nextItem exportName_) in
     let* item0 := run rec
                      (λ _, throw (TypeError "write is not a function"))
                      (ObjectSerializer.deserialize serializer_) in
     addReferenceable' item0;; ret item0) s2 = Return v s3 → J s2 s3) as Hobj.
  { intros s3. unfold bind at 1.
    destruct (read data s2) as [exportName_ s4| |] eqn:Hread3; try done.
    apply J_read in Hread3.
    unfold bind at 1.
    destruct (resolve reg nextItem exportName_) as [e|serializer_]; [done|].
    unfold lift_sum, ret. unfold bind at 1.
    destruct (run _ _ _ s4) as [item0 s5| |] eqn:Hrun; try done.
    unfold bind at 1.
    destruct (addReferenceable' item0 s5) as [[] s6| |] eqn:Hadd; try done.
    intros [= _ <-].
    eapply J_trans; [exact Hread3|].
    eapply J_trans; [|by eapply J_add].
    eapply (run_preserves J); [done..| | |exact Hrun]; done. }
  destruct nextItem;
    try (intros Hk; apply Hobj in Hk; by eapply J_trans).
  unfold gets. by intros [= _ <-]. }
destruct (String.eqb (typeof item) "string").
{ unfold bind at 1.
  destruct (addReferenceable' item s1) as [[] s2| |] eqn:Hadd; try done.
  unfold ret. intros [= _ <-]. by eapply J_add. }
unfold bind at 1. unfold gets at 1.
destruct (isBuffer (rd_heap s1) item).
{ unfold bind at 1.
  destruct (addReferenceable' item s1) as [[] s2| |] eqn:Hadd; try done.
  unfold ret. intros [= _ <-]. by eapply J_add. }
destruct (String.eqb (typeof item) "function");
  unfold ret; intros [= _ <-]; done.
Qed.

Lemma decodeValue_preserves (fuel : nat) (s : rstate) (v : value) (s' : rstate) :
decodeValue reg data fuel s = Return v s' → J s s'.
Proof.
revert s v s'. induction fuel as [|fuel IH]; intros s v s'; [done|].
intros (item & s1 & Hread & HJ)%decodeValue_body_preserves; [|done].
eapply J_trans; [by eapply J_read|done].
Qed.
End decodeValue_preserves.

Section decode_facts.
Import ObjectMiddleware.
Context {E : Env} (reg : registry) (data : list value).

Lemma read_Return s v s' :
read data s = Return v s' →
data !! rd_currentDataPos s = Some v ∧
s' = {| rd_heap := rd_heap s;
        rd_currentDataPos := Datatypes.S (rd_currentDataPos s);
        rd_currentPos := rd_currentPos s;
        rd_referenceable := rd_referenceable s |}.
Proof.
unfold read. destruct (data !! rd_currentDataPos s); [|done].
by intros [= <- <-].
Qed.

(** The cursor never moves back, *)
Lemma decodeValue_cursor_mono fuel s v s' :
decodeValue reg data fuel s = Return v s' →
(rd_currentDataPos s ≤ rd_currentDataPos s')%nat.
Proof.
apply (decodeValue_preserves reg data
         (λ s s', (rd_currentDataPos s ≤ rd_currentDataPos s')%nat)).
- done.
- intros s1 s2 s3 ??. lia.
- done.
- intros t w t' [_ ->]%read_Return. simpl. lia.
- intros it t t' [= <-]. done.
Qed.

(** and a value that was decoded took at least one item. *)
Lemma decodeValue_cursor_lt fuel s v s' :
decodeValue reg data fuel s = Return v s' →
(rd_currentDataPos s < rd_currentDataPos s')%nat.
Proof.
destruct fuel as [|fuel]; [done|].
intros (item & s1 & [_ ->]%read_Return & HJ)%(decodeValue_body_preserves
  reg data (λ s s', (rd_currentDataPos s ≤ rd_currentDataPos s')%nat)).
- simpl in HJ. lia.
- done.
- intros s1 s2 s3 ??. lia.
- done.
- intros t w t' [_ ->]%read_Return. simpl. lia.
- intros it t t' [= <-]. done.
- intros t w t'. apply decodeValue_cursor_mono.
Qed.

(** The cursor stays within the stream. *)
Lemma decodeValue_cursor_bound fuel s v s' :
decodeValue reg data fuel s = Return v s' →
(rd_currentDataPos s ≤ length data)%nat →
(rd_currentDataPos s' ≤ length data)%nat.
Proof.
apply (decodeValue_preserves reg data
         (λ s s', (rd_currentDataPos s ≤ length data)%nat →
                  (rd_currentDataPos s' ≤ length data)%nat)).
- done.
- intros s1 s2 s3 H12 H23 ?. auto.
- done.
- intros t w t' [Hw ->]%read_Return _. simpl.
  by apply lookup_lt_Some in Hw.
- intros it t t' [= <-]. done.
Qed.
End decode_facts.

(** ** Single steps of the codec *)

Section steps.
Import ObjectMiddleware.
Context {E : Env} (reg : registry).

Lemma process_escape rec (s : wstate) :
wr_referenceable s !! ESCAPE = None →
process_body reg rec ESCAPE s =
Return tt (pushed [ESCAPE; ESCAPE_ESCAPE_VALUE] s).
Proof.
intros Hnone. unfold process_body, bind, gets. by rewrite Hnone.
Qed.

Lemma table_bounded_escape (s : wstate) :
table_bounded s → wr_referenceable s !! ESCAPE = None.
Proof.
intros [_ Ht]. destruct (wr_referenceable s !! ESCAPE) as [p|] eqn:Hp; [|done].
by destruct (Ht _ _ Hp) as [[[? ?]|[? ?]] _].
Qed.

Lemma process_reference rec (item : value) (ref : Z) (s : wstate) :
wr_referenceable s !! item = Some ref →
process_body reg rec item s =
Return tt (pushed [ESCAPE; VNum (ref - wr_currentPos s)] s).
Proof.
intros Href. unfold process_body, bind, gets. by rewrite Href.
Qed.

Lemma process_string rec (str : string) (s : wstate) :
wr_referenceable s !! VStr str = None →
process_body reg rec (VStr str) s =
Return tt (pushed [VStr str] (registered (VStr str) s)).
Proof.
intros Hnone. unfold process_body, bind, gets. by rewrite Hnone.
Qed.

Variable data : list value.

Lemma decodeValue_escape rec (s : rstate) :
data !! rd_currentDataPos s = Some ESCAPE →
data !! Datatypes.S (rd_currentDataPos s) = Some ESCAPE_ESCAPE_VALUE →
decodeValue_body reg data rec s = Return ESCAPE (advance 2 s).
Proof.
intros H0 H1. unfold decodeValue_body, bind, read. rewrite H0. simpl.
by rewrite H1.
Qed.

Lemma decodeValue_reference rec (offset : Z) (s : rstate) :
data !! rd_currentDataPos s = Some ESCAPE →
data !! Datatypes.S (rd_currentDataPos s) = Some (VNum offset) →
offset ≠ 1 →
decodeValue_body reg data rec s =
Return (default VUndefined
          (rd_referenceable s !! (rd_currentPos s + offset)))
       (advance 2 s).
Proof.
intros H0 H1 Hne. unfold decodeValue_body, bind, read. rewrite H0. simpl.
rewrite H1. simpl.
rewrite bool_decide_eq_false_2; [done|].
unfold ESCAPE_ESCAPE_VALUE. congruence.
Qed.

Lemma decodeValue_string rec (str : string) (s : rstate) :
data !! rd_currentDataPos s = Some (VStr str) →
decodeValue_body reg data rec s =
Return (VStr str) (advance 1 (registered' (VStr str) s)).
Proof.
intros H0. unfold decodeValue_body, bind, read. by rewrite H0.
Qed.
End steps.

(** C2, as the code has it: the claim says that a back-reference whose
    offset misses the read-side table makes the call fail.  There is no
    such check: [referenceable.get] answers [undefined], which is returned
    as the decoded value, and the call goes on. *)
Lemma unresolved_reference_not_rejected :
  ObjectMiddleware.deserialize (E := Example.env) Example.registry
    [ObjectMiddleware.ESCAPE; VNum (-1)] VUndefined ∅ =
  Return [VUndefined] ∅ ∧
  ¬ ∃ e h, ObjectMiddleware.deserialize (E := Example.env) Example.registry
             [ObjectMiddleware.ESCAPE; VNum (-1)] VUndefined ∅ = Throw e h.
Proof.
  split; [by vm_compute|].
  intros (e & h & Hd). by vm_compute in Hd.
Qed.

(** C2, amended.  When the escape sentinel is followed by a number other
    than 1 and the position it points to has no entry in the read-side
    table, [decodeValue] does not fail: it returns [undefined] for the
    back-reference, having consumed the two items and left the counter
    and the table as they were. *)
Theorem unresolved_reference_undefined {E : Env}
    (reg : ObjectMiddleware.registry) (data : list value) (fuel : nat)
    (offset : Z) (s : ObjectMiddleware.rstate) :
  data !! ObjectMiddleware.rd_currentDataPos s = Some ObjectMiddleware.ESCAPE →
  data !! S (ObjectMiddleware.rd_currentDataPos s) = Some (VNum offset) →
  offset ≠ 1 →
  ObjectMiddleware.rd_referenceable s
    !! (ObjectMiddleware.rd_currentPos s + offset) = None →
  ObjectMiddleware.decodeValue reg data (S fuel) s =
    Return VUndefined (advance 2 s) ∧
  ObjectMiddleware.rd_currentPos (advance 2 s) = ObjectMiddleware.rd_currentPos s ∧
  ObjectMiddleware.rd_referenceable (advance 2 s) =
    ObjectMiddleware.rd_referenceable s.
Proof.
  intros H0 H1 Hne Hmiss. simpl.
  rewrite (decodeValue_reference reg data _ offset) by done.
  by rewrite Hmiss.
Qed.

(** ** The recursion bound of [deserialize] is never reached *)

Section fuel.
Context {S : Type}.

Lemma bind_mono {A B} (m : M S A) (k1 k2 : A → M S B) (s : S) :
(∀ a t, k1 a t ≠ OutOfFuel → k2 a t = k1 a t) →
bind m k1 s ≠ OutOfFuel → bind m k2 s = bind m k1 s.
Proof.
unfold bind. intros Hk. destruct (m s); try done. apply Hk.
Qed.

Lemma bind_total {A B} (m : M S A) (k : A → M S B) (s : S) :
m s ≠ OutOfFuel →
(∀ a t, m s = Return a t → k a t ≠ OutOfFuel) →
bind m k s ≠ OutOfFuel.
Proof.
unfold bind. intros Hm Hk. destruct (m s); try done. by apply Hk.
Qed.

Context {E : Env} `{HasHeap S}.
Variable wr : value → M S unit.

Lemma run_fuel_mono {A} (rd1 rd2 : M S value) (c : code A) (s : S) :
(∀ t, rd1 t ≠ OutOfFuel → rd2 t = rd1 t) →
run rd1 wr c s ≠ OutOfFuel → run rd2 wr c s = run rd1 wr c s.
Proof.
intros Hrd. revert s.
induction c as [x|k IH|v k IH|C k IH|o p k IH|o p v k IH|g arg k IH];
  intros s; simpl; try done.
- unfold bind. destruct (rd1 s) as [v s1| |] eqn:H1; try done;
    rewrite Hrd, H1 by (by rewrite H1); [apply IH|done].
- apply bind_mono. intros _ t. apply IH.
- apply bind_mono. intros o t. apply IH.
- apply bind_mono. intros v t. apply IH.
- apply bind_mono. intros _ t. apply IH.
- apply bind_mono. intros _ t. apply IH.
Qed.

Variable Q : S → Prop.
Variable rd : M S value.
Hypothesis Q_heap : ∀ h t, Q t → Q (set_heap h t).
Hypothesis Q_rd : ∀ t v t', Q t → rd t = Return v t' → Q t'.
Hypothesis Q_wr : ∀ v t t', Q t → wr v t = Return tt t' → Q t'.
Hypothesis rd_total : ∀ t, Q t → rd t ≠ OutOfFuel.
Hypothesis wr_total : ∀ v t, Q t → wr v t ≠ OutOfFuel.

Lemma run_total {A} (c : code A) (s : S) :
Q s → run rd wr c s ≠ OutOfFuel.
Proof.
revert s.
induction c as [x|k IH|v k IH|C k IH|o p k IH|o p v k IH|g arg k IH];
  intros s Hs; simpl; try done.
- apply bind_total; [by apply rd_total|].
  intros v t Hv. apply IH. by eapply Q_rd.
- apply bind_total; [by apply wr_total|].
  intros [] t Hv. apply IH. by eapply Q_wr.
- apply bind_total; [done|].
  intros o t [= _ <-]. apply IH. by apply Q_heap.
- apply bind_total.
  + unfold js_get. destruct o as [| | | | |a0|]; try done.
    by destruct (get_heap s !! a0) as [[]|].
  + unfold js_get. intros v t Hv. apply IH.
    destruct o as [| | | | |a0|]; try (by simplify_eq).
    destruct (get_heap s !! a0) as [[]|]; by simplify_eq.
- apply bind_total.
  + unfold js_set. destruct o as [| | | | |a0|]; try done.
    by destruct (get_heap s !! a0) as [[]|].
  + unfold js_set. intros v0 t Hv. apply IH.
    destruct o as [| | | | |a0|]; try (by simplify_eq).
    destruct (get_heap s !! a0) as [[]|]; simplify_eq; [by apply Q_heap|done].
- apply bind_total; [done|].
  intros [] t [= <-]. apply IH. by apply Q_heap.
Qed.
End fuel.

Section decode_fuel.
Import ObjectMiddleware.
Context {E : Env} (reg : registry) (data : list value).

Lemma decodeValue_body_mono (rec1 rec2 : M rstate value) (s : rstate) :
(∀ t, rec1 t ≠ OutOfFuel → rec2 t = rec1 t) →
decodeValue_body reg data rec1 s ≠ OutOfFuel →
decodeValue_body reg data rec2 s = decodeValue_body reg data rec1 s.
Proof.
intros Hrec. unfold decodeValue_body.
apply bind_mono. intros item s1.
destruct (bool_decide (item = ESCAPE)); [|done].
apply bind_mono. intros nextItem s2.
destruct (bool_decide (nextItem = ESCAPE_ESCAPE_VALUE)); [done|].
destruct nextItem; try done;
  (apply bind_mono; intros exportName_ s3;
   apply bind_mono; intros serializer_ s4;
   intros Hne; unfold bind in Hne |- *;
   rewrite (run_fuel_mono _ rec1 rec2); [done|done|];
   by destruct (run rec1 _ _ s4)).
Qed.

Lemma decodeValue_fuel_mono (n m : nat) (s : rstate) :
(n ≤ m)%nat →
decodeValue reg data n s ≠ OutOfFuel →
decodeValue reg data m s = decodeValue reg data n s.
Proof.
revert m s. induction n as [|n IH]; intros m s Hle; [done|].
destruct m as [|m]; [lia|]. simpl.
apply decodeValue_body_mono. intros t. apply IH. lia.
Qed.

Lemma lift_sum_total {S A} (x : exn + A) (s : S) : lift_sum x s ≠ OutOfFuel.
Proof. by destruct x. Qed.

Lemma lift_sum_Return {S A} (x : exn + A) (s : S) a t :
lift_sum x s = Return a t → x = inr a ∧ t = s.
Proof. destruct x; [done|]. by intros [= -> ->]. Qed.

Lemma read_not_OutOfFuel (s : rstate) : read data s ≠ OutOfFuel.
Proof. unfold read. by destruct (data !! rd_currentDataPos s). Qed.

Lemma decodeValue_total (fuel : nat) (s : rstate) :
(length data - rd_currentDataPos s < fuel)%nat →
decodeValue reg data fuel s ≠ OutOfFuel.
Proof.
revert s. induction fuel as [|fuel IH]; intros s Hlt; [lia|].
simpl. unfold decodeValue_body.
apply bind_total; [apply read_not_OutOfFuel|].
intros item s1 [Hitem ->]%read_Return.
apply lookup_lt_Some in Hitem.
destruct (bool_decide (item = ESCAPE)).
2:{ destruct (String.eqb (typeof item) "string"); [done|].
    unfold bind, gets. simpl.
    destruct (isBuffer (rd_heap s) item); [done|].
    by destruct (String.eqb (typeof item) "function"). }
apply bind_total; [apply read_not_OutOfFuel|].
intros nextItem s2 [Hnext ->]%read_Return. simpl in *.
destruct (bool_decide (nextItem = ESCAPE_ESCAPE_VALUE)); [done|].
destruct nextItem; try done;
  (apply bind_total; [apply read_not_OutOfFuel|];
   intros exportName_ s3 [Hexp ->]%read_Return;
   apply bind_total; [apply lift_sum_total|];
   intros serializer_ s4 [_ ->]%lift_sum_Return;
   apply bind_total; [|intros ???; by apply bind_total];
   apply (run_total _ (λ t, (length data - rd_currentDataPos t < fuel)%nat));
     [done| |done|by apply IH|done|simpl in *; lia];
   intros t w t' Ht Hd%decodeValue_cursor_mono; lia).
Qed.

Lemma decode_all_total (n fuel : nat) (result : list value) (s : rstate) :
(length data - rd_currentDataPos s ≤ n)%nat →
(length data < fuel)%nat →
decode_all reg data n fuel result s ≠ OutOfFuel.
Proof.
revert result s. induction n as [|n IH]; intros result s Hn Hfuel; simpl.
- rewrite bool_decide_eq_false_2; [done|lia].
- case_bool_decide; [|done].
  apply bind_total; [apply decodeValue_total; lia|].
  intros v t Hv%decodeValue_cursor_lt. apply IH; lia.
Qed.

Lemma decode_all_mono (n n' fuel fuel' : nat) (result : list value) (s : rstate) :
(n ≤ n')%nat → (fuel ≤ fuel')%nat →
decode_all reg data n fuel result s ≠ OutOfFuel →
decode_all reg data n' fuel' result s = decode_all reg data n fuel result s.
Proof.
revert n' result s. induction n as [|n IH]; intros n' result s Hn Hfuel; simpl.
- destruct n'; simpl; by case_bool_decide.
- destruct n' as [|n']; [lia|]. simpl.
  case_bool_decide; [|done].
  unfold bind. intros Hne.
  rewrite (decodeValue_fuel_mono fuel fuel') by (done || by destruct (decodeValue _ _ fuel s)).
  destruct (decodeValue reg data fuel s); try done.
  apply IH; [lia|done|done].
Qed.

(** Whatever bounds a run of the loop was given, [deserialize] ends the
  same way. *)
Lemma deserialize_decode_all (n fuel : nat) (context : value) (h : heap) :
decode_all reg data n fuel [] (rstate_init h) ≠ OutOfFuel →
deserialize reg data context h =
match decode_all reg data n fuel [] (rstate_init h) with
| Return vs s => Return vs (rd_heap s)
| Throw e s => Throw e (rd_heap s)
| OutOfFuel => OutOfFuel
end.
Proof.
intros Hne. unfold deserialize.
set (N := length data).
rewrite <- (decode_all_mono N (max N n) (Datatypes.S N) (max (Datatypes.S N) fuel))
  by (try lia; apply decode_all_total; simpl; lia).
by rewrite (decode_all_mono n (max N n) fuel (max (Datatypes.S N) fuel))
  by (try lia; done).
Qed.

Lemma deserialize_total (context : value) (h : heap) :
deserialize reg data context h ≠ OutOfFuel.
Proof.
unfold deserialize.
pose proof (decode_all_total (length data) (Datatypes.S (length data)) []
              (rstate_init h)) as Ht.
destruct (decode_all _ _ _ _ _ _); try done.
exfalso. apply Ht; simpl; [lia|lia|done].
Qed.
End decode_fuel.

(** ** [deserialize] follows [serialize] *)

Section simulation.
Import ObjectMiddleware.
Context {E : Env} (reg : registry).

Lemma prefix_lookup (l items data : list value) (i : nat) (x : value) :
l ++ items `prefix_of` data →
items !! i = Some x →
data !! (length l + i)%nat = Some x.
Proof.
intros [k ->] Hi.
rewrite <- app_assoc, lookup_app_r by lia.
replace (length l + i - length l)%nat with i by lia.
by apply lookup_app_l_Some.
Qed.

Lemma read_advance (data : list value) (s : rstate) (x : value) :
data !! rd_currentDataPos s = Some x →
read data s = Return x (advance 1 s).
Proof. intros Hx. unfold read. by rewrite Hx. Qed.

Lemma table_map_mono sw sr sw' sr' a a' :
wr_referenceable sw ⊆ wr_referenceable sw' →
rd_referenceable sr ⊆ rd_referenceable sr' →
table_map sw sr a = Some a' → table_map sw' sr' a = Some a'.
Proof.
intros Hw Hr. unfold table_map.
destruct (wr_referenceable sw !! VRef a) as [p|] eqn:Hp; [|done].
rewrite (lookup_weaken _ _ _ _ Hp Hw).
destruct (rd_referenceable sr !! p) as [v|] eqn:Hv; [|done].
by rewrite (lookup_weaken _ _ _ _ Hv Hr).
Qed.

Lemma related_mono sw sr sw' sr' v v' :
wr_referenceable sw ⊆ wr_referenceable sw' →
rd_referenceable sr ⊆ rd_referenceable sr' →
related (table_map sw sr) v v' → related (table_map sw' sr') v v'.
Proof.
intros Hw Hr. destruct v; try done.
intros (a' & Ha' & ->). exists a'. split; [|done].
by eapply table_map_mono.
Qed.

Lemma fields_related_mono sw sr sw' sr' (P P' : gmap string value) :
wr_referenceable sw ⊆ wr_referenceable sw' →
rd_referenceable sr ⊆ rd_referenceable sr' →
(∀ q, option_Forall2 (related (table_map sw sr)) (P !! q) (P' !! q)) →
∀ q, option_Forall2 (related (table_map sw' sr')) (P !! q) (P' !! q).
Proof.
intros Hw Hr HP q. destruct (HP q); constructor.
by eapply related_mono.
Qed.

(** The invariant does not depend on [result] and the cursor, as long as
  they move together. *)
Lemma sim_inv_pushed hw sw sr items :
sim_inv hw sw sr →
sim_inv hw (pushed items sw) (advance (length items) sr).
Proof.
intros (Hh & Hd & Hp & Hpos & Ht & Hr).
split; [done|]. split; [simpl; rewrite length_app; lia|].
done.
Qed.

Lemma grows_refl rank bound sw sr : grows rank bound sw sr sw sr.
Proof.
split; [done|]. split; [done|]. split; [done|]. split.
- intros k Hk [? Hk']. congruence.
- intros p a' Hp Hp'. congruence.
Qed.

Lemma grows_trans rank b1 b2 b sw sr sw1 sr1 sw2 sr2 :
(b1 ≤ b)%nat → (b2 ≤ b)%nat →
grows rank b1 sw sr sw1 sr1 →
grows rank b2 sw1 sr1 sw2 sr2 →
grows rank b sw sr sw2 sr2.
Proof.
intros Hb1 Hb2 (Hw1 & Hr1 & Hh1 & Hk1 & Hf1) (Hw2 & Hr2 & Hh2 & Hk2 & Hf2).
split; [by etrans|]. split; [by etrans|]. split; [by etrans|]. split.
- intros k Hk Hk'.
  destruct (wr_referenceable sw1 !! k) as [p|] eqn:Hk1'.
  + etrans; [apply Hk1; eauto|done].
  + etrans; [apply Hk2; eauto|done].
- intros p a' Hp Hp'.
  destruct (rd_referenceable sr1 !! p) as [w|] eqn:Hp1.
  + pose proof (lookup_weaken _ _ _ _ Hp1 Hr2) as Hw. simplify_eq.
    by eapply Hf1.
  + specialize (Hf2 _ _ Hp1 Hp').
    destruct (rd_heap sr !! a') as [c|] eqn:Hc; [|done].
    pose proof (lookup_weaken _ _ _ _ Hc Hh1). congruence.
Qed.

(** It is kept when the tables and the read heap grow. *)
Lemma sim_inv_entry_mono (hw : heap) sw sr sw' sr' (k : value) (p : Z) :
wr_referenceable sw ⊆ wr_referenceable sw' →
rd_referenceable sr ⊆ rd_referenceable sr' →
(∀ a' c, (∃ q, rd_referenceable sr !! q = Some (VRef a')) →
         rd_heap sr !! a' = Some c → rd_heap sr' !! a' = Some c) →
match k with
| VStr s => rd_referenceable sr !! p = Some (VStr s)
| VRef a =>
    ∃ a' C P P',
      rd_referenceable sr !! p = Some (VRef a') ∧
      hw !! a = Some (Instance_ C P) ∧
      rd_heap sr !! a' = Some (Instance_ C P') ∧
      ∀ q, option_Forall2 (related (table_map sw sr)) (P !! q) (P' !! q)
| _ => False
end →
match k with
| VStr s => rd_referenceable sr' !! p = Some (VStr s)
| VRef a =>
    ∃ a' C P P',
      rd_referenceable sr' !! p = Some (VRef a') ∧
      hw !! a = Some (Instance_ C P) ∧
      rd_heap sr' !! a' = Some (Instance_ C P') ∧
      ∀ q, option_Forall2 (related (table_map sw' sr')) (P !! q) (P' !! q)
| _ => False
end.
Proof.
intros Hw Hr Hheap. destruct k; try done.
- intros Hs. by eapply lookup_weaken.
- intros (a' & C & P & P' & Hp & Ha & Ha' & HP).
  exists a', C, P, P'. split; [by eapply lookup_weaken|].
  split; [done|]. split; [apply Hheap; eauto|].
  by eapply fields_related_mono.
Qed.

Lemma sim_inv_set_unregistered hw sw sr a' c :
sim_inv hw sw sr →
(∀ p, rd_referenceable sr !! p ≠ Some (VRef a')) →
sim_inv hw sw (set_heap (<[a' := c]> (rd_heap sr)) sr).
Proof.
intros (Hh & Hd & Hp & Hpos & Ht & Hr) Hun.
split; [done|]. split; [done|]. split; [done|]. split; [done|]. split.
- intros k p Hk. destruct (Ht k p Hk) as [Hlt Hent]. split; [done|].
  eapply (sim_inv_entry_mono hw sw sr sw); [done|done| |done].
  intros a'' c' [q Hq] Hc'. simpl.
  rewrite lookup_insert_ne; [done|]. intros ->. by eapply Hun.
- intros p v' Hp'. destruct (Hr p v' Hp') as [Hlt Hin]. split; [done|].
  intros a'' ->. simpl. rewrite lookup_insert.
  case_decide; [done|]. by apply Hin.
Qed.
End simulation.

Section simulation_register.
Import ObjectMiddleware.

Lemma sim_inv_old_entries (hw : heap) sw sr (item item' : value) :
sim_inv hw sw sr →
wr_referenceable sw !! item = None →
wr_referenceable sw ⊆ wr_referenceable (registered item sw) ∧
rd_referenceable sr ⊆ rd_referenceable (registered' item' sr).
Proof.
intros (Hh & Hd & Hp & Hpos & Ht & Hr) Hnone. split; simpl.
- by apply insert_subseteq.
- apply insert_subseteq.
  destruct (rd_referenceable sr !! rd_currentPos sr) as [w|] eqn:Hw; [|done].
  destruct (Hr _ _ Hw). lia.
Qed.

Lemma sim_inv_registered (hw : heap) sw sr (item item' : value) :
sim_inv hw sw sr →
wr_referenceable sw !! item = None →
(∀ a', item' = VRef a' → is_Some (rd_heap sr !! a')) →
match item with
| VStr s => item' = VStr s
| VRef a =>
    ∃ a' C P P',
      item' = VRef a' ∧
      hw !! a = Some (Instance_ C P) ∧
      rd_heap sr !! a' = Some (Instance_ C P') ∧
      ∀ q, option_Forall2
             (related (table_map (registered item sw) (registered' item' sr)))
             (P !! q) (P' !! q)
| _ => False
end →
sim_inv hw (registered item sw) (registered' item' sr).
Proof.
intros Hinv Hnone Hheap Hitem.
destruct (sim_inv_old_entries hw sw sr item item' Hinv Hnone) as [Hw Hr'].
destruct Hinv as (Hh & Hd & Hp & Hpos & Ht & Hr).
split; [done|]. split; [done|]. split; [simpl; lia|]. split; [simpl; lia|].
split.
- intros k p. simpl. rewrite lookup_insert. case_decide as Hk.
  + intros [= <-]. subst k. split; [lia|].
    destruct item; try done.
    * rewrite Hp, lookup_insert_eq. by f_equal.
    * destruct Hitem as (a' & C & P & P' & -> & ? & ? & ?).
      exists a', C, P, P'. by rewrite Hp, lookup_insert_eq.
  + intros Hkp. destruct (Ht _ _ Hkp) as [Hlt Hent]. split; [lia|].
    by eapply (sim_inv_entry_mono hw sw sr (registered item sw)
                 (registered' item' sr)); [done|done|by intros|done].
- intros p v'. simpl. rewrite lookup_insert. case_decide as Hpp.
  + intros [= <-]. split; [lia|done].
  + intros Hpv. destruct (Hr _ _ Hpv) as [Hlt Hin]. split; [lia|done].
Qed.
End simulation_register.

Section simulation_fields.
Import ObjectMiddleware.
Context {E : Env} (reg : registry) (rank : addr → nat) (hw : heap)
      (data : list value).
Variable proc : value → M wstate unit.
Variable dec : M rstate value.
Hypothesis Hsim : simulates rank hw data proc dec.
Hypothesis Hprefix : ∀ v s s',
proc v s = Return tt s' → wr_result s `prefix_of` wr_result s'.

Lemma run_result_prefix {A} (c : code A) (s : wstate) (a : A) (s' : wstate) :
run (throw (TypeError "read is not a function")) proc c s = Return a s' →
wr_result s `prefix_of` wr_result s'.
Proof.
apply (run_preserves (λ s s', wr_result s `prefix_of` wr_result s')); try done.
intros s1 s2 s3 ??. by etrans.
Qed.

(** The two loops over the field list, side by side: [a] is the object
  being written, [a'] the instance being populated, which is not yet
  in the read-side table. *)
Lemma fields_simulate (ps : list string) (a a' : addr) (C : Constructor)
  (P Q : gmap string value) (sw sw_end : wstate) (sr : rstate) :
hw !! a = Some (Instance_ C P) →
(∀ p, p ∈ ps → is_Some (P !! p)) →
(∀ p v, P !! p = Some v → value_ok hw v ∧ (key_rank rank v ≤ rank a)%nat) →
sim_inv hw sw sr →
rd_heap sr !! a' = Some (Instance_ C Q) →
(∀ p, rd_referenceable sr !! p ≠ Some (VRef a')) →
run (throw (TypeError "read is not a function")) proc
    (for_of ps (λ prop, code_bind (get_prop (VRef a) prop) write_)) sw =
  Return tt sw_end →
wr_result sw_end `prefix_of` data →
∃ sr_end Q',
  run dec (λ _, throw (TypeError "write is not a function"))
      (for_of ps (λ prop, code_bind read_ (set_prop (VRef a') prop))) sr =
    Return tt sr_end ∧
  sim_inv hw sw_end sr_end ∧
  rd_heap sr_end !! a' = Some (Instance_ C Q') ∧
  (∀ p, rd_referenceable sr_end !! p ≠ Some (VRef a')) ∧
  (∀ q, q ∈ ps →
     option_Forall2 (related (table_map sw_end sr_end)) (P !! q) (Q' !! q)) ∧
  (∀ q, q ∉ ps → Q' !! q = Q !! q) ∧
  wr_referenceable sw ⊆ wr_referenceable sw_end ∧
  rd_referenceable sr ⊆ rd_referenceable sr_end ∧
  (∀ b c, b ≠ a' → rd_heap sr !! b = Some c → rd_heap sr_end !! b = Some c) ∧
  (∀ k, wr_referenceable sw !! k = None →
        is_Some (wr_referenceable sw_end !! k) →
        (key_rank rank k ≤ rank a)%nat) ∧
  (∀ p b', rd_referenceable sr !! p = None →
           rd_referenceable sr_end !! p = Some (VRef b') →
           rd_heap sr !! b' = None).
Proof.
intros Ha Hps Hfields. revert Hps Q sw sr.
induction ps as [|p ps IH]; intros Hps Q sw sr Hinv Ha' Hun Hrun Hdata.
{ simpl in Hrun. injection Hrun as <-.
  exists sr, Q. simpl. unfold ret.
  split; [done|]. split; [done|]. split; [done|]. split; [done|].
  split; [by intros q ?%elem_of_nil|].
  split; [done|]. split; [done|]. split; [done|]. split; [done|].
  split; [intros k Hk [? ?]; congruence|].
  intros q b' Hq Hq'. congruence. }
(* the write side: [write(obj[p])], then the rest of the loop *)
rewrite run_for_of_cons in Hrun. unfold bind at 1 in Hrun.
rewrite run_bind in Hrun. unfold bind at 1 in Hrun.
destruct Hinv as (Hh & Hinv').
assert (sim_inv hw sw sr) as Hinv by (by split).
destruct (Hps p) as [v Hv]; [apply elem_of_cons; by left|].
cbn [run get_prop] in Hrun. unfold bind at 1 in Hrun.
unfold js_get in Hrun. simpl in Hrun. rewrite Hh, Ha, Hv in Hrun.
unfold ret in Hrun. simpl in Hrun. unfold bind at 1 in Hrun.
destruct (proc v sw) as [[] sw1| |] eqn:Hproc; try done.
unfold ret in Hrun.
destruct (Hfields p v Hv) as [Hvok Hvrank].
pose proof (run_result_prefix _ _ _ _ Hrun) as Hpre.
destruct (Hsim v sw sw1 sr Hvok Hinv Hproc) as
  (v' & sr1 & Hdec & Hinv1 & Hrel & Hw & Hr & Hheap & Hkeys & Hfresh);
  [by etrans|].
(* the read side: [obj[p] = read()] *)
pose proof (lookup_weaken _ _ _ _ Ha' Hheap) as Ha1.
set (sr1' := set_heap (<[a' := Instance_ C (<[p := v']> Q)]> (rd_heap sr1)) sr1).
assert (∀ q, rd_referenceable sr1 !! q ≠ Some (VRef a')) as Hun1.
{ intros q Hq. destruct (rd_referenceable sr !! q) as [w|] eqn:Hq0.
  - pose proof (lookup_weaken _ _ _ _ Hq0 Hr). simplify_eq. by eapply Hun.
  - specialize (Hfresh _ _ Hq0 Hq). congruence. }
assert (∀ q, q ∈ ps → is_Some (P !! q)) as Hps'.
{ intros q Hq. apply Hps. apply elem_of_cons. by right. }
destruct (IH Hps' (<[p := v']> Q) sw1 sr1') as
  (sr_end & Q' & Hloop & Hinv_end & Ha_end & Hun_end & Hrel_end & Hother
   & Hw_end & Hr_end & Hheap_end & Hkeys_end & Hfresh_end).
{ by apply sim_inv_set_unregistered. }
{ simpl. by rewrite lookup_insert_eq. }
{ done. }
{ done. }
{ done. }
exists sr_end, Q'.
split.
{ rewrite run_for_of_cons. unfold bind at 1.
  rewrite run_bind. unfold bind at 1.
  cbn [run read_]. unfold bind at 1. rewrite Hdec. unfold ret.
  cbn [run set_prop]. unfold bind at 1. unfold js_set. simpl.
  rewrite Ha1. unfold ret. exact Hloop. }
split; [done|]. split; [done|]. split; [done|].
split.
{ intros q [->|Hq]%elem_of_cons.
  - destruct (decide (p ∈ ps)) as [Hin|Hnin]; [by apply Hrel_end|].
    rewrite Hv, (Hother p Hnin), lookup_insert_eq. constructor.
    eapply related_mono; [exact Hw_end|exact Hr_end|done].
  - by apply Hrel_end. }
split.
{ intros q Hq. apply not_elem_of_cons in Hq as [Hne Hq].
  rewrite (Hother q Hq). by rewrite lookup_insert_ne. }
split; [by etrans|]. split; [by etrans|].
split.
{ intros b c Hb Hc. apply Hheap_end; [done|]. simpl.
  rewrite lookup_insert_ne by done. by eapply lookup_weaken. }
split.
{ intros k Hk Hk'.
  destruct (wr_referenceable sw1 !! k) as [q|] eqn:Hk1.
  - etrans; [apply Hkeys; eauto|done].
  - by apply Hkeys_end. }
intros q b' Hq Hq'.
destruct (rd_referenceable sr1 !! q) as [w|] eqn:Hq1.
- pose proof (lookup_weaken _ _ _ _ Hq1 Hr_end). simplify_eq.
  by eapply Hfresh.
- specialize (Hfresh_end _ _ Hq1 Hq'). simpl in Hfresh_end.
  destruct (rd_heap sr !! b') as [c|] eqn:Hc; [|done].
  pose proof (lookup_weaken _ _ _ _ Hc Hheap) as Hc1.
  rewrite lookup_insert in Hfresh_end. case_decide; [done|congruence].
Qed.
End simulation_fields.

Section more_steps.
Import ObjectMiddleware.
Context {E : Env} (reg : registry).

Lemma process_plain rec (item : value) (s : wstate) :
plain item →
wr_referenceable s !! item = None →
process_body reg rec item s = Return tt (pushed [item] s).
Proof.
intros Hplain Hnone. unfold process_body, bind, gets. rewrite Hnone.
by destruct item.
Qed.

Lemma process_object rec (a : addr) (cfg : config) (s : wstate) :
wr_referenceable s !! VRef a = None →
getSerializerFor reg (wr_heap s) (VRef a) = inr cfg →
process_body reg rec (VRef a) s =
(run (throw (TypeError "read is not a function")) rec
     (ObjectSerializer.serialize (serializer cfg) (VRef a)) ;;
 addReferenceable (VRef a))
  (pushed [ESCAPE; request cfg; exportName cfg] s).
Proof.
intros Hnone Hcfg. unfold process_body. unfold bind at 1. unfold gets at 1.
rewrite Hnone. simpl in Hcfg |- *. unfold bind at 1. unfold gets at 1.
unfold bind at 1. rewrite Hcfg. simpl. unfold ret.
unfold bind at 1. done.
Qed.

Lemma resolve_inr_request (req exp : value) (cap : ObjectSerializer) :
resolve reg req exp = inr cap → req = VNull ∨ ∃ r, req = VStr r.
Proof.
unfold resolve. case_bool_decide as Hg; [by left|].
destruct req; try done. right. eauto.
Qed.

Variable data : list value.

Lemma decodeValue_plain rec (item : value) (s : rstate) :
plain item →
data !! rd_currentDataPos s = Some item →
decodeValue_body reg data rec s = Return item (advance 1 s).
Proof.
intros Hplain H0. unfold decodeValue_body, bind, read. rewrite H0.
by destruct item.
Qed.

Lemma decodeValue_object rec (req exp : value) (cap : ObjectSerializer)
  (s : rstate) :
data !! rd_currentDataPos s = Some ESCAPE →
data !! Datatypes.S (rd_currentDataPos s) = Some req →
data !! Datatypes.S (Datatypes.S (rd_currentDataPos s)) = Some exp →
resolve reg req exp = inr cap →
decodeValue_body reg data rec s =
(let* item := run rec (λ _, throw (TypeError "write is not a function"))
                  (ObjectSerializer.deserialize cap) in
 addReferenceable' item ;; ret item) (advance 3 s).
Proof.
intros H0 H1 H2 Hcap. unfold decodeValue_body.
unfold bind at 1. unfold read at 1. rewrite H0. simpl.
unfold bind at 1. unfold read at 1. simpl. rewrite H1.
destruct (resolve_inr_request _ _ _ Hcap) as [->|[r ->]]; simpl;
  unfold bind at 1; unfold read at 1; simpl; rewrite H2;
  unfold bind at 1; rewrite Hcap; done.
Qed.
End more_steps.

Section simulation_cases.
Import ObjectMiddleware.
Context {E : Env} (reg : registry) (rank : addr → nat) (hw : heap)
      (data : list value).

Lemma grows_same bound sw sr sw' sr' :
wr_referenceable sw' = wr_referenceable sw →
rd_referenceable sr' = rd_referenceable sr →
rd_heap sr' = rd_heap sr →
grows rank bound sw sr sw' sr'.
Proof.
intros Hw Hr Hh. unfold grows. rewrite Hw, Hr, Hh.
apply (grows_refl rank bound sw sr).
Qed.

Lemma data_at_cursor sw sr items (i : nat) (x : value) :
sim_inv hw sw sr →
wr_result (pushed items sw) `prefix_of` data →
items !! i = Some x →
data !! (i + rd_currentDataPos sr)%nat = Some x.
Proof.
intros (_ & Hd & _) Hpre Hi. rewrite Hd, Nat.add_comm.
by apply (prefix_lookup (wr_result sw) items).
Qed.

(** A value already in the table: a back-reference, resolved at the same
  position of the read-side table. *)
Lemma sim_reference rec (v : value) (ref : Z) sw sr :
sim_inv hw sw sr →
wr_referenceable sw !! v = Some ref →
wr_result (pushed [ESCAPE; VNum (ref - wr_currentPos sw)] sw) `prefix_of` data →
∃ v',
  decodeValue_body reg data rec sr = Return v' (advance 2 sr) ∧
  sim_inv hw (pushed [ESCAPE; VNum (ref - wr_currentPos sw)] sw) (advance 2 sr) ∧
  related (table_map (pushed [ESCAPE; VNum (ref - wr_currentPos sw)] sw)
                     (advance 2 sr)) v v'.
Proof.
intros Hinv Href Hpre.
pose proof (data_at_cursor _ _ _ 0 _ Hinv Hpre eq_refl) as H0.
pose proof (data_at_cursor _ _ _ 1 _ Hinv Hpre eq_refl) as H1.
pose proof (sim_inv_pushed hw sw sr
              [ESCAPE; VNum (ref - wr_currentPos sw)] Hinv) as Hinv'.
destruct Hinv as (Hh & Hd & Hp & Hpos & Ht & Hr).
destruct (Ht v ref Href) as [Hlt Hent].
rewrite (decodeValue_reference reg data rec (ref - wr_currentPos sw)) by (done || lia).
replace (rd_currentPos sr + (ref - wr_currentPos sw)) with ref by lia.
destruct v; try done.
- rewrite Hent. simpl. by eexists.
- destruct Hent as (a' & C & P & P' & Hra & _). rewrite Hra. simpl.
  eexists. split; [done|]. split; [done|].
  exists a'. split; [|done]. unfold table_map. simpl. by rewrite Href, Hra.
Qed.

(** A string met for the first time. *)
Lemma sim_string (str : string) sw sr :
sim_inv hw sw sr →
wr_referenceable sw !! VStr str = None →
sim_inv hw (pushed [VStr str] (registered (VStr str) sw))
           (advance 1 (registered' (VStr str) sr)) ∧
grows rank 0 sw sr (pushed [VStr str] (registered (VStr str) sw))
                   (advance 1 (registered' (VStr str) sr)).
Proof.
intros Hinv Hnone. split.
- apply (sim_inv_pushed hw _ _ [VStr str]).
  by apply sim_inv_registered.
- destruct (sim_inv_old_entries hw sw sr (VStr str) (VStr str) Hinv Hnone)
    as [Hw Hr].
  split; [done|]. split; [done|]. split; [done|]. split.
  + intros k Hk. simpl. rewrite lookup_insert. case_decide as Hkk.
    * subst k. done.
    * rewrite Hk. by intros [? ?].
  + intros p a' Hp. simpl. rewrite lookup_insert. case_decide; [done|].
    congruence.
Qed.
End simulation_cases.

Section simulation_object.
Import ObjectMiddleware.
Context {E : Env} (reg : registry) (rank : addr → nat) (hw : heap)
      (data : list value).
Hypothesis Hgraph : graph_ok reg rank hw.
Variable proc : value → M wstate unit.
Variable dec : M rstate value.
Hypothesis Hsim : simulates rank hw data proc dec.
Hypothesis Hprefix : ∀ v s s',
proc v s = Return tt s' → wr_result s `prefix_of` wr_result s'.

(** An object met for the first time: header, fields, registration. *)
Lemma sim_object (a : addr) sw sw' sr :
is_Some (hw !! a) →
sim_inv hw sw sr →
wr_referenceable sw !! VRef a = None →
process_body reg proc (VRef a) sw = Return tt sw' →
wr_result sw' `prefix_of` data →
∃ v' sr',
  decodeValue_body reg data dec sr = Return v' sr' ∧
  sim_inv hw sw' sr' ∧
  related (table_map sw' sr') (VRef a) v' ∧
  grows rank (Datatypes.S (rank a)) sw sr sw' sr'.
Proof.
intros [c Hc] Hinv Hnone Hproc Hdata.
destruct (Hgraph a c Hc) as
  (C & P & props & req & exp & -> & Hser & Hres & Hinst & Hprops & Hfields).
set (cap := PropertiesSerializer C props None) in *.
set (cfg := Build_config req exp cap) in *.
assert (wr_heap sw = hw) as Hh by apply Hinv.
assert (getSerializerFor reg (wr_heap sw) (VRef a) = inr cfg) as Hcfg.
{ unfold getSerializerFor. rewrite Hh, Hc. simpl. by rewrite Hser. }
rewrite (process_object reg proc a cfg) in Hproc by done.
set (sw0 := pushed [ESCAPE; request cfg; exportName cfg] sw) in *.
unfold bind at 1 in Hproc.
destruct (run _ proc _ sw0) as [[] sw_end| |] eqn:Hrun; try done.
injection Hproc as <-.
pose proof (run_result_prefix proc Hprefix _ _ _ _ Hrun) as Hpre0.
assert (wr_result sw0 `prefix_of` data) as Hdata0 by (by etrans).
pose proof (data_at_cursor hw data _ _ _ 0 _ Hinv Hdata0 eq_refl) as H0.
pose proof (data_at_cursor hw data _ _ _ 1 _ Hinv Hdata0 eq_refl) as H1.
pose proof (data_at_cursor hw data _ _ _ 2 _ Hinv Hdata0 eq_refl) as H2.
rewrite (decodeValue_object reg data dec req exp cap) by done.
(* [new C()] *)
set (sr3 := advance 3 sr).
set (a' := fresh (dom (rd_heap sr3))).
assert (rd_heap sr !! a' = None) as Hfresh.
{ apply not_elem_of_dom. apply is_fresh. }
set (sr4 := set_heap (<[a' := Instance_ C (instantiate C)]> (rd_heap sr3)) sr3).
assert (sim_inv hw sw0 sr3) as Hinv3.
{ apply (sim_inv_pushed hw sw sr [ESCAPE; req; exp] Hinv). }
assert (∀ p, rd_referenceable sr3 !! p ≠ Some (VRef a')) as Hun3.
{ intros p Hp. destruct Hinv3 as (_ & _ & _ & _ & _ & Hr).
  destruct (Hr _ _ Hp) as [_ Hin].
  destruct (Hin a' eq_refl) as [? Hin']. simpl in Hin'. congruence. }
assert (sim_inv hw sw0 sr4) as Hinv4 by (by apply sim_inv_set_unregistered).
(* the fields *)
destruct (fields_simulate rank hw data proc dec Hsim Hprefix
            props a a' C P (instantiate C) sw0 sw_end sr4) as
  (sr_end & Q' & Hloop & Hinv_end & Ha_end & Hun_end & Hrel_end & Hother
   & Hw_end & Hr_end & Hheap_end & Hkeys_end & Hfresh_end).
{ done. }
{ intros p Hp. by apply Hprops. }
{ done. }
{ done. }
{ simpl. by rewrite lookup_insert_eq. }
{ done. }
{ done. }
{ done. }
assert (wr_referenceable sw_end !! VRef a = None) as Hnone_end.
{ destruct (wr_referenceable sw_end !! VRef a) as [p|] eqn:Hp; [|done].
  assert (Datatypes.S (rank a) ≤ rank a)%nat; [|lia].
  apply (Hkeys_end (VRef a)); [done|eauto]. }
assert (∀ q, option_Forall2
               (related (table_map (registered (VRef a) sw_end)
                                   (registered' (VRef a') sr_end)))
               (P !! q) (Q' !! q)) as Hrel.
{ destruct (sim_inv_old_entries hw sw_end sr_end (VRef a) (VRef a')
              Hinv_end Hnone_end) as [Hw Hr].
  intros q. destruct (decide (q ∈ props)) as [Hq|Hq].
  - destruct (Hrel_end q Hq); constructor.
    by eapply related_mono.
  - rewrite (Hother q Hq).
    destruct (instantiate C !! q) eqn:HIq; [destruct Hq; apply Hinst; eauto|].
    destruct (P !! q) eqn:HPq; [|constructor].
    destruct Hq. apply Hprops. eauto. }
exists (VRef a'), (registered' (VRef a') sr_end).
split.
{ unfold bind at 1. unfold cap. rewrite properties_deserialize_unfold.
  rewrite run_bind. unfold bind at 1. cbn [run new_]. unfold bind at 1.
  unfold alloc. unfold ret.
  change (get_heap sr3) with (rd_heap sr3). fold a'. fold sr4.
  rewrite run_bind. unfold bind at 1. rewrite Hloop. done. }
split.
{ apply sim_inv_registered; [done|done| |].
  - intros ? [= <-]. eauto.
  - exists a', C, P, Q'. done. }
split.
{ exists a'. split; [|done]. unfold table_map. simpl.
  rewrite lookup_insert_eq.
  destruct Hinv_end as (_ & _ & -> & _). by rewrite lookup_insert_eq. }
destruct (sim_inv_old_entries hw sw_end sr_end (VRef a) (VRef a')
            Hinv_end Hnone_end) as [Hw Hr].
split; [by etrans|]. split; [by etrans|]. split.
{ apply map_subseteq_spec. intros b cb Hb. apply Hheap_end.
  - intros ->. congruence.
  - simpl. rewrite lookup_insert_ne; [done|]. intros <-. congruence. }
split.
{ intros k Hk. simpl. rewrite lookup_insert. case_decide as Hka.
  - subst k. done.
  - intros Hk'. etrans; [by apply Hkeys_end|lia]. }
intros p b' Hp. simpl. rewrite lookup_insert. case_decide as Hpp.
- by intros [= <-].
- intros Hp'. specialize (Hfresh_end p b' Hp Hp'). simpl in Hfresh_end.
  rewrite lookup_insert in Hfresh_end. by case_decide.
Qed.
End simulation_object.

Section simulation_process.
Import ObjectMiddleware.
Context {E : Env} (reg : registry) (rank : addr → nat) (hw : heap)
      (data : list value).
Hypothesis Hgraph : graph_ok reg rank hw.

Lemma sim_body (proc : value → M wstate unit) (dec : M rstate value) :
simulates rank hw data proc dec →
(∀ v s s', proc v s = Return tt s' → wr_result s `prefix_of` wr_result s') →
simulates rank hw data (process_body reg proc) (decodeValue_body reg data dec).
Proof.
intros Hsim Hprefix v sw sw' sr Hvok Hinv Hproc Hdata.
destruct (wr_referenceable sw !! v) as [ref|] eqn:Href.
{ assert (sw' = pushed [ESCAPE; VNum (ref - wr_currentPos sw)] sw) as ->.
  { rewrite (process_reference reg proc v ref) in Hproc by done. congruence. }
  destruct (sim_reference reg hw data dec v ref sw sr Hinv Href Hdata)
    as (v' & Hdec & Hinv' & Hrel).
  exists v', (advance 2 sr).
  split; [done|]. split; [done|]. split; [done|]. by apply grows_same. }
destruct v as [| |b|n|str|a|f ws].
- (* undefined *)
  assert (sw' = pushed [VUndefined] sw) as ->.
  { rewrite process_plain in Hproc by done. congruence. }
  pose proof (data_at_cursor hw data _ _ _ 0 _ Hinv Hdata eq_refl) as H0.
  exists VUndefined, (advance 1 sr).
  split; [by apply decodeValue_plain|].
  split; [apply (sim_inv_pushed hw sw sr [VUndefined] Hinv)|].
  split; [done|]. by apply grows_same.
- (* null: the escape sentinel as data *)
  assert (sw' = pushed [ESCAPE; ESCAPE_ESCAPE_VALUE] sw) as ->.
  { rewrite process_escape in Hproc by done. congruence. }
  pose proof (data_at_cursor hw data _ _ _ 0 _ Hinv Hdata eq_refl) as H0.
  pose proof (data_at_cursor hw data _ _ _ 1 _ Hinv Hdata eq_refl) as H1.
  exists VNull, (advance 2 sr).
  split; [by apply decodeValue_escape|].
  split; [apply (sim_inv_pushed hw sw sr [ESCAPE; ESCAPE_ESCAPE_VALUE] Hinv)|].
  split; [done|]. by apply grows_same.
- (* boolean *)
  assert (sw' = pushed [VBool b] sw) as ->.
  { rewrite process_plain in Hproc by done. congruence. }
  pose proof (data_at_cursor hw data _ _ _ 0 _ Hinv Hdata eq_refl) as H0.
  exists (VBool b), (advance 1 sr).
  split; [by apply decodeValue_plain|].
  split; [apply (sim_inv_pushed hw sw sr [VBool b] Hinv)|].
  split; [done|]. by apply grows_same.
- (* number *)
  assert (sw' = pushed [VNum n] sw) as ->.
  { rewrite process_plain in Hproc by done. congruence. }
  pose proof (data_at_cursor hw data _ _ _ 0 _ Hinv Hdata eq_refl) as H0.
  exists (VNum n), (advance 1 sr).
  split; [by apply decodeValue_plain|].
  split; [apply (sim_inv_pushed hw sw sr [VNum n] Hinv)|].
  split; [done|]. by apply grows_same.
- (* string *)
  assert (sw' = pushed [VStr str] (registered (VStr str) sw)) as ->.
  { rewrite process_string in Hproc by done. congruence. }
  assert (wr_result (pushed [VStr str] sw) `prefix_of` data) as Hdata' by done.
  pose proof (data_at_cursor hw data _ _ _ 0 _ Hinv Hdata' eq_refl) as H0.
  destruct (sim_string rank hw str sw sr Hinv Href) as [Hinv' Hgrows].
  exists (VStr str), (advance 1 (registered' (VStr str) sr)).
  split; [by rewrite (decodeValue_string reg data dec str)|].
  done.
- (* object *)
  by eapply sim_object.
- (* function *)
  done.
Qed.

(** [decodeValue] follows [process], for every bound. *)
Lemma sim_process (fuel : nat) :
simulates rank hw data (process reg fuel) (decodeValue reg data fuel).
Proof.
induction fuel as [|fuel IH]; [by intros v sw sw' sr _ _ ?|].
apply sim_body; [done|].
intros v s s'. apply process_result_prefix.
Qed.
End simulation_process.

(** ** [serialize] returns on an acyclic graph of registered records *)

Section termination.
Import ObjectMiddleware.
Context {E : Env} (reg : registry) (rank : addr → nat) (hw : heap).
Hypothesis Hgraph : graph_ok reg rank hw.

Lemma fields_terminate (proc : value → M wstate unit) (a : addr)
  (C : Constructor) (P : gmap string value) (ps : list string) (sw : wstate) :
(∀ v s, value_ok hw v → (key_rank rank v ≤ rank a)%nat → wr_heap s = hw →
        ∃ s', proc v s = Return tt s' ∧ wr_heap s' = hw) →
hw !! a = Some (Instance_ C P) →
(∀ p v, P !! p = Some v → value_ok hw v ∧ (key_rank rank v ≤ rank a)%nat) →
(∀ p, p ∈ ps → is_Some (P !! p)) →
wr_heap sw = hw →
∃ sw_end,
  run (throw (TypeError "read is not a function")) proc
      (for_of ps (λ prop, code_bind (get_prop (VRef a) prop) write_)) sw =
    Return tt sw_end ∧
  wr_heap sw_end = hw.
Proof.
intros Hproc Ha Hfields. revert sw.
induction ps as [|p ps IH]; intros sw Hps Hh.
{ exists sw. done. }
destruct (Hps p) as [v Hv]; [apply elem_of_cons; by left|].
destruct (Hfields p v Hv) as [Hvok Hvrank].
destruct (Hproc v sw Hvok Hvrank Hh) as (sw1 & Hp1 & Hh1).
destruct (IH sw1) as (sw_end & Hloop & Hh_end); [|done|].
{ intros q Hq. apply Hps. apply elem_of_cons. by right. }
exists sw_end. split; [|done].
rewrite run_for_of_cons. unfold bind at 1.
rewrite run_bind. unfold bind at 1.
cbn [run get_prop]. unfold bind at 1. unfold js_get. simpl.
rewrite Hh, Ha, Hv. unfold ret. simpl. unfold bind at 1.
by rewrite Hp1.
Qed.

Lemma process_terminates (fuel : nat) (v : value) (sw : wstate) :
value_ok hw v →
(key_rank rank v < fuel)%nat →
wr_heap sw = hw →
∃ sw', process reg fuel v sw = Return tt sw' ∧ wr_heap sw' = hw.
Proof.
revert v sw. induction fuel as [|fuel IH]; intros v sw Hvok Hrank Hh; [lia|].
simpl.
destruct (wr_referenceable sw !! v) as [ref|] eqn:Href.
{ rewrite (process_reference reg _ v ref) by done. by eexists. }
destruct v as [| |b|n|str|a|f ws].
- rewrite process_plain by done. by eexists.
- rewrite process_escape by done. by eexists.
- rewrite process_plain by done. by eexists.
- rewrite process_plain by done. by eexists.
- rewrite process_string by done. by eexists.
- destruct Hvok as [c Hc].
  destruct (Hgraph a c Hc) as
    (C & P & props & req & exp & -> & Hser & Hres & Hinst & Hprops & Hfields).
  rewrite (process_object reg _ a
             (Build_config req exp (PropertiesSerializer C props None)));
    [|done|].
  2:{ unfold getSerializerFor. rewrite Hh, Hc. simpl. by rewrite Hser. }
  destruct (fields_terminate (process reg fuel) a C P props
              (pushed [ESCAPE; req; exp] sw)) as (sw_end & Hloop & Hh_end).
  + intros w s Hw Hwr Hs. apply IH; [done| |done]. simpl in Hrank. lia.
  + done.
  + done.
  + intros p Hp. by apply Hprops.
  + done.
  + unfold bind at 1. cbn [serializer request exportName].
    rewrite properties_serialize_unfold, Hloop. by eexists.
- done.
Qed.
End termination.

(** ** Whole calls *)

Section whole_calls.
Import ObjectMiddleware.
Context {E : Env} (reg : registry) (rank : addr → nat) (hw : heap).
Hypothesis Hgraph : graph_ok reg rank hw.

Lemma process_all_result_prefix fuel items s s' :
process_all reg fuel items s = Return tt s' →
wr_result s `prefix_of` wr_result s'.
Proof.
revert s. induction items as [|item items IH]; intros s; simpl.
- by intros [= <-].
- unfold bind. destruct (process reg fuel item s) as [[] s1| |] eqn:Hp; try done.
  intros Hrest. etrans; [by eapply process_result_prefix|by apply IH].
Qed.

Lemma process_all_terminates fuel items sw :
Forall (λ v, value_ok hw v ∧ (key_rank rank v < fuel)%nat) items →
wr_heap sw = hw →
∃ sw', process_all reg fuel items sw = Return tt sw' ∧ wr_heap sw' = hw.
Proof.
intros Hitems. revert sw.
induction Hitems as [|item items [Hok Hrank] _ IH]; intros sw Hh.
- by exists sw.
- destruct (process_terminates reg rank hw Hgraph fuel item sw Hok Hrank Hh)
    as (sw1 & Hp & Hh1).
  destruct (IH sw1 Hh1) as (sw' & Hrest & Hh').
  exists sw'. split; [|done]. simpl. unfold bind. by rewrite Hp.
Qed.

Lemma sim_process_all (data : list value) fuel items sw sw' sr result n :
Forall (value_ok hw) items →
sim_inv hw sw sr →
process_all reg fuel items sw = Return tt sw' →
wr_result sw' = data →
(length items ≤ n)%nat →
∃ vs sr' bound,
  decode_all reg data n fuel result sr = Return (result ++ vs) sr' ∧
  sim_inv hw sw' sr' ∧
  Forall2 (related (table_map sw' sr')) items vs ∧
  grows rank bound sw sr sw' sr'.
Proof.
intros Hitems. revert sw sr result n.
induction Hitems as [|item items Hok _ IH]; intros sw sr result n Hinv Hp Hdata Hn.
- injection Hp as <-. exists [], sr, 0%nat.
  split.
  { destruct Hinv as (_ & Hd & _).
    destruct n; simpl; rewrite bool_decide_eq_false_2, ?app_nil_r; try done;
      rewrite Hd, Hdata; lia. }
  split; [done|]. split; [constructor|]. apply grows_refl.
- simpl in Hp. unfold bind in Hp.
  destruct (process reg fuel item sw) as [[] sw1| |] eqn:Hp1; try done.
  pose proof (process_all_result_prefix _ _ _ _ Hp) as Hpre.
  rewrite Hdata in Hpre.
  destruct (sim_process reg rank hw data Hgraph fuel item sw sw1 sr Hok Hinv Hp1 Hpre)
    as (v' & sr1 & Hdec & Hinv1 & Hrel & Hgrows).
  destruct n as [|n]; [simpl in Hn; lia|].
  destruct (IH sw1 sr1 (result ++ [v']) n Hinv1 Hp Hdata) as
    (vs & sr' & bound & Hloop & Hinv' & Hrels & Hgrows'); [simpl in Hn; lia|].
  exists (v' :: vs), sr', (max (key_rank rank item) bound).
  split.
  { simpl. rewrite bool_decide_eq_true_2.
    - unfold bind. rewrite Hdec, Hloop. by rewrite <- app_assoc.
    - pose proof (decodeValue_cursor_lt _ _ _ _ _ _ Hdec) as Hlt.
      destruct Hinv1 as (_ & Hd1 & _). apply prefix_length in Hpre. lia. }
  split; [done|]. split.
  { constructor; [|done].
    destruct Hgrows' as (Hw & Hr & _). by eapply related_mono. }
  eapply grows_trans; [| |exact Hgrows|exact Hgrows']; lia.
Qed.

(** What [serialize] returns for [items], [deserialize] reads back as a
  sequence of related values, in a heap that extends the one it
  started from with the reconstructed objects. *)
Lemma roundtrip_sequence fuel items context context' hr :
Forall (λ v, value_ok hw v ∧ (key_rank rank v < fuel)%nat) items →
∃ out vs hr' f,
  serialize reg fuel items context hw = Return out hw ∧
  deserialize reg out context' hr = Return vs hr' ∧
  Forall2 (related f) items vs ∧
  reconstructs f hw hr' ∧
  hr ⊆ hr' ∧
  (∀ a a', f a = Some a' → hr !! a' = None).
Proof.
intros Hitems.
destruct (process_all_terminates fuel items (wstate_init hw) Hitems eq_refl)
  as (sw' & Hp & Hh').
assert (sim_inv hw (wstate_init hw) (rstate_init hr)) as Hinit.
{ split; [done|]. split; [done|]. split; [done|]. split; [done|]. split.
  - intros k p. simpl. by rewrite lookup_empty.
  - intros p v'. simpl. by rewrite lookup_empty. }
destruct (sim_process_all (wr_result sw') fuel items (wstate_init hw) sw'
            (rstate_init hr) [] (length items)) as
  (vs & sr' & bound & Hdec & Hinv' & Hrels & Hgrows); try done.
{ eapply Forall_impl; [exact Hitems|]. by intros v [? ?]. }
exists (wr_result sw'), vs, (rd_heap sr'), (table_map sw' sr').
split; [unfold serialize; by rewrite Hp, Hh'|].
split.
{ rewrite (deserialize_decode_all reg (wr_result sw') (length items) fuel)
    by (by rewrite Hdec).
  by rewrite Hdec. }
split; [done|].
destruct Hgrows as (_ & _ & Hheap & _ & Hfresh).
destruct Hinv' as (_ & _ & _ & _ & Ht & _).
split; [|split; [done|]].
- intros a a' Hf. unfold table_map in Hf.
  destruct (wr_referenceable sw' !! VRef a) as [p|] eqn:Hp'; [|done].
  destruct (Ht _ _ Hp') as [_ (a'' & C & P & P' & Hr & Ha & Ha' & HP)].
  rewrite Hr in Hf. injection Hf as <-. by exists C, P, P'.
- intros a a' Hf. unfold table_map in Hf.
  destruct (wr_referenceable sw' !! VRef a) as [p|] eqn:Hp'; [|done].
  destruct (rd_referenceable sr' !! p) as [[| | | | |a''|]|] eqn:Hr; try done.
  injection Hf as ->. by eapply (Hfresh p).
Qed.
End whole_calls.

(** ** Round trip *)

Section examples.
Import ObjectMiddleware.
Existing Instance Example.env.

Lemma example_point_fields (vx vy : value) (p : string) :
p ∈ ["x"; "y"] ↔
is_Some ((<["x" := vx]> (<["y" := vy]> (∅ : gmap string value))) !! p).
Proof.
rewrite !lookup_insert_is_Some', lookup_empty, !elem_of_cons, elem_of_nil.
split; [|intros [->|[->|[? ?]]]; auto; done].
intros [->|[->|[]]]; auto.
Qed.

Lemma example_graph_ok :
graph_ok Example.registry Example.rank Example.heap_shared.
Proof.
intros a c. unfold Example.heap_shared, Example.heap1.
rewrite lookup_insert. case_decide as H1.
- intros [= <-]. subst a.
  eexists "Point", _, ["x"; "y"], (VStr "./Point"), VNull.
  split; [done|]. split; [done|]. split; [done|].
  split; [intros q [? Hq]; unfold instantiate, Example.env in Hq;
          by rewrite lookup_empty in Hq|].
  split; [apply example_point_fields|].
  intros p v. rewrite lookup_insert. case_decide.
  { intros [= <-]. split; [by eexists|]. unfold Example.rank. simpl. lia. }
  rewrite lookup_insert. case_decide; [|done].
  intros [= <-]. split; [by eexists|]. unfold Example.rank. simpl. lia.
- rewrite lookup_insert. case_decide as H0; [|done].
  intros [= <-]. subst a.
  eexists "Point", _, ["x"; "y"], (VStr "./Point"), VNull.
  split; [done|]. split; [done|]. split; [done|].
  split; [intros q [? Hq]; unfold instantiate, Example.env in Hq;
          by rewrite lookup_empty in Hq|].
  split; [apply example_point_fields|].
  intros p v. rewrite lookup_insert. case_decide.
  { intros [= <-]. split; [done|]. simpl. lia. }
  rewrite lookup_insert. case_decide; [|done].
  intros [= <-]. split; [done|]. simpl. lia.
Qed.

(** On the point that holds itself, [process] never returns. *)
Lemma process_cyclic (fuel : nat) (s : wstate) :
wr_heap s = Example.heap_cyclic →
wr_referenceable s !! VRef 0%nat = None →
process Example.registry fuel (VRef 0%nat) s = OutOfFuel.
Proof.
revert s. induction fuel as [|fuel IH]; intros s Hh Hnone; [done|].
simpl.
rewrite (process_object Example.registry _ 0%nat
           (Build_config (VStr "./Point") VNull Example.point_serializer));
  [|done|by rewrite Hh].
unfold bind at 1. cbn [serializer request exportName].
unfold Example.point_serializer. rewrite properties_serialize_unfold.
rewrite run_for_of_cons. unfold bind at 1.
rewrite run_bind. unfold bind at 1.
cbn [run get_prop]. unfold bind at 1. unfold js_get. simpl.
rewrite Hh. unfold Example.heap_cyclic at 1. rewrite lookup_insert_eq.
rewrite lookup_insert_eq. simpl. unfold ret. simpl.
unfold bind at 1. by rewrite IH.
Qed.
End examples.

(** C1, as the code has it: the claim promises the round trip for every
    graph of registered types.  A [Point] that holds itself is such a
    graph, and [serialize] does not return on it, whatever the bound; a
    [Point] with a field its capability does not list comes back without
    that field. *)
Lemma roundtrip_not_for_every_graph :
  (∀ fuel,
     ObjectMiddleware.serialize (E := Example.env) Example.registry fuel
       [VRef 0%nat] VUndefined Example.heap_cyclic = OutOfFuel) ∧
  (∃ out hr' P P',
     ObjectMiddleware.serialize (E := Example.env) Example.registry 2
       [VRef 0%nat] VUndefined Example.heap_extra = Return out Example.heap_extra ∧
     ObjectMiddleware.deserialize (E := Example.env) Example.registry out
       VUndefined Example.heap_extra = Return [VRef 1%nat] hr' ∧
     Example.heap_extra !! 0%nat = Some (Instance_ "Point" P) ∧
     hr' !! 1%nat = Some (Instance_ "Point" P') ∧
     P !! "z" = Some (VNum 3) ∧ P' !! "z" = None).
Proof.
  split.
  - intros fuel. unfold ObjectMiddleware.serialize. simpl.
    unfold bind. by rewrite process_cyclic.
  - eexists _, _, _, _.
    split; [by vm_compute|]. split; [by vm_compute|].
    split; [by vm_compute|]. split; [by vm_compute|].
    split; by vm_compute.
Qed.

(** C1, amended.  For an acyclic object graph whose objects are all
    instances of types registered with a field-list capability that lists
    exactly their fields (no hook, a constructor that creates listed
    fields only, a header that resolves back to the capability), [serialize]
    of [[g]] returns a stream and [deserialize] of that stream returns
    [[g']] with [g'] structurally equal to [g]: there is one reconstructed
    object for each object of the graph, of the same type and with the
    same fields holding corresponding values, so two references to one
    object come back as two references to one reconstructed object.  The
    reconstructed objects are new; the heap [deserialize] started from is
    otherwise unchanged. *)
Theorem roundtrip_registered_graph {E : Env}
    (reg : ObjectMiddleware.registry) (rank : addr → nat) (hw : heap)
    (g : value) (fuel : nat) (context context' : value) (hr : heap) :
  graph_ok reg rank hw →
  value_ok hw g →
  (key_rank rank g < fuel)%nat →
  ∃ out g' hr' f,
    ObjectMiddleware.serialize reg fuel [g] context hw = Return out hw ∧
    ObjectMiddleware.deserialize reg out context' hr = Return [g'] hr' ∧
    related f g g' ∧
    reconstructs f hw hr' ∧
    hr ⊆ hr' ∧
    (∀ a a', f a = Some a' → hr !! a' = None).
Proof.
  intros Hgraph Hok Hrank.
  destruct (roundtrip_sequence reg rank hw Hgraph fuel [g] context context' hr)
    as (out & vs & hr' & f & Hser & Hdes & Hrel & Hrec & Hsub & Hfresh).
  { by constructor. }
  apply Forall2_cons_inv_l in Hrel as (g' & vs' & Hg & ->%Forall2_nil_inv_l & ->).
  by exists out, g', hr', f.
Qed.

Lemma roundtrip_registered_graph_witness :
  ∃ out g' hr' f,
    ObjectMiddleware.serialize (E := Example.env) Example.registry 3
      [VRef 1%nat] VUndefined Example.heap_shared = Return out Example.heap_shared ∧
    ObjectMiddleware.deserialize (E := Example.env) Example.registry out
      VUndefined Example.heap_shared = Return [g'] hr' ∧
    related f (VRef 1%nat) g' ∧
    reconstructs f Example.heap_shared hr' ∧
    Example.heap_shared ⊆ hr' ∧
    (∀ a a', f a = Some a' → Example.heap_shared !! a' = None).
Proof.
  apply (roundtrip_registered_graph (E := Example.env) Example.registry
           Example.rank Example.heap_shared (VRef 1%nat) 3).
  - apply example_graph_ok.
  - eexists. vm_compute. reflexivity.
  - vm_compute. lia.
Defined.

(** ** The escape sentinel as data *)

Section escape.
Import ObjectMiddleware.
Context {E : Env} (reg : registry).

Lemma related_not_ref f (v v' : value) :
(∀ a, v ≠ VRef a) → related f v v' → v' = v.
Proof. intros Hv. destruct v; try done. by destruct (Hv a). Qed.

Lemma Forall2_related_lookup f (items vs : list value) (i : nat) (v : value) :
Forall2 (related f) items vs →
items !! i = Some v →
(∀ a, v ≠ VRef a) →
vs !! i = Some v.
Proof.
intros Hrel Hi Hv.
destruct (Forall2_lookup_l _ _ _ _ _ Hrel Hi) as (v' & Hv' & Hr).
by rewrite Hv', (related_not_ref f v v').
Qed.
End escape.

(** C5.  The escape sentinel met as data: [process] emits the pair
    [[ESCAPE, 1]] and touches neither the counter nor the table;
    [decodeValue], at such a pair, returns the sentinel, having consumed
    the two items, and touches neither the counter nor the table.  No
    control use reads as that pair: the request of an object header is
    never a number, and the offset of a back-reference is negative.  And a
    sequence over a graph of registered records that holds the sentinel at
    some index is decoded to a sequence that holds the sentinel at the
    same index. *)
Theorem escape_sentinel_as_data {E : Env}
    (reg : ObjectMiddleware.registry) (fuel : nat)
    (sw : ObjectMiddleware.wstate)
    (data : list value) (sr : ObjectMiddleware.rstate) :
  table_bounded sw →
  data !! ObjectMiddleware.rd_currentDataPos sr = Some ObjectMiddleware.ESCAPE →
  data !! S (ObjectMiddleware.rd_currentDataPos sr) =
    Some ObjectMiddleware.ESCAPE_ESCAPE_VALUE →
  (∃ sw',
     ObjectMiddleware.process reg (S fuel) ObjectMiddleware.ESCAPE sw =
       Return tt sw' ∧
     ObjectMiddleware.wr_result sw' =
       ObjectMiddleware.wr_result sw ++ [ObjectMiddleware.ESCAPE; VNum 1] ∧
     ObjectMiddleware.wr_currentPos sw' = ObjectMiddleware.wr_currentPos sw ∧
     ObjectMiddleware.wr_referenceable sw' = ObjectMiddleware.wr_referenceable sw) ∧
  (∃ sr',
     ObjectMiddleware.decodeValue reg data (S fuel) sr =
       Return ObjectMiddleware.ESCAPE sr' ∧
     ObjectMiddleware.rd_currentDataPos sr' =
       (2 + ObjectMiddleware.rd_currentDataPos sr)%nat ∧
     ObjectMiddleware.rd_currentPos sr' = ObjectMiddleware.rd_currentPos sr ∧
     ObjectMiddleware.rd_referenceable sr' = ObjectMiddleware.rd_referenceable sr) ∧
  (registry_typed reg →
   ∀ h item cfg,
     ObjectMiddleware.getSerializerFor reg h item = inr cfg →
     ∀ n, ObjectMiddleware.request cfg ≠ VNum n) ∧
  (∀ item ref,
     ObjectMiddleware.wr_referenceable sw !! item = Some ref →
     ObjectMiddleware.process reg (S fuel) item sw =
       Return tt (pushed [ObjectMiddleware.ESCAPE;
                          VNum (ref - ObjectMiddleware.wr_currentPos sw)] sw) ∧
     ref - ObjectMiddleware.wr_currentPos sw < 0) ∧
  (∀ rank hw items i context context' hr,
     graph_ok reg rank hw →
     Forall (λ v, value_ok hw v ∧ (key_rank rank v < S fuel)%nat) items →
     items !! i = Some ObjectMiddleware.ESCAPE →
     ∃ out vs hr',
       ObjectMiddleware.serialize reg (S fuel) items context hw = Return out hw ∧
       ObjectMiddleware.deserialize reg out context' hr = Return vs hr' ∧
       length vs = length items ∧
       vs !! i = Some ObjectMiddleware.ESCAPE).
Proof.
  intros Hbounded H0 H1.
  split; [|split; [|split; [|split]]].
  - eexists. split.
    + simpl. apply process_escape. by apply table_bounded_escape.
    + done.
  - eexists. split.
    + simpl. by apply decodeValue_escape.
    + done.
  - intros Htyped h item cfg Hcfg n Hn.
    unfold ObjectMiddleware.getSerializerFor in Hcfg.
    destruct item as [| | | | |a|]; try done.
    destruct (h !! a) as [cl|]; [|done].
    destruct (ObjectMiddleware.serializers reg !! constructor_of cl)
      as [cfg'|] eqn:Hc; [|done].
    injection Hcfg as <-.
    destruct (Htyped _ _ Hc) as [Hr|[r Hr]]; congruence.
  - intros item ref Href. split.
    + simpl. by apply process_reference.
    + destruct Hbounded as [_ Ht]. destruct (Ht _ _ Href) as [_ ?]. lia.
  - intros rank hw items i context context' hr Hgraph Hitems Hi.
    destruct (roundtrip_sequence reg rank hw Hgraph (S fuel) items
                context context' hr Hitems)
      as (out & vs & hr' & f & Hser & Hdes & Hrel & _).
    exists out, vs, hr'. split; [done|]. split; [done|]. split.
    + symmetry. by eapply Forall2_length.
    + by eapply Forall2_related_lookup.
Qed.

Lemma escape_sentinel_as_data_witness :
  (∃ sw',
     ObjectMiddleware.process (E := Example.env) Example.registry 1
       ObjectMiddleware.ESCAPE (ObjectMiddleware.wstate_init Example.heap1) =
       Return tt sw' ∧
     ObjectMiddleware.wr_result sw' = [VNull; VNum 1]) ∧
  (∃ sr',
     ObjectMiddleware.decodeValue (E := Example.env) Example.registry
       [VNull; VNum 1] 1 (ObjectMiddleware.rstate_init ∅) = Return VNull sr' ∧
     ObjectMiddleware.rd_currentDataPos sr' = 2%nat).
Proof.
  destruct (escape_sentinel_as_data (E := Example.env) Example.registry 0
              (ObjectMiddleware.wstate_init Example.heap1)
              [VNull; VNum 1] (ObjectMiddleware.rstate_init ∅))
    as ((sw' & Hp & Hres & _) & (sr' & Hd & Hcur & _) & _).
  - apply table_bounded_init.
  - reflexivity.
  - reflexivity.
  - split; [by exists sw'|by exists sr'].
Defined.

(** ** Strings and byte-buffers in the table *)

Section referenceable_values.
Import ObjectMiddleware.
Context {E : Env} (reg : registry).

Lemma decode_all_step (data : list value) (n fuel : nat) (result : list value)
  (s : rstate) :
(rd_currentDataPos s < length data)%nat →
decode_all reg data (S n) fuel result s =
bind (decodeValue reg data fuel)
     (λ v, decode_all reg data n fuel (result ++ [v])) s.
Proof. intros Hlt. simpl. by rewrite bool_decide_eq_true_2. Qed.

Lemma decode_all_done (data : list value) (n fuel : nat) (result : list value)
  (s : rstate) :
(length data ≤ rd_currentDataPos s)%nat →
decode_all reg data n fuel result s = Return result s.
Proof. intros Hle. destruct n; simpl; rewrite bool_decide_eq_false_2; (done || lia). Qed.

(** A string met twice: one full item, then a back-reference of two items;
  both decode to the string. *)
Lemma string_written_once (fuel : nat) (str : string) (context context' : value)
  (h hr : heap) :
serialize reg (S fuel) [VStr str; VStr str] context h =
  Return [VStr str; ESCAPE; VNum (-1)] h ∧
deserialize reg [VStr str; ESCAPE; VNum (-1)] context' hr =
  Return [VStr str; VStr str] hr.
Proof.
split.
- unfold serialize. simpl. unfold bind at 1.
  rewrite process_string by done. unfold bind at 1.
  rewrite (process_reference reg _ (VStr str) 0).
  + simpl. unfold ret. simpl. repeat f_equal. 
  + simpl. by rewrite lookup_insert_eq.
- assert (decode_all reg [VStr str; ESCAPE; VNum (-1)] 2 1 [] (rstate_init hr) =
          Return [VStr str; VStr str]
            (advance 2 (advance 1 (registered' (VStr str) (rstate_init hr)))))
    as Hloop.
  { rewrite decode_all_step by (simpl; lia). unfold bind at 1. simpl decodeValue.
    rewrite (decodeValue_string reg _ _ str) by done.
    rewrite decode_all_step by (simpl; lia). unfold bind at 1. simpl decodeValue.
    rewrite (decodeValue_reference reg _ _ (-1)) by done.
    rewrite decode_all_done by (simpl; lia).
    simpl. by rewrite lookup_insert_eq. }
  rewrite (deserialize_decode_all reg _ 2 1) by (by rewrite Hloop).
  by rewrite Hloop.
Qed.

(** A byte-buffer passes the test of the object branch, so the branch
  [Buffer.isBuffer(item)] of [process], which comes later, is never
  taken. *)
Lemma buffer_takes_object_branch (h : heap) (item : value) :
isBuffer h item = true →
String.eqb (typeof item) "object" && negb (bool_decide (item = VNull)) = true.
Proof. by destruct item. Qed.

Lemma process_buffer_unregistered rec (a : addr) (bytes : list Byte.byte)
  (s : wstate) :
wr_heap s !! a = Some (Buffer_ bytes) →
serializers reg !! ("Buffer" : Constructor) = None →
wr_referenceable s !! VRef a = None →
process_body reg rec (VRef a) s =
Throw (Error "No serializer registered for Buffer") s.
Proof.
intros Ha Hreg Hnone. unfold process_body.
unfold bind at 1. unfold gets at 1. rewrite Hnone. simpl.
unfold bind at 1. unfold gets at 1. unfold bind at 1.
rewrite Ha. cbn [constructor_of]. by rewrite Hreg.
Qed.

(** [decodeValue] does register a byte-buffer it reads. *)
Lemma decodeValue_buffer (data : list value) rec (a : addr)
  (bytes : list Byte.byte) (s : rstate) :
data !! rd_currentDataPos s = Some (VRef a) →
rd_heap s !! a = Some (Buffer_ bytes) →
decodeValue_body reg data rec s =
Return (VRef a) (advance 1 (registered' (VRef a) s)).
Proof.
intros H0 Ha. unfold decodeValue_body, bind, read. rewrite H0. simpl.
unfold gets. simpl. by rewrite Ha.
Qed.
End referenceable_values.

(** C3, at its failing input.  For a byte-buffer [b], [serialize([b, b])]
    emits nothing: [b] passes the test [typeof item === "object"], no
    capability is registered for [Buffer], and the call throws.  The
    stream the claim describes, a full item then a back-reference, is one
    [deserialize] reads back as twice the same buffer. *)
Theorem buffer_never_written (fuel : nat) :
  ObjectMiddleware.serialize (E := Example.env) Example.registry (S fuel)
    [VRef 0%nat; VRef 0%nat] VUndefined Example.heap_buffer =
  Throw (Error "No serializer registered for Buffer") Example.heap_buffer ∧
  ObjectMiddleware.deserialize (E := Example.env) Example.registry
    [VRef 0%nat; ObjectMiddleware.ESCAPE; VNum (-1)] VUndefined
    Example.heap_buffer =
  Return [VRef 0%nat; VRef 0%nat] Example.heap_buffer.
Proof.
  split; [|by vm_compute].
  unfold ObjectMiddleware.serialize. simpl. unfold bind at 1.
  by rewrite (process_buffer_unregistered (E := Example.env) Example.registry
                _ 0%nat [Byte.x01]).
Qed.

(** ** Truncated streams *)

Section truncation.
Import ObjectMiddleware.
Context {E : Env} (reg : registry) (data : list value) (n : nat).

Lemma truncates_bind {A B} (m1 m2 : M rstate A) (k1 k2 : A → M rstate B) :
truncates n m1 m2 →
(∀ a, truncates n (k1 a) (k2 a)) →
truncates n (bind m1 k1) (bind m2 k2).
Proof.
intros Hm Hk s b s'. unfold bind.
destruct (m1 s) as [a s1| |] eqn:H1; try done.
intros Hk1.
destruct (Hm s a s1 H1) as [Hmono Hm2].
destruct (Hk a s1 b s' Hk1) as [Hmono' Hk2].
split; [lia|]. intros Hs.
destruct (Hm2 Hs) as [[Hs1 ->]|[Hs1 [s'' ->]]].
- by apply Hk2.
- right. split; [lia|]. by exists s''.
Qed.

(** A step that does not move the cursor is the same on both streams. *)
Lemma truncates_same {A} (m : M rstate A) :
(∀ s a s', m s = Return a s' → rd_currentDataPos s' = rd_currentDataPos s) →
truncates n m m.
Proof.
intros Hm s a s' Hs. rewrite (Hm s a s' Hs). split; [done|].
intros Hle. left. done.
Qed.

Lemma truncates_read : truncates n (read data) (read (take n data)).
Proof.
intros s a s' [Ha ->]%read_Return. simpl. split; [lia|]. intros Hle.
destruct (decide (rd_currentDataPos s < n)%nat) as [Hlt|Hge].
- left. split; [lia|]. unfold read. by rewrite lookup_take_lt, Ha.
- right. split; [lia|]. exists s. unfold read.
  by rewrite lookup_take_ge by lia.
Qed.

Ltac same_cursor :=
let Hm := fresh in
intros ? ? ? Hm;
unfold ObjectMiddleware.addReferenceable', ret, gets, modify, alloc in Hm;
by simplify_eq.

Lemma truncates_run {A} (rd1 rd2 : M rstate value) (wr : value → M rstate unit)
  (c : code A) :
truncates n rd1 rd2 →
(∀ v, truncates n (wr v) (wr v)) →
truncates n (run rd1 wr c) (run rd2 wr c).
Proof.
intros Hrd Hwr.
induction c as [x|k IH|v k IH|C k IH|o p k IH|o p v k IH|g arg k IH]; simpl.
- apply truncates_same. same_cursor.
- by apply truncates_bind.
- by apply truncates_bind.
- apply truncates_bind; [|done].
  apply truncates_same. same_cursor.
- apply truncates_bind; [|done].
  apply truncates_same. intros s a s'. unfold js_get.
  destruct o as [| | | | |a0|]; try (intros Hm; by simplify_eq).
  destruct (get_heap s !! a0) as [[]|]; intros Hm; by simplify_eq.
- apply truncates_bind; [|done].
  apply truncates_same. intros s a s'. unfold js_set.
  destruct o as [| | | | |a0|]; try (intros Hm; by simplify_eq).
  destruct (get_heap s !! a0) as [[]|]; intros Hm; by simplify_eq.
- apply truncates_bind; [|done].
  apply truncates_same. same_cursor.
Qed.

Lemma truncates_registered (item : value) :
truncates n (addReferenceable' item) (addReferenceable' item).
Proof. apply truncates_same. same_cursor. Qed.

Lemma truncates_ret {A} (x : A) : truncates n (ret x) (ret x).
Proof. apply truncates_same. same_cursor. Qed.

Lemma truncates_gets {A} (f : rstate → A) : truncates n (gets f) (gets f).
Proof. apply truncates_same. same_cursor. Qed.

Lemma truncates_lift_sum {A} (x : exn + A) : truncates n (lift_sum x) (lift_sum x).
Proof. apply truncates_same. by intros s a s' [_ ->]%lift_sum_Return. Qed.

Lemma truncates_body (rec1 rec2 : M rstate value) :
truncates n rec1 rec2 →
truncates n (decodeValue_body reg data rec1)
            (decodeValue_body reg (take n data) rec2).
Proof.
intros Hrec. unfold decodeValue_body.
apply truncates_bind; [apply truncates_read|]. intros item.
destruct (bool_decide (item = ESCAPE)).
{ apply truncates_bind; [apply truncates_read|]. intros nextItem.
  destruct (bool_decide (nextItem = ESCAPE_ESCAPE_VALUE)); [apply truncates_ret|].
  destruct nextItem as [| |b|z|str|a0|f ws];
    try (apply truncates_bind; [apply truncates_read|]; intros exportName_;
         apply truncates_bind; [apply truncates_lift_sum|];
         intros serializer_;
         apply truncates_bind;
           [apply truncates_run; [done|]; by intros v s a s'|];
         intros item0;
         apply truncates_bind; [apply truncates_registered|];
         intros _; apply truncates_ret).
  apply truncates_gets. }
destruct (String.eqb (typeof item) "string").
{ apply truncates_bind; [apply truncates_registered|].
  intros _. apply truncates_ret. }
apply truncates_bind; [apply truncates_gets|].
intros buffer. destruct buffer.
{ apply truncates_bind; [apply truncates_registered|].
  intros _. apply truncates_ret. }
destruct (String.eqb (typeof item) "function"); apply truncates_ret.
Qed.

Lemma truncates_decodeValue (fuel : nat) :
truncates n (decodeValue reg data fuel) (decodeValue reg (take n data) fuel).
Proof.
induction fuel as [|fuel IH]; [by intros s a s'|].
simpl. by apply truncates_body.
Qed.
End truncation.

Section truncated_calls.
Import ObjectMiddleware.
Context {E : Env} (reg : registry) (data : list value).

Lemma read_past_end (s : rstate) :
(length data ≤ rd_currentDataPos s)%nat →
read data s = Throw (Error "Unexpected end of stream") s.
Proof. intros Hle. unfold read. by rewrite lookup_ge_None_2. Qed.

(** A loop that is at the end of the stream. *)
Lemma decode_all_cuts_end (k fuel : nat) (result : list value) (s : rstate) :
rd_currentDataPos s = length data →
∀ n, (rd_currentDataPos s ≤ n ≤ length data)%nat →
  (∀ i : nat, [rd_currentDataPos s] !! i = Some n →
     ∃ s'', decode_all reg (take n data) k fuel result s =
            Return (result ++ take i []) s'') ∧
  (n ∉ [rd_currentDataPos s] →
     ∃ s'', decode_all reg (take n data) k fuel result s =
            Throw (Error "Unexpected end of stream") s'').
Proof.
intros Hs n Hn. assert (n = rd_currentDataPos s) as -> by lia. split.
- intros i _. exists s. rewrite take_nil, app_nil_r.
  apply decode_all_done. rewrite length_take. lia.
- intros Hnot. destruct Hnot. by apply list_elem_of_singleton.
Qed.

(** The cursors at which the loop of [deserialize] is at its head: the
  stream cut at one of them decodes to the values read so far, and
  cut anywhere else it is rejected. *)
Lemma decode_all_cuts (k fuel : nat) (result : list value) (s : rstate)
  (vs : list value) (s_fin : rstate) :
decode_all reg data k fuel result s = Return vs s_fin →
(rd_currentDataPos s ≤ length data)%nat →
∃ new ends,
  vs = result ++ new ∧
  length ends = length new ∧
  StronglySorted lt (rd_currentDataPos s :: ends) ∧
  last (rd_currentDataPos s :: ends) = Some (length data) ∧
  ∀ n, (rd_currentDataPos s ≤ n ≤ length data)%nat →
    (∀ i : nat, (rd_currentDataPos s :: ends) !! i = Some n →
       ∃ s'', decode_all reg (take n data) k fuel result s =
              Return (result ++ take i new) s'') ∧
    (n ∉ rd_currentDataPos s :: ends →
       ∃ s'', decode_all reg (take n data) k fuel result s =
              Throw (Error "Unexpected end of stream") s'').
Proof.
revert result s vs.
induction k as [|k IH]; intros result s vs Hfull Hs;
  destruct (decide (rd_currentDataPos s < length data)%nat) as [Hlt|Hge].
- simpl in Hfull. by rewrite bool_decide_eq_true_2 in Hfull.
- rewrite decode_all_done in Hfull by lia. injection Hfull as <- <-.
  exists [], []. split; [by rewrite app_nil_r|]. split; [done|].
  split; [repeat constructor|]. split; [simpl; f_equal; lia|].
  apply decode_all_cuts_end. lia.
- rewrite decode_all_step in Hfull by done. unfold bind in Hfull.
  destruct (decodeValue reg data fuel s) as [v s1| |] eqn:Hd; try done.
  pose proof (decodeValue_cursor_lt _ _ _ _ _ _ Hd) as Hcur.
  pose proof (decodeValue_cursor_bound _ _ _ _ _ _ Hd Hs) as Hb1.
  destruct (IH _ _ _ Hfull Hb1) as
    (new1 & ends1 & -> & Hlen & Hsorted & Hlast & Hcut).
  assert (Forall (lt (rd_currentDataPos s1)) ends1) as Hall
    by (by apply StronglySorted_inv in Hsorted as [_ ?]).
  exists (v :: new1), (rd_currentDataPos s1 :: ends1).
  split; [by rewrite <- app_assoc|]. split; [simpl; by f_equal|].
  split.
  { constructor; [done|]. constructor; [done|].
    eapply Forall_impl; [exact Hall|]. simpl. intros e ?. lia. }
  split; [done|].
  intros n Hn.
  destruct (truncates_decodeValue reg data n fuel s v s1 Hd) as [_ Htr].
  destruct Htr as [[Hs1 Hd']|[Hs1 [s'' Hd']]]; [lia| |].
  + assert (decode_all reg (take n data) (S k) fuel result s =
            decode_all reg (take n data) k fuel (result ++ [v]) s1) as Hstep.
    { rewrite decode_all_step by (rewrite length_take; lia).
      unfold bind. by rewrite Hd'. }
    destruct (Hcut n) as [Hin Hout]; [lia|]. split.
    * intros [|i] Hi; simpl in Hi; [injection Hi as ?; lia|].
      destruct (Hin i Hi) as [s'' Hs'']. exists s''.
      rewrite Hstep, Hs''. by rewrite <- app_assoc.
    * intros Hnot. destruct Hout as [s'' Hs''].
      { intros Hel. apply Hnot. by apply elem_of_cons; right. }
      exists s''. by rewrite Hstep.
  + split.
    * intros [|i] Hi; simpl in Hi.
      -- injection Hi as <-. exists s. rewrite app_nil_r.
         apply decode_all_done. rewrite length_take. lia.
      -- exfalso. apply list_elem_of_lookup_2 in Hi.
         apply elem_of_cons in Hi as [->|Hi]; [lia|].
         rewrite Forall_forall in Hall. specialize (Hall _ Hi). lia.
    * intros Hnot. exists s''.
      rewrite decode_all_step.
      -- unfold bind. by rewrite Hd'.
      -- rewrite length_take.
         assert (n ≠ rd_currentDataPos s); [|lia].
         intros ->. apply Hnot. by apply elem_of_cons; left.
- rewrite decode_all_done in Hfull by lia. injection Hfull as <- <-.
  exists [], []. split; [by rewrite app_nil_r|]. split; [done|].
  split; [repeat constructor|]. split; [simpl; f_equal; lia|].
  apply decode_all_cuts_end. lia.
Qed.
End truncated_calls.

Section flat_sections.
Import ObjectMiddleware.
Context {E : Env} (reg : registry) (data : list value).

(** A section without header is decoded whatever the registry and the
  tables hold. *)
Lemma decodeValue_flat_section (fuel : nat) (sec : list value) (s : rstate) :
flat_section sec →
(∀ (j : nat) x, sec !! j = Some x →
                data !! (rd_currentDataPos s + j)%nat = Some x) →
∃ v s', decodeValue reg data (S fuel) s = Return v s' ∧
        rd_currentDataPos s' = (rd_currentDataPos s + length sec)%nat ∧
        rd_heap s' = rd_heap s.
Proof.
intros [(x & -> & Hx)|(k & ->)] Hdata.
- pose proof (Hdata 0%nat x eq_refl) as H0. rewrite Nat.add_0_r in H0.
  simpl. unfold decodeValue_body. unfold bind at 1. unfold read at 1.
  rewrite H0. rewrite bool_decide_eq_false_2 by done.
  destruct (String.eqb (typeof x) "string").
  { unfold bind, addReferenceable', modify, ret. simpl.
    eexists _, _. split; [done|]. simpl. split; [lia|done]. }
  unfold bind at 1. unfold gets at 1.
  destruct (isBuffer _ x).
  { unfold bind, addReferenceable', modify, ret. simpl.
    eexists _, _. split; [done|]. simpl. split; [lia|done]. }
  destruct (String.eqb (typeof x) "function"); unfold ret;
    (eexists _, _; split; [done|]; simpl; split; [lia|done]).
- pose proof (Hdata 0%nat _ eq_refl) as H0. rewrite Nat.add_0_r in H0.
  pose proof (Hdata 1%nat _ eq_refl) as H1. rewrite Nat.add_1_r in H1.
  simpl. destruct (decide (k = 1)) as [->|Hk].
  + rewrite decodeValue_escape by done.
    eexists _, _. split; [done|]. simpl. split; [lia|done].
  + rewrite (decodeValue_reference reg data _ k) by done.
    eexists _, _. split; [done|]. simpl. split; [lia|done].
Qed.

Lemma decode_all_flat_sections (secs : list (list value)) (rest : list value) :
Forall flat_section secs →
∀ (n fuel : nat) (result : list value) (s : rstate),
  drop (rd_currentDataPos s) data = concat secs ++ rest →
  (length secs ≤ n)%nat →
  ∃ vs s',
    length vs = length secs ∧
    rd_heap s' = rd_heap s ∧
    drop (rd_currentDataPos s') data = rest ∧
    decode_all reg data n (S fuel) result s =
    decode_all reg data (n - length secs) (S fuel) (result ++ vs) s'.
Proof.
induction 1 as [|sec secs Hsec _ IH]; intros n fuel result s Hdrop Hn.
- exists [], s. rewrite app_nil_r, Nat.sub_0_r. done.
- simpl in Hdrop, Hn. rewrite <- app_assoc in Hdrop.
  assert (∀ (j : nat) x, sec !! j = Some x →
            data !! (rd_currentDataPos s + j)%nat = Some x) as Hdata.
  { intros j x Hj. rewrite <- lookup_drop, Hdrop.
    by apply lookup_app_l_Some. }
  destruct (decodeValue_flat_section fuel sec s Hsec Hdata)
    as (v & s1 & Hd & Hcur & Hheap).
  assert (0 < length sec)%nat as Hpos.
  { destruct Hsec as [(x & -> & _)|(k & ->)]; simpl; lia. }
  assert (rd_currentDataPos s < length data)%nat as Hlt.
  { destruct sec as [|x sec']; [simpl in Hpos; lia|].
    specialize (Hdata 0%nat x eq_refl). rewrite Nat.add_0_r in Hdata.
    by apply lookup_lt_Some in Hdata. }
  destruct n as [|n]; [lia|].
  destruct (IH n fuel (result ++ [v]) s1) as (vs & s' & Hlen & Hh & Hrest & Hloop).
  { rewrite Hcur, <- drop_drop, Hdrop. by rewrite drop_app_length. }
  { lia. }
  exists (v :: vs), s'. split; [simpl; by f_equal|].
  split; [congruence|]. split; [done|].
  rewrite decode_all_step by done. unfold bind. rewrite Hd.
  rewrite Hloop. simpl. by rewrite <- app_assoc.
Qed.

(** An escape sentinel at the end of the stream. *)
Lemma decodeValue_dangling_escape (fuel : nat) (s : rstate) :
drop (rd_currentDataPos s) data = [ESCAPE] →
∃ s', decodeValue reg data (S fuel) s =
      Throw (Error "Unexpected end of stream") s' ∧
      rd_heap s' = rd_heap s.
Proof.
intros Hdrop.
assert (data !! rd_currentDataPos s = Some ESCAPE) as H0.
{ rewrite <- (Nat.add_0_r (rd_currentDataPos s)), <- lookup_drop. by rewrite Hdrop. }
assert (data !! S (rd_currentDataPos s) = None) as H1.
{ rewrite <- (Nat.add_1_r (rd_currentDataPos s)), <- lookup_drop. by rewrite Hdrop. }
simpl. unfold decodeValue_body. unfold bind at 1. unfold read at 1.
rewrite H0. rewrite bool_decide_eq_true_2 by done.
unfold bind at 1. unfold read at 1. simpl. rewrite H1.
eexists. split; [done|]. done.
Qed.

(** An object header without its export name at the end of the stream:
  the read of the export name comes before the lookup of the request. *)
Lemma decodeValue_dangling_header (fuel : nat) (req : value) (s : rstate) :
(∀ k, req ≠ VNum k) →
drop (rd_currentDataPos s) data = [ESCAPE; req] →
∃ s', decodeValue reg data (S fuel) s =
      Throw (Error "Unexpected end of stream") s' ∧
      rd_heap s' = rd_heap s.
Proof.
intros Hreq Hdrop.
assert (data !! rd_currentDataPos s = Some ESCAPE) as H0.
{ rewrite <- (Nat.add_0_r (rd_currentDataPos s)), <- lookup_drop. by rewrite Hdrop. }
assert (data !! S (rd_currentDataPos s) = Some req) as H1.
{ rewrite <- (Nat.add_1_r (rd_currentDataPos s)), <- lookup_drop. by rewrite Hdrop. }
assert (data !! S (S (rd_currentDataPos s)) = None) as H2.
{ replace (S (S (rd_currentDataPos s))) with (rd_currentDataPos s + 2)%nat by lia.
  rewrite <- lookup_drop. by rewrite Hdrop. }
simpl. unfold decodeValue_body. unfold bind at 1. unfold read at 1.
rewrite H0. rewrite bool_decide_eq_true_2 by done.
unfold bind at 1. unfold read at 1. simpl. rewrite H1.
rewrite bool_decide_eq_false_2 by (unfold ESCAPE_ESCAPE_VALUE; apply Hreq).
destruct req; try (by destruct (Hreq n));
  unfold bind at 1; unfold read at 1; simpl; rewrite H2;
  (eexists; split; [done|]; done).
Qed.
End flat_sections.

(** C6.  A [read] past the end of the input throws ["Unexpected end of
    stream"], and nothing catches it: the exception ends the whole
    call.  A value that [decodeValue] reads from the items between two
    cursors is rejected with that exception when the stream ends
    between them.  For a stream that [deserialize] reads as [vs], the
    cursors [ends] at which a value is complete are as many as the
    values, in increasing order up to the length of the stream; the
    stream cut at one of them, after [i] values, is read as the first
    [i] values of [vs], and cut anywhere else, inside a value, it is
    rejected with that exception: no value is returned for an item that
    is not complete.  Whatever the registry, a stream of sections
    without header is read as one value per section; followed by a
    sentinel alone, or by a sentinel and a request without export name,
    it is rejected with that exception. *)
Theorem truncated_stream_rejected {E : Env}
    (reg : ObjectMiddleware.registry) (data : list value)
    (context : value) (h : heap) :
  (∀ s, (length data ≤ ObjectMiddleware.rd_currentDataPos s)%nat →
        ObjectMiddleware.read data s =
        Throw (Error "Unexpected end of stream") s) ∧
  (∀ fuel s v s' n,
     ObjectMiddleware.decodeValue reg data fuel s = Return v s' →
     (ObjectMiddleware.rd_currentDataPos s ≤ n
      < ObjectMiddleware.rd_currentDataPos s')%nat →
     ∃ s'', ObjectMiddleware.decodeValue reg (take n data) fuel s =
            Throw (Error "Unexpected end of stream") s'') ∧
  (∀ vs h',
     ObjectMiddleware.deserialize reg data context h = Return vs h' →
     ∃ ends : list nat,
       length ends = length vs ∧
       StronglySorted lt (0%nat :: ends) ∧
       last (0%nat :: ends) = Some (length data) ∧
       ∀ n, (n ≤ length data)%nat →
         (∀ i : nat, (0%nat :: ends) !! i = Some n →
            ∃ h'', ObjectMiddleware.deserialize reg (take n data) context h =
                   Return (take i vs) h'') ∧
         (n ∉ 0%nat :: ends →
            ∃ h'', ObjectMiddleware.deserialize reg (take n data) context h =
                   Throw (Error "Unexpected end of stream") h'')) ∧
  (∀ secs,
     Forall flat_section secs →
     (∃ vs, ObjectMiddleware.deserialize reg (concat secs) context h =
            Return vs h ∧ length vs = length secs) ∧
     ObjectMiddleware.deserialize reg (concat secs ++ [ObjectMiddleware.ESCAPE])
       context h = Throw (Error "Unexpected end of stream") h ∧
     (∀ req, (∀ k, req ≠ VNum k) →
        ObjectMiddleware.deserialize reg
          (concat secs ++ [ObjectMiddleware.ESCAPE; req]) context h =
        Throw (Error "Unexpected end of stream") h)).
Proof.
  split; [apply read_past_end|]. split; [|split].
  - intros fuel s v s' n Hd Hn.
    destruct (truncates_decodeValue reg data n fuel s v s' Hd) as [_ Htr].
    destruct Htr as [[Hs' _]|[_ Hthrow]]; [lia|lia|done].
  - intros vs h' Hfull.
    set (N := length data). set (F := S N).
    unfold ObjectMiddleware.deserialize in Hfull. fold N F in Hfull.
    destruct (ObjectMiddleware.decode_all reg data N F []
                (ObjectMiddleware.rstate_init h)) as [vs0 s_fin| |] eqn:Hloop;
      try done.
    injection Hfull as -> <-.
    destruct (decode_all_cuts reg data N F [] _ _ _ Hloop (Nat.le_0_l _))
      as (new & ends & Hvs & Hlen & Hsorted & Hlast & Hcut).
    simpl in Hvs. subst new. exists ends.
    split; [done|]. split; [done|]. split; [done|].
    intros n Hn. destruct (Hcut n) as [Hin Hout]; [simpl; lia|]. split.
    + intros i Hi. destruct (Hin i Hi) as [s'' Hs''].
      exists (ObjectMiddleware.rd_heap s'').
      rewrite (deserialize_decode_all reg (take n data) N F)
        by (by rewrite Hs'').
      by rewrite Hs''.
    + intros Hnot. destruct (Hout Hnot) as [s'' Hs''].
      exists (ObjectMiddleware.rd_heap s'').
      rewrite (deserialize_decode_all reg (take n data) N F)
        by (by rewrite Hs'').
      by rewrite Hs''.
  - intros secs Hsecs. split; [|split].
    + destruct (decode_all_flat_sections reg (concat secs) secs [] Hsecs
                  (length secs) 0 [] (ObjectMiddleware.rstate_init h))
        as (vs & s' & Hlen & Hh & Hrest & Hloop).
      { simpl. by rewrite app_nil_r. }
      { done. }
      rewrite Nat.sub_diag in Hloop.
      rewrite (decode_all_done reg _ 0 1 ([] ++ vs) s') in Hloop.
      2:{ destruct (decide (length (concat secs)
                             ≤ ObjectMiddleware.rd_currentDataPos s')%nat)
            as [|Hlt]; [done|].
          apply (f_equal length) in Hrest. rewrite length_drop in Hrest.
          simpl in Hrest. lia. }
      exists vs. split; [|done].
      rewrite (deserialize_decode_all reg (concat secs) (length secs) 1)
        by (by rewrite Hloop).
      rewrite Hloop. simpl. by rewrite Hh.
    + destruct (decode_all_flat_sections reg
                  (concat secs ++ [ObjectMiddleware.ESCAPE]) secs
                  [ObjectMiddleware.ESCAPE] Hsecs
                  (S (length secs)) 0 [] (ObjectMiddleware.rstate_init h))
        as (vs & s' & Hlen & Hh & Hrest & Hloop).
      { done. }
      { lia. }
      replace (S (length secs) - length secs)%nat with 1%nat in Hloop by lia.
      destruct (decodeValue_dangling_escape reg _ 0 s' Hrest)
        as (s'' & Hd & Hh'').
      rewrite (decode_all_step reg _ 0 1 ([] ++ vs) s') in Hloop.
      2:{ apply (f_equal length) in Hrest. rewrite length_drop in Hrest.
          simpl in Hrest. lia. }
      unfold bind in Hloop. rewrite Hd in Hloop.
      rewrite (deserialize_decode_all reg _ (S (length secs)) 1)
        by (by rewrite Hloop).
      rewrite Hloop. simpl. by rewrite Hh'', Hh.
    + intros req Hreq.
      destruct (decode_all_flat_sections reg
                  (concat secs ++ [ObjectMiddleware.ESCAPE; req]) secs
                  [ObjectMiddleware.ESCAPE; req] Hsecs
                  (S (length secs)) 0 [] (ObjectMiddleware.rstate_init h))
        as (vs & s' & Hlen & Hh & Hrest & Hloop).
      { done. }
      { lia. }
      replace (S (length secs) - length secs)%nat with 1%nat in Hloop by lia.
      destruct (decodeValue_dangling_header reg _ 0 req s' Hreq Hrest)
        as (s'' & Hd & Hh'').
      rewrite (decode_all_step reg _ 0 1 ([] ++ vs) s') in Hloop.
      2:{ apply (f_equal length) in Hrest. rewrite length_drop in Hrest.
          simpl in Hrest. lia. }
      unfold bind in Hloop. rewrite Hd in Hloop.
      rewrite (deserialize_decode_all reg _ (S (length secs)) 1)
        by (by rewrite Hloop).
      rewrite Hloop. simpl. by rewrite Hh'', Hh.
Qed.

Lemma truncated_stream_rejected_witness :
  ObjectMiddleware.deserialize (E := Example.env) Example.registry
    [VStr "a"; VStr "b"; VNull] VUndefined ∅ =
  Throw (Error "Unexpected end of stream") ∅.
Proof.
  destruct (truncated_stream_rejected (E := Example.env) Example.registry
              [] VUndefined ∅) as (_ & _ & _ & Hflat).
  destruct (Hflat [[VStr "a"]; [VStr "b"]]) as (_ & Hcut & _).
  - constructor; [left; by exists (VStr "a")|].
    constructor; [left; by exists (VStr "b")|]. constructor.
  - exact Hcut.
Defined.

(** ** The stream [serialize] writes *)

Section format.
Import ObjectMiddleware.
Context {E : Env} (reg : registry).
Hypothesis Htyped : registry_typed reg.

Lemma getSerializerFor_typed (h : heap) (item : value) (cfg : config) :
getSerializerFor reg h item = inr cfg → request_ok (request cfg).
Proof.
unfold getSerializerFor. destruct item as [| | | | |a|]; try done.
destruct (h !! a) as [cl|]; [|done].
destruct (serializers reg !! constructor_of cl) as [cfg'|] eqn:Hc; [|done].
intros [= <-]. by eapply Htyped.
Qed.

Lemma sections_app pos items pos1 ts1 rest pos2 ts2 :
sections pos items pos1 ts1 →
sections pos1 rest pos2 ts2 →
sections pos (items ++ rest) pos2 (ts1 ++ ts2).
Proof.
intros H1 H2. induction H1; simpl.
- done.
- rewrite <- !app_assoc. eapply ObjectSection; eauto.
- constructor; auto.
- constructor; auto.
- constructor; auto.
- constructor; auto.
Qed.

(** The counter never decreases, and every reference points below it. *)
Lemma sections_targets pos items pos' ts :
sections pos items pos' ts →
pos ≤ pos' ∧ Forall (λ t, 0 ≤ t < pos') ts.
Proof.
induction 1 as [pos|pos req exp body pos1 ts1 rest pos2 ts2 _ _ [IH1 IH1'] _ [IH2 IH2']
                |pos offset rest pos2 ts Hneg Hpos _ [IH IH']
                |pos rest pos2 ts _ [IH IH']
                |pos str rest pos2 ts _ [IH IH']
                |pos item rest pos2 ts _ _ _ [IH IH']].
- split; [lia|constructor].
- split; [lia|]. apply Forall_app. split; [|done].
  eapply Forall_impl; [exact IH1'|]. simpl. intros t ?. lia.
- split; [done|]. constructor; [lia|done].
- done.
- split; [lia|done].
- done.
Qed.

Lemma writes_sections_refl s : writes_sections s s.
Proof.
intros Hb. split; [done|]. exists [], []. split; [by rewrite app_nil_r|].
constructor.
Qed.

Lemma writes_sections_trans s1 s2 s3 :
writes_sections s1 s2 → writes_sections s2 s3 → writes_sections s1 s3.
Proof.
intros H12 H23 Hb.
destruct (H12 Hb) as (Hb2 & out1 & ts1 & Hr1 & Hs1).
destruct (H23 Hb2) as (Hb3 & out2 & ts2 & Hr2 & Hs2).
split; [done|]. exists (out1 ++ out2), (ts1 ++ ts2).
split; [by rewrite Hr2, Hr1, app_assoc|].
by eapply sections_app.
Qed.

Lemma table_bounded_registered (item : value) (s : wstate) :
referenceable_value item → table_bounded s → table_bounded (registered item s).
Proof.
intros Hitem [Hpos Ht]. split; simpl; [lia|].
intros k p. rewrite lookup_insert. case_decide as Hk.
- intros [= <-]. subst k. split; [done|lia].
- intros Hkp. destruct (Ht _ _ Hkp) as [? ?]. split; [done|lia].
Qed.

(** One call of [process] writes one section.  When the value is an object
  met for the first time, the section is an object section: the object
  takes the position the counter has after its fields, and no reference
  among its fields points there. *)
Lemma process_body_section (proc : value → M wstate unit) (item : value)
  (s s' : wstate) :
(∀ v t t', proc v t = Return tt t' → writes_sections t t') →
process_body reg proc item s = Return tt s' →
table_bounded s →
table_bounded s' ∧
(∃ out ts, wr_result s' = wr_result s ++ out ∧
           sections (wr_currentPos s) out (wr_currentPos s') ts) ∧
(∀ a, item = VRef a → wr_referenceable s !! item = None →
   ∃ req exp body ts,
     wr_result s' = wr_result s ++ ESCAPE :: req :: exp :: body ∧
     sections (wr_currentPos s) body (wr_currentPos s' - 1) ts ∧
     wr_referenceable s' !! item = Some (wr_currentPos s' - 1) ∧
     Forall (λ t, 0 ≤ t < wr_currentPos s' - 1) ts).
Proof.
intros Hproc Hbody Hb.
destruct (wr_referenceable s !! item) as [ref|] eqn:Href.
{ rewrite (process_reference reg proc item ref) in Hbody by done.
  injection Hbody as <-.
  split; [done|]. split; [|by intros a _ ?].
  destruct Hb as [_ Ht]. destruct (Ht _ _ Href) as [_ Hlt].
  exists [ESCAPE; VNum (ref - wr_currentPos s)], [wr_currentPos s + (ref - wr_currentPos s)].
  split; [done|]. simpl. constructor; [lia|lia|constructor]. }
destruct item as [| |b|n|str|a|f ws].
- rewrite process_plain in Hbody by done. injection Hbody as <-.
  split; [done|]. split; [|by intros a ? _].
  exists [VUndefined], []. split; [done|]. by repeat constructor.
- rewrite process_escape in Hbody by done. injection Hbody as <-.
  split; [done|]. split; [|by intros a ? _].
  exists [ESCAPE; ESCAPE_ESCAPE_VALUE], []. split; [done|]. by repeat constructor.
- rewrite process_plain in Hbody by done. injection Hbody as <-.
  split; [done|]. split; [|by intros a ? _].
  exists [VBool b], []. split; [done|]. by repeat constructor.
- rewrite process_plain in Hbody by done. injection Hbody as <-.
  split; [done|]. split; [|by intros a ? _].
  exists [VNum n], []. split; [done|]. by repeat constructor.
- rewrite process_string in Hbody by done. injection Hbody as <-.
  split; [apply (table_bounded_registered (VStr str)); [left; eauto|done]|].
  split; [|by intros a ? _].
  exists [VStr str], []. split; [done|]. simpl. by repeat constructor.
- destruct (getSerializerFor reg (wr_heap s) (VRef a)) as [e|cfg] eqn:Hcfg.
  { unfold process_body, bind, gets in Hbody. rewrite Href in Hbody.
    simpl in Hcfg, Hbody. by rewrite Hcfg in Hbody. }
  rewrite (process_object reg proc a cfg) in Hbody by done.
  unfold bind at 1 in Hbody.
  destruct (run _ proc _ _) as [[] s_end| |] eqn:Hrun; try done.
  injection Hbody as <-.
  assert (writes_sections (pushed [ESCAPE; request cfg; exportName cfg] s) s_end)
    as Hw.
  { eapply (run_preserves writes_sections); [..|exact Hrun].
    - apply writes_sections_refl.
    - apply writes_sections_trans.
    - intros h t Ht. split; [done|]. exists [], [].
      split; [by rewrite app_nil_r|]. constructor.
    - done.
    - done. }
  destruct (Hw Hb) as (Hb_end & body & ts & Hres & Hsec).
  destruct (sections_targets _ _ _ _ Hsec) as [Hmono Hts].
  assert (wr_result s_end = wr_result s ++ ESCAPE :: request cfg :: exportName cfg :: body)
    as Hres'.
  { rewrite Hres. simpl. by rewrite <- app_assoc. }
  split; [apply table_bounded_registered; [right; eauto|done]|].
  split.
  + exists (ESCAPE :: request cfg :: exportName cfg :: body ++ []), (ts ++ []).
    split; [by rewrite app_nil_r|].
    simpl wr_currentPos.
    econstructor; [by eapply getSerializerFor_typed|exact Hsec|constructor].
  + intros a0 _ _. exists (request cfg), (exportName cfg), body, ts.
    split; [done|]. simpl.
    replace (wr_currentPos s_end + 1 - 1) with (wr_currentPos s_end) by lia.
    split; [done|]. split; [by rewrite lookup_insert_eq|done].
- unfold process_body, bind, gets in Hbody. rewrite Href in Hbody.
  injection Hbody as <-.
  split; [done|]. split; [|by intros a ? _].
  exists [VFun f (SerializeWrap :: ws)], []. split; [done|]. by repeat constructor.
Qed.

Lemma process_section (fuel : nat) (item : value) (s s' : wstate) :
process reg fuel item s = Return tt s' →
table_bounded s →
table_bounded s' ∧
(∃ out ts, wr_result s' = wr_result s ++ out ∧
           sections (wr_currentPos s) out (wr_currentPos s') ts) ∧
(∀ a, item = VRef a → wr_referenceable s !! item = None →
   ∃ req exp body ts,
     wr_result s' = wr_result s ++ ESCAPE :: req :: exp :: body ∧
     sections (wr_currentPos s) body (wr_currentPos s' - 1) ts ∧
     wr_referenceable s' !! item = Some (wr_currentPos s' - 1) ∧
     Forall (λ t, 0 ≤ t < wr_currentPos s' - 1) ts).
Proof.
revert item s s'. induction fuel as [|fuel IH]; intros item s s'; [done|].
simpl. apply process_body_section.
intros v t t' Hp Hb. destruct (IH v t t' Hp Hb) as (? & ? & _). done.
Qed.
End format.

(** ** Positions *)

Section positions.
Import ObjectMiddleware.
Context {E : Env} (reg : registry).

Lemma positions_dense_registered (item : value) (s : rstate) :
positions_dense s → positions_dense (registered' item s).
Proof.
intros [Hpos Hd]. split; simpl; [lia|].
intros p. rewrite lookup_insert_is_Some, Hd. split.
- intros [<-|[_ ?]]; lia.
- intros Hp. destruct (decide (rd_currentPos s = p)); [by left|right]. lia.
Qed.

Lemma decodeValue_positions_dense (data : list value) (fuel : nat) s v s' :
decodeValue reg data fuel s = Return v s' →
positions_dense s → positions_dense s'.
Proof.
apply (decodeValue_preserves reg data
         (λ s s', positions_dense s → positions_dense s')).
- done.
- intros s1 s2 s3 H12 H23 H1. auto.
- done.
- by intros t w t' [_ ->]%read_Return.
- intros it t t' [= <-]. apply positions_dense_registered.
Qed.

Lemma decode_all_positions_dense (data : list value) (n fuel : nat) result s vs s' :
decode_all reg data n fuel result s = Return vs s' →
positions_dense s → positions_dense s'.
Proof.
revert result s. induction n as [|n IH]; intros result s; simpl.
- case_bool_decide; [done|]. by intros [= _ <-].
- case_bool_decide; [|by intros [= _ <-]].
  unfold bind. destruct (decodeValue reg data fuel s) as [v s1| |] eqn:Hd; try done.
  intros Hrest Hs. eapply IH; [done|]. by eapply decodeValue_positions_dense.
Qed.

(** At an object header, [decodeValue] registers what the capability
  returns, once it has returned. *)
Lemma decodeValue_object_registered (data : list value) (fuel : nat)
  (req exp : value) (cap : ObjectSerializer) (s : rstate) (v : value)
  (s' : rstate) :
data !! rd_currentDataPos s = Some ESCAPE →
data !! Datatypes.S (rd_currentDataPos s) = Some req →
data !! Datatypes.S (Datatypes.S (rd_currentDataPos s)) = Some exp →
resolve reg req exp = inr cap →
decodeValue reg data (Datatypes.S fuel) s = Return v s' →
∃ s1,
  run (decodeValue reg data fuel)
      (λ _, throw (TypeError "write is not a function"))
      (ObjectSerializer.deserialize cap) (advance 3 s) = Return v s1 ∧
  s' = registered' v s1.
Proof.
intros H0 H1 H2 Hcap. simpl.
rewrite (decodeValue_object reg data _ req exp cap) by done.
unfold bind at 1.
destruct (run _ _ _ _) as [item s1| |]; try done.
intros [= <- <-]. by exists s1.
Qed.
End positions.

(** C4, at its failing input.  The claim lets a byte-buffer take one
    position on both sides.  On encode it takes none: [process] throws
    at a byte-buffer before it registers anything, with the counter and
    the table as they were, because the branch that registers a buffer
    comes after the test for objects (the defect of C3).  On decode the
    same buffer, read from the stream, enters the table and the counter
    advances.  On byte-buffers the two counters do not advance
    together. *)
Lemma buffer_position_on_decode_only :
  (∀ fuel,
     ObjectMiddleware.process (E := Example.env) Example.registry (S fuel)
       (VRef 0%nat) (ObjectMiddleware.wstate_init Example.heap_buffer) =
     Throw (Error "No serializer registered for Buffer")
           (ObjectMiddleware.wstate_init Example.heap_buffer)) ∧
  ObjectMiddleware.wr_currentPos
    (ObjectMiddleware.wstate_init Example.heap_buffer) = 0 ∧
  ObjectMiddleware.wr_referenceable
    (ObjectMiddleware.wstate_init Example.heap_buffer) = ∅ ∧
  ∃ s,
    ObjectMiddleware.decodeValue (E := Example.env) Example.registry
      [VRef 0%nat] 1 (ObjectMiddleware.rstate_init Example.heap_buffer) =
    Return (VRef 0%nat) s ∧
    ObjectMiddleware.rd_currentPos s = 1 ∧
    ObjectMiddleware.rd_referenceable s !! 0 = Some (VRef 0%nat).
Proof.
  split; [|split; [done|split; [done|]]].
  - intros fuel. simpl.
    by rewrite (process_buffer_unregistered (E := Example.env)
                  Example.registry _ 0%nat [Byte.x01]).
  - eexists. split; [by vm_compute|]. split; [done|]. by vm_compute.
Qed.


(** ** The properties at work on the example *)

Lemma example_registry_registered :
  register_PropertiesSerializer "Point" (VStr "./Point") ["x"; "y"] None
    (ObjectMiddleware.initial (E := Example.env)) =
  Return tt Example.registry.
Proof.
  unfold register_PropertiesSerializer. by rewrite register_request.
Qed.

Lemma example_registry_typed : registry_typed Example.registry.
Proof.
  intros C cfg. unfold Example.registry, ObjectMiddleware.initial. simpl.
  rewrite !lookup_insert. repeat case_decide; try done.
  - intros [= <-]. right. by eexists.
  - intros [= <-]. by left.
  - intros [= <-]. by left.
Qed.


Lemma unresolved_reference_undefined_witness :
  ObjectMiddleware.decodeValue (E := Example.env) Example.registry
    [ObjectMiddleware.ESCAPE; VNum (-1)] 1 (ObjectMiddleware.rstate_init ∅) =
  Return VUndefined (advance 2 (ObjectMiddleware.rstate_init ∅)).
Proof.
  destruct (unresolved_reference_undefined (E := Example.env) Example.registry
              [ObjectMiddleware.ESCAPE; VNum (-1)] 0 (-1)
              (ObjectMiddleware.rstate_init ∅)) as [H _].
  - reflexivity.
  - reflexivity.
  - lia.
  - reflexivity.
  - exact H.
Defined.

Lemma register_duplicate_global_name_witness :
  ∃ msg reg',
    ObjectMiddleware.register "Vector" VNull VNull Example.point_serializer
      Example.registry = Throw (Error msg) reg' ∧
    ObjectMiddleware.globalSerializers reg' !! VNull =
      Some (plainObjectSerializer (Env := Example.env)).
Proof.
  destruct (register_duplicate_global_name Example.registry "Vector" VNull VNull
              Example.point_serializer) as (H & _).
  destruct (H (plainObjectSerializer (Env := Example.env)))
    as (msg & reg' & Hr & _ & Hg).
  - reflexivity.
  - reflexivity.
  - by exists msg, reg'.
Defined.

Lemma register_failure_atomic_witness :
  ∃ msg,
    ObjectMiddleware.register "Point" ObjectMiddleware.GLOBAL_SERIALIZER_REQUEST
      VNull Example.point_serializer Example.registry =
    Throw (Error msg) Example.registry.
Proof.
  destruct (register_failure_atomic Example.registry "Point" VNull
              Example.point_serializer) as (msg & reg' & Hr & -> & _).
  - eexists. reflexivity.
  - by exists msg.
Defined.

Lemma properties_serializer_fields_witness :
  ∃ obj st P,
    run (E := Example.env) probe_read probe_write
      (ObjectSerializer.deserialize
         (PropertiesSerializer "Point" ["x"; "y"] (Some Example.count_restored)))
      {| pr_heap := Example.heap1; pr_written := [];
         pr_pending := [VNum 1; VStr "a"] |} = Return (VRef obj) st ∧
    Example.heap1 !! obj = None ∧
    pr_heap st !! obj = Some (Instance_ "Point" P) ∧
    P !! "x" = Some (VNum 1) ∧ P !! "y" = Some (VStr "a") ∧
    P !! "restored" = Some (VNum 1).
Proof.
  destruct (properties_serializer_fields (E := Example.env) "Point" ["x"; "y"]
              (Some Example.count_restored) Example.heap1 0%nat "Point"
              (<["x" := VNum 1]> (<["y" := VStr "a"]> ∅)) [] [] eq_refl)
    as (_ & Hdes & Hfresh & _).
  eexists _, _, _. split; [apply (Hdes [VNum 1; VStr "a"] eq_refl)|].
  split; [exact Hfresh|]. vm_compute. done.
Defined.

(** * The registry over a run of registrations *)

Section registry_frame.
Import ObjectMiddleware.

(** What a call of [register] that returns has done. *)
Lemma register_Return reg C req name s reg' :
register C req name s reg = Return tt reg' →
reg' = set_serializers C {| request := req; exportName := name;
                            serializer := s |}
         (if decide (req = GLOBAL_SERIALIZER_REQUEST)
          then set_globalSerializers name s reg else reg) ∧
(req = GLOBAL_SERIALIZER_REQUEST → globalSerializers reg !! name = None).
Proof.
destruct (decide (req = GLOBAL_SERIALIZER_REQUEST)) as [->|Hne].
- destruct (globalSerializers reg !! name) as [old|] eqn:Hname.
  + rewrite register_global_taken by eauto. done.
  + rewrite register_global_fresh by done. by intros [= <-].
- rewrite register_request by done. by intros [= <-].
Qed.

Lemma register_globals_kept reg C req name s reg' n old :
register C req name s reg = Return tt reg' →
globalSerializers reg !! n = Some old →
globalSerializers reg' !! n = Some old.
Proof.
intros [-> Hfresh]%register_Return Hn. simpl.
case_decide as Hreq; [|done]. simpl.
rewrite lookup_insert_ne; [done|]. intros <-.
rewrite Hfresh in Hn; done.
Qed.

Lemma globals_agree_initial {E : Env} : globals_agree initial.
Proof.
split.
- simpl. rewrite lookup_insert_eq. eauto.
- intros C cfg. simpl. rewrite !lookup_insert.
  repeat case_decide; try done; by intros [= <-] _.
Qed.

Lemma globals_agree_register reg C req name s reg' :
globals_agree reg →
register C req name s reg = Return tt reg' →
globals_agree reg'.
Proof.
intros [Hnull Hagree] Hreg. split.
- destruct Hnull as [old Hold]. exists old.
  by eapply register_globals_kept.
- intros C' cfg HC' Hglobal.
  pose proof Hreg as [-> Hfresh]%register_Return.
  simpl in HC'. rewrite lookup_insert in HC'. case_decide as HC.
  + injection HC' as <-. simpl in *. subst req.
    rewrite decide_True by done. simpl. by rewrite lookup_insert_eq.
  + enough (globalSerializers reg !! exportName cfg = Some (serializer cfg))
      as Hold.
    { simpl. case_decide as Hreq; [|done]. simpl.
      rewrite lookup_insert_ne; [done|]. intros Heq.
      specialize (Hfresh Hreq). congruence. }
    eapply Hagree; [|done]. revert HC'. by case_decide.
Qed.

Lemma reachable_globals_agree {E : Env} reg : reachable reg → globals_agree reg.
Proof.
induction 1 as [|reg C req name s reg' _ IH Hreg].
- apply globals_agree_initial.
- by eapply globals_agree_register.
Qed.
End registry_frame.

(** X1.  A call of [register] that returns changes the entry of its own
    type and, for a global registration, binds its own name, which was
    free; the entry of every other type is as it was, and every global
    name that was bound is still bound to the same capability: no
    registration removes or rebinds a global name. *)
Theorem register_keeps_other_entries
    (reg : ObjectMiddleware.registry) (C : Constructor) (req name : value)
    (s : ObjectSerializer) (reg' : ObjectMiddleware.registry) :
  ObjectMiddleware.register C req name s reg = Return tt reg' →
  (∀ C', C' ≠ C →
     ObjectMiddleware.serializers reg' !! C' =
     ObjectMiddleware.serializers reg !! C') ∧
  (∀ n old,
     ObjectMiddleware.globalSerializers reg !! n = Some old →
     ObjectMiddleware.globalSerializers reg' !! n = Some old) ∧
  (∀ n, n ≠ name →
     ObjectMiddleware.globalSerializers reg' !! n =
     ObjectMiddleware.globalSerializers reg !! n) ∧
  (req = ObjectMiddleware.GLOBAL_SERIALIZER_REQUEST →
     ObjectMiddleware.globalSerializers reg !! name = None).
Proof.
  intros Hreg. split; [|split; [|split]].
  - intros C' HC. apply register_Return in Hreg as [-> _]. simpl.
    rewrite lookup_insert_ne by done. by case_decide.
  - intros n old. by eapply register_globals_kept.
  - intros n Hn. apply register_Return in Hreg as [-> _]. simpl.
    case_decide; [|done]. simpl. by rewrite lookup_insert_ne.
  - by apply register_Return in Hreg as [_ ?].
Qed.

Lemma register_keeps_other_entries_witness :
  ∃ reg',
    ObjectMiddleware.registerGlobal "Point" (VStr "Point")
      Example.point_serializer Example.registry = Return tt reg' ∧
    ObjectMiddleware.serializers reg' !! ("Array" : Constructor) =
      ObjectMiddleware.serializers Example.registry !! ("Array" : Constructor) ∧
    ObjectMiddleware.globalSerializers reg' !! VNull =
      Some (plainObjectSerializer (Env := Example.env)).
Proof.
  eexists. split; [reflexivity|].
  destruct (register_keeps_other_entries Example.registry "Point"
              ObjectMiddleware.GLOBAL_SERIALIZER_REQUEST (VStr "Point")
              Example.point_serializer _ eq_refl) as (Hother & Hkept & _).
  split.
  - by apply Hother.
  - by apply Hkept.
Defined.

(** X2.  In every registry a process can reach from the maps of the
    module by calls of [register], the header [serialize] writes for an
    object of a globally registered type is resolved by [deserialize] to
    the capability that wrote it. *)
Theorem global_header_resolves {E : Env}
    (reg : ObjectMiddleware.registry) (h : heap) (item : value)
    (cfg : ObjectMiddleware.config) :
  reachable reg →
  ObjectMiddleware.getSerializerFor reg h item = inr cfg →
  ObjectMiddleware.request cfg = ObjectMiddleware.GLOBAL_SERIALIZER_REQUEST →
  ObjectMiddleware.resolve reg (ObjectMiddleware.request cfg)
    (ObjectMiddleware.exportName cfg) =
  inr (ObjectMiddleware.serializer cfg).
Proof.
  intros [_ Hagree]%reachable_globals_agree Hcfg Hglobal.
  unfold ObjectMiddleware.getSerializerFor in Hcfg.
  destruct item as [| | | | |a|]; try done.
  destruct (h !! a) as [cl|]; [|done].
  destruct (ObjectMiddleware.serializers reg !! constructor_of cl)
    as [cfg'|] eqn:Hc; [|done].
  injection Hcfg as <-.
  unfold ObjectMiddleware.resolve.
  rewrite bool_decide_eq_true_2 by done.
  by rewrite (Hagree _ _ Hc Hglobal).
Qed.

Lemma global_header_resolves_witness :
  ∃ reg,
    ObjectMiddleware.registerGlobal "Point" (VStr "Point")
      Example.point_serializer (ObjectMiddleware.initial (E := Example.env)) =
      Return tt reg ∧
    ObjectMiddleware.resolve (E := Example.env) reg VNull (VStr "Point") =
      inr Example.point_serializer.
Proof.
  eexists. split; [reflexivity|].
  apply (global_header_resolves (E := Example.env) _ Example.heap1 (VRef 0%nat)
           {| ObjectMiddleware.request := VNull;
              ObjectMiddleware.exportName := VStr "Point";
              ObjectMiddleware.serializer := Example.point_serializer |}).
  - apply (reachable_register (E := Example.env)
             (ObjectMiddleware.initial (E := Example.env)) "Point" VNull
             (VStr "Point") Example.point_serializer);
      [apply reachable_initial|reflexivity].
  - reflexivity.
  - reflexivity.
Defined.

(** X3.  The global name [null] belongs to the capability of plain
    objects from the start, and stays taken: in every registry a process
    can reach, a global registration without a name throws and leaves the
    registry as it was.  So does the helper that registers a field-list
    capability, which passes no export name, when it is given the global
    request. *)
Theorem null_name_reserved {E : Env}
    (reg : ObjectMiddleware.registry) (C : Constructor) (s : ObjectSerializer)
    (properties : list string) (onRestored : option (value → heap → heap)) :
  reachable reg →
  let e := Error "ObjectMiddleware.register: global serializer with this name (null) is already registered" in
  ObjectMiddleware.registerGlobal C VNull s reg = Throw e reg ∧
  register_PropertiesSerializer C ObjectMiddleware.GLOBAL_SERIALIZER_REQUEST
    properties onRestored reg = Throw e reg.
Proof.
  intros [Hnull _]%reachable_globals_agree e.
  unfold register_PropertiesSerializer, ObjectMiddleware.registerGlobal.
  by rewrite !register_global_taken.
Qed.

Lemma null_name_reserved_witness :
  ∃ e,
    register_PropertiesSerializer "Point" VNull ["x"; "y"] None
      Example.registry = Throw e Example.registry.
Proof.
  eexists.
  apply (null_name_reserved (E := Example.env) Example.registry "Point"
           Example.point_serializer ["x"; "y"] None).
  eapply reachable_register; [apply reachable_initial|].
  apply example_registry_registered.
Defined.

(** X4.  Registering a field-list capability through the helper, under
    the name of a module, always returns.  From then on [serialize] writes
    the header [(request, null)] for the instances of the type, and
    [deserialize] resolves that header to the capability when the module
    exports the class itself.  The helper passes no export name: when the
    module exports the class under a name, the header resolves to an
    [Error] of the codec; when the module cannot be loaded, to what
    [require] throws. *)
Theorem register_properties_resolves {E : Env}
    (reg : ObjectMiddleware.registry) (C : Constructor) (r : string)
    (properties : list string) (onRestored : option (value → heap → heap)) :
  let cap := PropertiesSerializer C properties onRestored in
  ∃ reg',
    register_PropertiesSerializer C (VStr r) properties onRestored reg =
      Return tt reg' ∧
    (∀ h a P, h !! a = Some (Instance_ C P) →
       ObjectMiddleware.getSerializerFor reg' h (VRef a) =
       inr (ObjectMiddleware.Build_config (VStr r) VNull cap)) ∧
    (require r = Some (ModuleClass C) →
       ObjectMiddleware.resolve reg' (VStr r) VNull = inr cap) ∧
    (∀ exports, require r = Some (ModuleNamespace exports) →
       ∃ msg, ObjectMiddleware.resolve reg' (VStr r) VNull = inl (Error msg)) ∧
    (require r = None →
       ObjectMiddleware.resolve reg' (VStr r) VNull = inl (require_error r)).
Proof.
  intros cap. eexists. unfold register_PropertiesSerializer.
  rewrite register_request by done.
  split; [done|]. split; [|split; [|split]].
  - intros h a P Ha. unfold ObjectMiddleware.getSerializerFor. rewrite Ha.
    simpl. by rewrite lookup_insert_eq.
  - intros Hr. unfold ObjectMiddleware.resolve. simpl. rewrite Hr.
    simpl. by rewrite lookup_insert_eq.
  - intros exports Hr. unfold ObjectMiddleware.resolve. simpl. rewrite Hr.
    eauto.
  - intros Hr. unfold ObjectMiddleware.resolve. simpl. by rewrite Hr.
Qed.

(** X5.  Loading the module that builds the serializer of the cache, in a
    process where neither of its two global names is bound, returns: the
    instances of [CachedSource] and of [RawSource] get a global header
    under their names, each name resolves to its capability, and the
    entries of all other types are as they were.  Loading it again throws
    at the first registration and changes nothing. *)
Theorem register_sources_once {E : Env}
    (reg : ObjectMiddleware.registry) (cs rs : ObjectSerializer) :
  ObjectMiddleware.globalSerializers reg
    !! VStr "webpack-source/CachedSource" = None →
  ObjectMiddleware.globalSerializers reg
    !! VStr "webpack-source/RawSource" = None →
  ∃ reg',
    register_sources cs rs reg = Return tt reg' ∧
    ObjectMiddleware.serializers reg' !! ("CachedSource" : Constructor) =
      Some (ObjectMiddleware.Build_config VNull
              (VStr "webpack-source/CachedSource") cs) ∧
    ObjectMiddleware.serializers reg' !! ("RawSource" : Constructor) =
      Some (ObjectMiddleware.Build_config VNull
              (VStr "webpack-source/RawSource") rs) ∧
    ObjectMiddleware.resolve reg' VNull (VStr "webpack-source/CachedSource") =
      inr cs ∧
    ObjectMiddleware.resolve reg' VNull (VStr "webpack-source/RawSource") =
      inr rs ∧
    (∀ C, C ≠ "CachedSource" → C ≠ "RawSource" →
       ObjectMiddleware.serializers reg' !! C =
       ObjectMiddleware.serializers reg !! C) ∧
    (∀ cs' rs',
       register_sources cs' rs' reg' =
       Throw (Error "ObjectMiddleware.register: global serializer with this name (webpack-source/CachedSource) is already registered")
             reg').
Proof.
  intros Hcs Hrs. eexists. unfold register_sources, ObjectMiddleware.registerGlobal.
  unfold bind at 1. rewrite register_global_fresh by done.
  rewrite register_global_fresh by (simpl; by rewrite lookup_insert_ne).
  split; [done|]. split; [|split; [|split; [|split; [|split]]]].
  - simpl. by rewrite lookup_insert_ne, lookup_insert_eq.
  - simpl. by rewrite lookup_insert_eq.
  - unfold ObjectMiddleware.resolve. simpl.
    by rewrite lookup_insert_ne, lookup_insert_eq.
  - unfold ObjectMiddleware.resolve. simpl. by rewrite lookup_insert_eq.
  - intros C H1 H2. simpl. by rewrite !lookup_insert_ne.
  - intros cs' rs'. unfold bind at 1. rewrite register_global_taken; [done|].
    simpl. rewrite lookup_insert_ne by done. rewrite lookup_insert_eq. eauto.
Qed.

Lemma register_sources_once_witness :
  ∃ reg',
    register_sources Example.point_serializer Example.point_serializer
      Example.registry = Return tt reg' ∧
    ObjectMiddleware.resolve (E := Example.env) reg' VNull
      (VStr "webpack-source/RawSource") = inr Example.point_serializer.
Proof.
  destruct (register_sources_once (E := Example.env) Example.registry
              Example.point_serializer Example.point_serializer)
    as (reg' & Hload & _ & _ & _ & Hrs & _).
  - reflexivity.
  - reflexivity.
  - by exists reg'.
Defined.

(** * Sequences without objects *)

Section primitive_items.
Import ObjectMiddleware.
Context {E : Env} (reg : registry).

Lemma strings_of_app (l1 l2 : list value) :
strings_of (l1 ++ l2) = strings_of l1 ++ strings_of l2.
Proof. apply omap_app. Qed.

Lemma elem_of_strings_of (str : string) (l : list value) :
str ∈ strings_of l ↔ VStr str ∈ l.
Proof.
unfold strings_of. rewrite list_elem_of_omap. split.
- intros (v & Hv & Hs). destruct v; try done. by injection Hs as ->.
- intros Hin. by exists (VStr str).
Qed.

Lemma strings_registered_init (h : heap) : strings_registered (wstate_init h).
Proof.
split; [constructor|]. intros k. simpl. rewrite lookup_empty. split.
- by intros [? ?].
- intros (str & _ & Hin). by apply elem_of_nil in Hin.
Qed.

Lemma strings_registered_pushed (items : list value) (s : wstate) :
strings_of items = [] →
strings_registered s → strings_registered (pushed items s).
Proof.
intros Hnone [Hnodup Hkeys]. unfold strings_registered. simpl.
by rewrite strings_of_app, Hnone, app_nil_r.
Qed.

Lemma strings_registered_miss (item : value) (s : wstate) :
strings_registered s →
(∀ str, item ≠ VStr str) →
wr_referenceable s !! item = None.
Proof.
intros [_ Hkeys] Hne.
destruct (wr_referenceable s !! item) as [p|] eqn:Hp; [|done].
destruct (proj1 (Hkeys item)) as (str & -> & _); [eauto|].
by destruct (Hne str).
Qed.

Lemma process_function rec (f : nat) (ws : list wrapper) (s : wstate) :
wr_referenceable s !! VFun f ws = None →
process_body reg rec (VFun f ws) s =
Return tt (pushed [VFun f (SerializeWrap :: ws)] s).
Proof.
intros Hnone. unfold process_body, bind, gets. by rewrite Hnone.
Qed.

Lemma decodeValue_function (data : list value) rec (f : nat)
  (ws : list wrapper) (s : rstate) :
data !! rd_currentDataPos s = Some (VFun f ws) →
decodeValue_body reg data rec s =
Return (VFun f (DeserializeWrap :: ws)) (advance 1 s).
Proof.
intros H0. unfold decodeValue_body, bind, read. by rewrite H0.
Qed.

(** [process] on an item that is no object: a back-reference, an escaped
  [null], the string, now registered, the function under its handler, or
  the value as it is. *)
Lemma process_flat rec (item : value) (s : wstate) :
is_flat item = true →
strings_registered s →
∃ s',
  process_body reg rec item s = Return tt s' ∧
  wr_heap s' = wr_heap s ∧
  strings_registered s' ∧
  (length (wr_result s) < length (wr_result s') ≤ length (wr_result s) + 2)%nat ∧
  (∀ str, str ∈ strings_of (wr_result s') ↔
          str ∈ strings_of (wr_result s) ∨ item = VStr str).
Proof.
intros Hflat Hreg.
destruct (wr_referenceable s !! item) as [ref|] eqn:Href.
- eexists. split; [by apply process_reference|].
  destruct (proj1 (proj2 Hreg item)) as (str & -> & Hin); [eauto|].
  split; [done|]. split; [by apply strings_registered_pushed|].
  simpl. rewrite length_app, strings_of_app, app_nil_r. simpl.
  split; [lia|]. intros str'. split; [by left|].
  intros [?|[= <-]]; done.
- destruct item as [| |b|n|str| |f ws]; try done.
  + eexists. split; [by apply process_plain|].
    split; [done|]. split; [by apply strings_registered_pushed|].
    simpl. rewrite length_app, strings_of_app, app_nil_r. simpl.
    split; [lia|]. intros str'. split; [by left|]. by intros [?|?].
  + eexists. split; [by apply process_escape|].
    split; [done|]. split; [by apply strings_registered_pushed|].
    simpl. rewrite length_app, strings_of_app, app_nil_r. simpl.
    split; [lia|]. intros str'. split; [by left|]. by intros [?|?].
  + eexists. split; [by apply process_plain|].
    split; [done|]. split; [by apply strings_registered_pushed|].
    simpl. rewrite length_app, strings_of_app, app_nil_r. simpl.
    split; [lia|]. intros str'. split; [by left|]. by intros [?|?].
  + eexists. split; [by apply process_plain|].
    split; [done|]. split; [by apply strings_registered_pushed|].
    simpl. rewrite length_app, strings_of_app, app_nil_r. simpl.
    split; [lia|]. intros str'. split; [by left|]. by intros [?|?].
  + eexists. split; [by apply process_string|].
    destruct Hreg as [Hnodup Hkeys].
    assert (str ∉ strings_of (wr_result s)) as Hfresh.
    { intros Hin. destruct (proj2 (Hkeys (VStr str))) as [p Hp]; [eauto|].
      congruence. }
    split; [done|]. split.
    * split; simpl; rewrite strings_of_app; simpl.
      { apply NoDup_app. split; [done|]. split; [|apply NoDup_singleton].
        intros x Hx ->%list_elem_of_singleton. done. }
      intros k. rewrite lookup_insert. case_decide as Hk.
      { subst k. split; [|eauto]. intros _. exists str. split; [done|].
        apply elem_of_app. right. by apply list_elem_of_singleton. }
      rewrite Hkeys. split.
      { intros (str' & -> & Hin). exists str'. split; [done|].
        apply elem_of_app. by left. }
      intros (str' & -> & [Hin| ->%list_elem_of_singleton]%elem_of_app);
        [eauto|done].
    * simpl. rewrite length_app, strings_of_app. simpl. split; [lia|].
      intros str'. rewrite elem_of_app, list_elem_of_singleton.
      split; intros [?|?]; eauto; right; congruence.
  + eexists. split; [by apply process_function|].
    split; [done|]. split; [by apply strings_registered_pushed|].
    simpl. rewrite length_app, strings_of_app, app_nil_r. simpl.
    split; [lia|]. intros str'. split; [by left|]. by intros [?|?].
Qed.

Lemma process_all_app fuel (items1 items2 : list value) (s : wstate) :
process_all reg fuel (items1 ++ items2) s =
(process_all reg fuel items1 ;; process_all reg fuel items2) s.
Proof.
revert s. induction items1 as [|item items1 IH]; intros s; simpl.
- done.
- unfold bind.
  destruct (process reg fuel item s) as [[] s1| |]; [|done|done].
  apply IH.
Qed.

Lemma process_all_flat fuel (items : list value) (s : wstate) :
forallb is_flat items = true →
strings_registered s →
∃ s',
  process_all reg (S fuel) items s = Return tt s' ∧
  wr_heap s' = wr_heap s ∧
  strings_registered s' ∧
  (length (wr_result s) + length items ≤ length (wr_result s')
   ≤ length (wr_result s) + 2 * length items)%nat ∧
  (∀ str, str ∈ strings_of (wr_result s') ↔
          str ∈ strings_of (wr_result s) ∨ VStr str ∈ items).
Proof.
revert s. induction items as [|item items IH]; intros s Hflat Hreg.
- exists s. split; [done|]. split; [done|]. split; [done|].
  simpl. split; [lia|]. intros str. split; [by left|].
  intros [?|Hin]; [done|]. by apply elem_of_nil in Hin.
- simpl in Hflat. apply andb_true_iff in Hflat as [Hitem Hitems].
  destruct (process_flat (process reg fuel) item s Hitem Hreg)
    as (s1 & Hp & Hh1 & Hreg1 & Hlen1 & Hstr1).
  destruct (IH s1 Hitems Hreg1) as (s' & Hrest & Hh' & Hreg' & Hlen' & Hstr').
  exists s'. split.
  { simpl. unfold bind at 1. by rewrite Hp. }
  split; [congruence|]. split; [done|]. split; [simpl; lia|].
  intros str. rewrite Hstr', Hstr1, elem_of_cons. split.
  + intros [[?|?]|?]; auto.
  + intros [?|[?|?]]; auto.
Qed.

(** [decodeValue] on what [process] wrote for an item that is no object. *)
Lemma sim_flat (hw : heap) (data : list value) rec rec' (item : value)
  (sw sw' : wstate) (sr : rstate) :
is_flat item = true →
sim_inv hw sw sr →
process_body reg rec item sw = Return tt sw' →
wr_result sw' `prefix_of` data →
∃ sr',
  decodeValue_body reg data rec' sr = Return (restored item) sr' ∧
  sim_inv hw sw' sr' ∧
  rd_heap sr' = rd_heap sr.
Proof.
intros Hflat Hinv Hp Hpre.
destruct (wr_referenceable sw !! item) as [ref|] eqn:Href.
- rewrite (process_reference reg rec item ref) in Hp by done.
  injection Hp as <-.
  destruct (sim_reference reg hw data rec' item ref sw sr Hinv Href Hpre)
    as (v' & Hdec & Hinv' & Hrel).
  destruct Hinv as (_ & _ & _ & _ & Ht & _).
  destruct (Ht item ref Href) as [_ Hent].
  assert (v' = restored item) as -> by (by destruct item).
  by exists (advance 2 sr).
- destruct item as [| |b|n|str| |f ws]; try done.
  + rewrite process_plain in Hp by done. injection Hp as <-.
    exists (advance 1 sr). split; [|split; [|done]].
    * apply decodeValue_plain; [done|].
      apply (data_at_cursor hw data sw sr [VUndefined] 0 _ Hinv Hpre eq_refl).
    * by apply (sim_inv_pushed hw sw sr [VUndefined]).
  + rewrite process_escape in Hp by done. injection Hp as <-.
    exists (advance 2 sr). split; [|split; [|done]].
    * apply decodeValue_escape.
      -- apply (data_at_cursor hw data sw sr [ESCAPE; ESCAPE_ESCAPE_VALUE] 0 _
                  Hinv Hpre eq_refl).
      -- apply (data_at_cursor hw data sw sr [ESCAPE; ESCAPE_ESCAPE_VALUE] 1 _
                  Hinv Hpre eq_refl).
    * by apply (sim_inv_pushed hw sw sr [ESCAPE; ESCAPE_ESCAPE_VALUE]).
  + rewrite process_plain in Hp by done. injection Hp as <-.
    exists (advance 1 sr). split; [|split; [|done]].
    * apply decodeValue_plain; [done|].
      apply (data_at_cursor hw data sw sr [VBool b] 0 _ Hinv Hpre eq_refl).
    * by apply (sim_inv_pushed hw sw sr [VBool b]).
  + rewrite process_plain in Hp by done. injection Hp as <-.
    exists (advance 1 sr). split; [|split; [|done]].
    * apply decodeValue_plain; [done|].
      apply (data_at_cursor hw data sw sr [VNum n] 0 _ Hinv Hpre eq_refl).
    * by apply (sim_inv_pushed hw sw sr [VNum n]).
  + rewrite process_string in Hp by done. injection Hp as <-.
    exists (advance 1 (registered' (VStr str) sr)). split; [|split; [|done]].
    * apply decodeValue_string.
      assert (sim_inv hw (registered (VStr str) sw) (registered' (VStr str) sr))
        as Hinv1 by (by apply sim_inv_registered).
      apply (data_at_cursor hw data _ _ [VStr str] 0 _ Hinv1 Hpre eq_refl).
    * by apply (sim_string (λ _, 0%nat) hw str sw sr).
  + rewrite process_function in Hp by done. injection Hp as <-.
    exists (advance 1 sr). split; [|split; [|done]].
    * apply decodeValue_function.
      apply (data_at_cursor hw data sw sr [VFun f (SerializeWrap :: ws)] 0 _
               Hinv Hpre eq_refl).
    * by apply (sim_inv_pushed hw sw sr [VFun f (SerializeWrap :: ws)]).
Qed.

Lemma sim_all_flat (hw : heap) (data : list value) fuel fuel'
  (items : list value) (sw sw' : wstate) (sr : rstate)
  (result : list value) (n : nat) :
forallb is_flat items = true →
sim_inv hw sw sr →
process_all reg (S fuel) items sw = Return tt sw' →
wr_result sw' = data →
(length items ≤ n)%nat →
∃ sr',
  decode_all reg data n (S fuel') result sr =
    Return (result ++ (restored <$> items)) sr' ∧
  rd_heap sr' = rd_heap sr.
Proof.
revert sw sr result n.
induction items as [|item items IH]; intros sw sr result n Hflat Hinv Hp Hdata Hn.
- injection Hp as <-. exists sr. split; [|done].
  simpl. rewrite app_nil_r. apply decode_all_done.
  destruct Hinv as (_ & Hd & _). rewrite Hd, Hdata. done.
- simpl in Hflat. apply andb_true_iff in Hflat as [Hitem Hitems].
  simpl in Hp. unfold bind in Hp.
  destruct (process_body reg (process reg fuel) item sw) as [[] sw1| |] eqn:Hp1;
    try done.
  pose proof (process_all_result_prefix _ _ _ _ _ Hp) as Hpre.
  rewrite Hdata in Hpre.
  destruct (sim_flat hw data _ (decodeValue reg data fuel') item sw sw1 sr
              Hitem Hinv Hp1 Hpre) as (sr1 & Hdec & Hinv1 & Hh1).
  destruct n as [|n]; [simpl in Hn; lia|].
  destruct (IH sw1 sr1 (result ++ [restored item]) n Hitems Hinv1 Hp Hdata)
    as (sr' & Hloop & Hh'); [simpl in Hn; lia|].
  exists sr'. split; [|congruence].
  change (decodeValue_body reg data (decodeValue reg data fuel') sr)
    with (decodeValue reg data (S fuel') sr) in Hdec.
  rewrite decode_all_step.
  + unfold bind. rewrite Hdec, Hloop. by rewrite <- app_assoc.
  + pose proof (decodeValue_cursor_lt _ _ _ _ _ _ Hdec) as Hlt.
    destruct Hinv1 as (_ & Hd1 & _). apply prefix_length in Hpre. lia.
Qed.

Lemma sim_inv_init (h hr : heap) : sim_inv h (wstate_init h) (rstate_init hr).
Proof.
split; [done|]. split; [done|]. split; [done|]. split; [done|]. split.
- intros k p. simpl. by rewrite lookup_empty.
- intros p v'. simpl. by rewrite lookup_empty.
Qed.

Lemma roundtrip_flat fuel (data : list value) (context context' : value)
  (h hr : heap) :
forallb is_flat data = true →
∃ out,
  serialize reg (S fuel) data context h = Return out h ∧
  deserialize reg out context' hr = Return (restored <$> data) hr ∧
  NoDup (strings_of out) ∧
  (∀ str, str ∈ strings_of out ↔ VStr str ∈ data) ∧
  (length data ≤ length out ≤ 2 * length data)%nat.
Proof.
intros Hflat.
destruct (process_all_flat fuel data (wstate_init h) Hflat
            (strings_registered_init h))
  as (sw' & Hp & Hh' & [Hnodup _] & Hlen & Hstr).
destruct (sim_all_flat h (wr_result sw') fuel 0 data (wstate_init h) sw'
            (rstate_init hr) [] (length data) Hflat (sim_inv_init h hr) Hp
            eq_refl (le_n _)) as (sr' & Hdec & Hhr).
exists (wr_result sw'). split; [|split; [|split; [|split]]].
- unfold serialize. by rewrite Hp, Hh'.
- rewrite (deserialize_decode_all reg _ (length data) 1) by (by rewrite Hdec).
  by rewrite Hdec, Hhr.
- done.
- intros str. rewrite Hstr. simpl. split; [|by right].
  intros [Hin|?]; [|done]. by apply elem_of_nil in Hin.
- simpl in Hlen. lia.
Qed.

Lemma is_primitive_flat (data : list value) :
forallb is_primitive data = true →
forallb is_flat data = true ∧ restored <$> data = data.
Proof.
induction data as [|v data IH]; [done|]. rewrite fmap_cons. simpl.
intros [Hv [Hflat Hid]%IH]%andb_true_iff. rewrite Hflat, Hid.
by destruct v.
Qed.
End primitive_items.

(** X6.  A sequence without objects survives the round trip, in any
    registry and any heap: [serialize] returns, and [deserialize] of what
    it returned gives back every [undefined], [null], boolean, number and
    string as it was, repeated strings included, and every function under
    the two handlers, the one of [deserialize] outermost.  Neither call
    changes its heap.  A sequence of primitives comes back equal. *)
Theorem flat_sequence_roundtrip {E : Env}
    (reg : ObjectMiddleware.registry) (fuel : nat) (data : list value)
    (context context' : value) (h hr : heap) :
  forallb is_flat data = true →
  ∃ out,
    ObjectMiddleware.serialize reg (S fuel) data context h = Return out h ∧
    ObjectMiddleware.deserialize reg out context' hr =
      Return (restored <$> data) hr ∧
    (forallb is_primitive data = true → restored <$> data = data).
Proof.
  intros Hflat.
  destruct (roundtrip_flat reg fuel data context context' h hr Hflat)
    as (out & Hser & Hdes & _).
  exists out. split; [done|]. split; [done|].
  by intros [_ ?]%is_primitive_flat.
Qed.

Lemma flat_sequence_roundtrip_witness :
  ∃ out,
    ObjectMiddleware.serialize (E := Example.env) Example.registry 1
      [VStr "a"; VNull; VStr "a"; VNum 1; VFun 0 []]
      VUndefined Example.heap1 = Return out Example.heap1 ∧
    ObjectMiddleware.deserialize (E := Example.env) Example.registry out
      VUndefined ∅ =
    Return [VStr "a"; VNull; VStr "a"; VNum 1;
            VFun 0 [DeserializeWrap; SerializeWrap]] ∅.
Proof.
  destruct (flat_sequence_roundtrip (E := Example.env) Example.registry 0
              [VStr "a"; VNull; VStr "a"; VNum 1; VFun 0 []]
              VUndefined VUndefined Example.heap1 ∅ eq_refl)
    as (out & Hser & Hdes & _).
  by exists out.
Defined.

(** X7.  In the stream [serialize] writes for a sequence without objects
    no string occurs twice: the strings among the items of the stream are
    the distinct strings of the sequence, each written once, every later
    occurrence being a back-reference.  Each item of the sequence takes
    one or two items of the stream. *)
Theorem flat_stream_strings_once {E : Env}
    (reg : ObjectMiddleware.registry) (fuel : nat) (data : list value)
    (context : value) (h : heap) :
  forallb is_flat data = true →
  ∃ out,
    ObjectMiddleware.serialize reg (S fuel) data context h = Return out h ∧
    NoDup (strings_of out) ∧
    (∀ str, str ∈ strings_of out ↔ VStr str ∈ data) ∧
    (length data ≤ length out ≤ 2 * length data)%nat.
Proof.
  intros Hflat.
  destruct (roundtrip_flat reg fuel data context VUndefined h h Hflat)
    as (out & Hser & _ & Hnodup & Hstr & Hlen).
  by exists out.
Qed.

Lemma flat_stream_strings_once_witness :
  ∃ out,
    ObjectMiddleware.serialize (E := Example.env) Example.registry 1
      [VStr "a"; VStr "b"; VStr "a"] VUndefined ∅ = Return out ∅ ∧
    NoDup (strings_of out) ∧
    (length out ≤ 6)%nat.
Proof.
  destruct (flat_stream_strings_once (E := Example.env) Example.registry 0
              [VStr "a"; VStr "b"; VStr "a"] VUndefined ∅ eq_refl)
    as (out & Hser & Hnodup & _ & Hlen).
  exists out. split; [done|]. split; [done|]. simpl in Hlen. lia.
Defined.

Section unregistered.
Import ObjectMiddleware.
Context {E : Env} (reg : registry).

Lemma process_unregistered rec (a : addr) (cl : cell) (s : wstate) :
wr_heap s !! a = Some cl →
serializers reg !! constructor_of cl = None →
wr_referenceable s !! VRef a = None →
process_body reg rec (VRef a) s =
Throw (Error ("No serializer registered for " +:+ constructor_of cl)) s.
Proof.
intros Ha Hreg Hnone. unfold process_body.
unfold bind at 1. unfold gets at 1. rewrite Hnone. simpl.
unfold bind at 1. unfold gets at 1. unfold bind at 1.
rewrite Ha. cbn zeta. by rewrite Hreg.
Qed.
End unregistered.

(** X8.  [serialize] throws at the first object whose constructor has no
    entry in [serializers], with a message that names the constructor:
    whatever follows the object in the data, nothing is returned, and the
    heap is as it was. *)
Theorem serialize_unregistered_class {E : Env}
    (reg : ObjectMiddleware.registry) (fuel : nat)
    (before : list value) (a : addr) (cl : cell) (after : list value)
    (context : value) (h : heap) :
  forallb is_flat before = true →
  h !! a = Some cl →
  ObjectMiddleware.serializers reg !! constructor_of cl = None →
  ObjectMiddleware.serialize reg (S fuel) (before ++ VRef a :: after) context h =
  Throw (Error ("No serializer registered for " +:+ constructor_of cl)) h.
Proof.
  intros Hflat Ha Hreg.
  destruct (process_all_flat reg fuel before (ObjectMiddleware.wstate_init h)
              Hflat (strings_registered_init h))
    as (s1 & Hp & Hh1 & Hstrings & _).
  unfold ObjectMiddleware.serialize.
  rewrite process_all_app. unfold bind at 1. rewrite Hp.
  simpl. unfold bind at 1.
  rewrite (process_unregistered reg _ a cl).
  - by rewrite Hh1.
  - by rewrite Hh1.
  - done.
  - by apply strings_registered_miss.
Qed.

Lemma serialize_unregistered_class_witness :
  ObjectMiddleware.serialize (E := Example.env)
    (ObjectMiddleware.initial (E := Example.env)) 1
    [VNum 1; VRef 0%nat; VNum 2] VUndefined Example.heap1 =
  Throw (Error "No serializer registered for Point") Example.heap1.
Proof.
  apply (serialize_unregistered_class (E := Example.env)
           (ObjectMiddleware.initial (E := Example.env)) 0 [VNum 1] 0%nat Example.point [VNum 2]
           VUndefined Example.heap1); reflexivity.
Defined.

(** * What [deserialize] does with any stream *)

Section any_stream.
Import ObjectMiddleware.
Context {E : Env} (reg : registry) (data : list value).

(** Every value of the result took at least one item of the stream. *)
Lemma decode_all_count (n fuel : nat) (result : list value) (s : rstate)
  (vs : list value) (s' : rstate) :
decode_all reg data n fuel result s = Return vs s' →
(length vs + rd_currentDataPos s ≤ length result + rd_currentDataPos s')%nat ∧
((rd_currentDataPos s ≤ length data)%nat →
 (rd_currentDataPos s' ≤ length data)%nat).
Proof.
revert result s. induction n as [|n IH]; intros result s; simpl.
- case_bool_decide; [done|]. by intros [= <- <-].
- case_bool_decide as Hlt; [|by intros [= <- <-]].
  unfold bind. destruct (decodeValue reg data fuel s) as [v s1| |] eqn:Hd;
    try done.
  intros [Hcount Hbound]%IH.
  pose proof (decodeValue_cursor_lt _ _ _ _ _ _ Hd) as Hcur.
  pose proof (decodeValue_cursor_bound _ _ _ _ _ _ Hd) as Hb1.
  rewrite length_app in Hcount. simpl in Hcount.
  split; [lia|]. auto.
Qed.

(** An object header that names no capability: the exception of the
  lookup leaves [decodeValue], after the three items of the header. *)
Lemma decodeValue_unresolved rec (req exp : value) (e : exn) (s : rstate) :
data !! rd_currentDataPos s = Some ESCAPE →
data !! Datatypes.S (rd_currentDataPos s) = Some req →
data !! Datatypes.S (Datatypes.S (rd_currentDataPos s)) = Some exp →
(∀ n, req ≠ VNum n) →
resolve reg req exp = inl e →
decodeValue_body reg data rec s = Throw e (advance 3 s).
Proof.
intros H0 H1 H2 Hnum He. unfold decodeValue_body.
unfold bind at 1. unfold read at 1. rewrite H0. simpl.
unfold bind at 1. unfold read at 1. simpl. rewrite H1.
rewrite bool_decide_eq_false_2 by (intros ->; by destruct (Hnum 1)).
destruct req as [| |b|n|str|a|f ws]; try (by destruct (Hnum n));
  lazy beta iota;
  unfold bind at 1; unfold read at 1; cbn [rd_currentDataPos]; rewrite H2;
  unfold bind at 1; rewrite He; done.
Qed.
End any_stream.

(** X9.  [deserialize] ends on every stream, by returning or by throwing,
    and a value it returns never has more elements than the stream has
    items: every decoded value has taken at least one item, and no [read]
    goes past the end.  On the empty stream it returns the empty array. *)
Theorem deserialize_consumes_items {E : Env}
    (reg : ObjectMiddleware.registry) (data : list value)
    (context : value) (h : heap) :
  ((∃ vs h',
      ObjectMiddleware.deserialize reg data context h = Return vs h' ∧
      (length vs ≤ length data)%nat) ∨
   (∃ e h', ObjectMiddleware.deserialize reg data context h = Throw e h')) ∧
  ObjectMiddleware.deserialize reg [] context h = Return [] h.
Proof.
  split; [|done].
  pose proof (deserialize_total reg data context h) as Htotal.
  unfold ObjectMiddleware.deserialize in *.
  destruct (ObjectMiddleware.decode_all reg data (length data)
              (S (length data)) [] (ObjectMiddleware.rstate_init h))
    as [vs s'|e s'|] eqn:Hloop; [| |done].
  - left. exists vs, (ObjectMiddleware.rd_heap s'). split; [done|].
    destruct (decode_all_count reg data _ _ _ _ _ _ Hloop) as [Hcount Hbound].
    simpl in Hcount, Hbound. lia.
  - right. eauto.
Qed.

(** X10.  An object header that names no capability ends [deserialize]
    with an exception, whatever follows it in the stream, and leaves the
    heap as it was: a global header under a name without entry in
    [globalSerializers] with a [TypeError], as the capability looked up is
    [undefined]; the header of a module that exports a class without entry
    in [serializers] with an [Error] that names the class; the header of a
    module that cannot be loaded with the exception of [require]; and a
    header whose request is neither [null] nor a string, which no
    [serialize] writes, with the [TypeError] of [require]. *)
Theorem unknown_header_rejected {E : Env}
    (reg : ObjectMiddleware.registry) (rest : list value)
    (context : value) (h : heap) :
  (∀ name,
     ObjectMiddleware.globalSerializers reg !! name = None →
     ∃ msg,
       ObjectMiddleware.deserialize reg
         (ObjectMiddleware.ESCAPE :: ObjectMiddleware.GLOBAL_SERIALIZER_REQUEST
            :: name :: rest) context h =
       Throw (TypeError msg) h) ∧
  (∀ r C exp,
     require r = Some (ModuleClass C) →
     truthy exp = false →
     ObjectMiddleware.serializers reg !! C = None →
     ObjectMiddleware.deserialize reg
       (ObjectMiddleware.ESCAPE :: VStr r :: exp :: rest) context h =
     Throw (Error ("No deserializer registered for " +:+ C)) h) ∧
  (∀ r exp,
     require r = None →
     ∃ e,
       ObjectMiddleware.deserialize reg
         (ObjectMiddleware.ESCAPE :: VStr r :: exp :: rest) context h =
       Throw e h) ∧
  (∀ req exp,
     req ≠ VNull → (∀ n, req ≠ VNum n) → (∀ r, req ≠ VStr r) →
     ∃ msg,
       ObjectMiddleware.deserialize reg
         (ObjectMiddleware.ESCAPE :: req :: exp :: rest) context h =
       Throw (TypeError msg) h).
Proof.
  assert (∀ req exp e,
    (∀ n, req ≠ VNum n) →
    ObjectMiddleware.resolve reg req exp = inl e →
    ObjectMiddleware.deserialize reg
      (ObjectMiddleware.ESCAPE :: req :: exp :: rest) context h =
    Throw e h) as Hthrow.
  { intros req exp e Hnum He.
    set (data := ObjectMiddleware.ESCAPE :: req :: exp :: rest).
    assert (ObjectMiddleware.decode_all reg data 1 1 []
              (ObjectMiddleware.rstate_init h) =
            Throw e (advance 3 (ObjectMiddleware.rstate_init h))) as Hloop.
    { rewrite decode_all_step by (simpl; lia). unfold bind.
      simpl ObjectMiddleware.decodeValue.
      by rewrite (decodeValue_unresolved reg data _ req exp e). }
    rewrite (deserialize_decode_all reg data 1 1) by (by rewrite Hloop).
    by rewrite Hloop. }
  split; [|split; [|split]].
  - intros name Hname. eexists. apply Hthrow; [done|].
    unfold ObjectMiddleware.resolve. simpl. by rewrite Hname.
  - intros r C exp Hr Hexp HC. apply Hthrow; [done|].
    unfold ObjectMiddleware.resolve. simpl. by rewrite Hr, Hexp, HC.
  - intros r exp Hr. eexists. apply Hthrow; [done|].
    unfold ObjectMiddleware.resolve. simpl. by rewrite Hr.
  - intros req exp Hnull Hnum Hstr.
    destruct req as [| |b|n|r|a|f ws];
      try done; try (by destruct (Hnum n)); try (by destruct (Hstr r));
      eexists; by apply Hthrow.
Qed.

(** * How a failure of a middleware reaches the caller *)

Section pipeline_errors.
Import Serializer.
Context {A B : Type} (call : B → A → completion A).

Lemma fold_step_Thrown (stages : list B) (e : exn) :
fold_left (λ last m, step (call m) last) stages (Thrown e) = Thrown e.
Proof. induction stages as [|m stages IH]; [done|]. simpl. apply IH. Qed.

Lemma fold_step_Rejected (stages : list B) (e : exn) :
fold_left (λ last m, step (call m) last) stages (Promise (Rejected e)) =
Promise (Rejected e).
Proof. induction stages as [|m stages IH]; [done|]. simpl. apply IH. Qed.

Lemma fold_step_Promise (stages : list B) (p : promise A) :
∃ q, fold_left (λ last m, step (call m) last) stages (Promise p) = Promise q.
Proof.
revert p. induction stages as [|m stages IH]; intros p; simpl.
- by exists p.
- apply IH.
Qed.
End pipeline_errors.

(** X11.  Whether a failure is thrown at the caller or comes as a
    rejected promise depends on where the chain turned asynchronous.
    When the first middleware to run returns a promise, the call returns
    a promise, whatever the later ones do; when it throws, the call throws
    and no other middleware runs.  The same exception of the second
    middleware is thrown by [serializeToFile] when the first returned its
    data directly, and is the rejection of the promise returned when the
    first returned a promise of that data. *)
Theorem serializer_throws_or_rejects
    (middlewares : list Serializer.SerializerMiddleware)
    (m : Serializer.SerializerMiddleware) (obj : value) (file : string) :
  let context := Serializer.Build_context file in
  (∀ p, Serializer.serialize m [obj] context = Serializer.Promise p →
     ∃ q, Serializer.serializeToFile (m :: middlewares) obj file = inr q) ∧
  (∀ e, Serializer.serialize m [obj] context = Serializer.Thrown e →
     Serializer.serializeToFile (m :: middlewares) obj file = inl e) ∧
  (∀ p, Serializer.deserialize m [] context = Serializer.Promise p →
     ∃ q, Serializer.deserializeFromFile (middlewares ++ [m]) file = inr q) ∧
  (∀ e, Serializer.deserialize m [] context = Serializer.Thrown e →
     Serializer.deserializeFromFile (middlewares ++ [m]) file = inl e) ∧
  (∀ m2 data e,
     Serializer.serialize m2 data context = Serializer.Thrown e →
     (Serializer.serialize m [obj] context = Serializer.Value data →
      Serializer.serializeToFile (m :: m2 :: middlewares) obj file = inl e) ∧
     (Serializer.serialize m [obj] context =
        Serializer.Promise (Serializer.Fulfilled data) →
      Serializer.serializeToFile (m :: m2 :: middlewares) obj file =
        inr (Serializer.Rejected e))).
Proof.
  intros context. split; [|split; [|split; [|split]]].
  - intros p Hm. unfold Serializer.serializeToFile. simpl. fold context.
    rewrite Hm.
    destruct (fold_step_Promise
                (λ m data, Serializer.serialize m data context) middlewares p)
      as [q ->].
    by exists q.
  - intros e Hm. unfold Serializer.serializeToFile. simpl. fold context.
    rewrite Hm.
    by rewrite (fold_step_Thrown
                  (λ m data, Serializer.serialize m data context)).
  - intros p Hm. unfold Serializer.deserializeFromFile.
    rewrite rev_app_distr. simpl. fold context. rewrite Hm.
    destruct (fold_step_Promise
                (λ m data, Serializer.deserialize m data context)
                (rev middlewares) p) as [q ->].
    simpl. eauto.
  - intros e Hm. unfold Serializer.deserializeFromFile.
    rewrite rev_app_distr. simpl. fold context. rewrite Hm.
    by rewrite (fold_step_Thrown
                  (λ m data, Serializer.deserialize m data context)).
  - intros m2 data e Hm2. split; intros Hm.
    + unfold Serializer.serializeToFile. simpl. fold context.
      rewrite Hm. simpl. rewrite Hm2.
      by rewrite (fold_step_Thrown
                    (λ m data, Serializer.serialize m data context)).
    + unfold Serializer.serializeToFile. simpl. fold context.
      rewrite Hm. simpl. rewrite Hm2.
      by rewrite (fold_step_Rejected
                    (λ m data, Serializer.serialize m data context)).
Qed.

(** * A record of plain fields on the wire *)

Section record_stream.
Import ObjectMiddleware.
Context {E : Env} (reg : registry).

Lemma table_bounded_plain (item : value) (s : wstate) :
table_bounded s → plain item → wr_referenceable s !! item = None.
Proof.
intros [_ Ht] Hplain.
destruct (wr_referenceable s !! item) as [p|] eqn:Hp; [|done].
by destruct (Ht _ _ Hp) as [[[? ->]|[? ->]] _].
Qed.

Lemma pushed_pushed (items1 items2 : list value) (s : wstate) :
pushed items2 (pushed items1 s) = pushed (items1 ++ items2) s.
Proof. unfold pushed. simpl. by rewrite app_assoc. Qed.

Lemma fields_plain_written fuel (props : list string) (a : addr)
  (C : Constructor) (P : gmap string value) (s : wstate) :
wr_heap s !! a = Some (Instance_ C P) →
table_bounded s →
Forall (λ p, plain (default VUndefined (P !! p))) props →
run (throw (TypeError "read is not a function")) (process reg (S fuel))
    (for_of props (λ prop, code_bind (get_prop (VRef a) prop) write_)) s =
Return tt (pushed ((λ p, default VUndefined (P !! p)) <$> props) s).
Proof.
intros Ha Hb Hplain. revert s Ha Hb.
induction Hplain as [|prop props Hp _ IH]; intros s Ha Hb.
- simpl. unfold ret, pushed. destruct s; simpl. by rewrite app_nil_r.
- rewrite run_for_of_cons. unfold bind at 1.
  rewrite run_bind. unfold bind at 1.
  change (run (throw (TypeError "read is not a function")) (process reg (S fuel))
            (get_prop (VRef a) prop) s)
    with (bind (js_get (VRef a) prop) ret s).
  unfold bind at 1. unfold js_get. simpl get_heap. rewrite Ha.
  unfold ret at 1.
  change (run (throw (TypeError "read is not a function")) (process reg (S fuel))
            (write_ (default VUndefined (P !! prop))) s)
    with (bind (process_body reg (process reg fuel)
                  (default VUndefined (P !! prop))) (λ _, ret tt) s).
  unfold bind at 1.
  rewrite process_plain by (done || by apply table_bounded_plain).
  unfold ret at 1.
  rewrite IH by done.
  by rewrite pushed_pushed.
Qed.
End record_stream.

(** X12.  The stream of a record.  An instance of a type registered with
    a field-list capability, whose listed fields hold [undefined],
    booleans or numbers, is written as the escape sentinel, the request
    and the export name of the type, then the values of the listed fields
    in list order, a missing field as [undefined]; a second occurrence of
    the same object is written as the sentinel and the offset [-1].  The
    hook plays no part in writing, and the heap is as it was. *)
Theorem record_wire_format {E : Env}
    (reg : ObjectMiddleware.registry) (fuel : nat) (a : addr)
    (C : Constructor) (P : gmap string value) (properties : list string)
    (onRestored : option (value → heap → heap)) (req exp : value)
    (context : value) (h : heap) :
  h !! a = Some (Instance_ C P) →
  ObjectMiddleware.serializers reg !! C =
    Some (ObjectMiddleware.Build_config req exp
            (PropertiesSerializer C properties onRestored)) →
  Forall (λ p, plain (default VUndefined (P !! p))) properties →
  ObjectMiddleware.serialize reg (S (S fuel)) [VRef a; VRef a] context h =
  Return (ObjectMiddleware.ESCAPE :: req :: exp ::
            ((λ p, default VUndefined (P !! p)) <$> properties) ++
            [ObjectMiddleware.ESCAPE; VNum (-1)]) h.
Proof.
  intros Ha HC Hplain.
  set (cfg := ObjectMiddleware.Build_config req exp
                (PropertiesSerializer C properties onRestored)).
  set (s0 := ObjectMiddleware.wstate_init h).
  assert (ObjectMiddleware.getSerializerFor reg h (VRef a) = inr cfg) as Hcfg.
  { unfold ObjectMiddleware.getSerializerFor. rewrite Ha. simpl. by rewrite HC. }
  assert (ObjectMiddleware.process reg (S (S fuel)) (VRef a) s0 =
          Return tt (registered (VRef a)
            (pushed ((λ p, default VUndefined (P !! p)) <$> properties)
               (pushed [ObjectMiddleware.ESCAPE; req; exp] s0)))) as Hfirst.
  { change (ObjectMiddleware.process reg (S (S fuel)) (VRef a) s0)
      with (ObjectMiddleware.process_body reg
              (ObjectMiddleware.process reg (S fuel)) (VRef a) s0).
    rewrite (process_object reg _ a cfg) by done.
    unfold bind at 1. cbn [ObjectMiddleware.serializer cfg].
    rewrite properties_serialize_unfold.
    rewrite (fields_plain_written reg fuel properties a C P);
      [done|done| |done].
    apply table_bounded_init. }
  unfold ObjectMiddleware.serialize. fold s0.
  cbn [ObjectMiddleware.process_all]. unfold bind at 1. rewrite Hfirst.
  unfold bind at 1.
  change (ObjectMiddleware.process reg (S (S fuel)) (VRef a))
    with (ObjectMiddleware.process_body reg
            (ObjectMiddleware.process reg (S fuel)) (VRef a)).
  rewrite (process_reference reg _ (VRef a) 0)
    by (simpl; by rewrite lookup_insert_eq).
  simpl. unfold ret. f_equal.
Qed.

Lemma record_wire_format_witness :
  ObjectMiddleware.serialize (E := Example.env) Example.registry 2
    [VRef 0%nat; VRef 0%nat] VUndefined Example.heap_extra =
  Return [VNull; VStr "./Point"; VNull; VNum 1; VNum 2; VNull; VNum (-1)]
         Example.heap_extra.
Proof.
  rewrite (record_wire_format (E := Example.env) Example.registry 0 0%nat "Point"
             (<["x" := VNum 1]> (<["y" := VNum 2]> (<["z" := VNum 3]> ∅)))
             ["x"; "y"] None (VStr "./Point") VNull VUndefined Example.heap_extra).
  - by vm_compute.
  - reflexivity.
  - reflexivity.
  - repeat constructor; by vm_compute.
Defined.

Section record_read.
Import ObjectMiddleware.
Context {E : Env} (reg : registry) (data : list value).

Lemma advance_advance (n m : nat) (s : rstate) :
advance n (advance m s) = advance (n + m) s.
Proof. unfold advance. simpl. f_equal. lia. Qed.

Lemma fields_plain_read fuel (props : list string) (vs : list value)
  (a : addr) (C : Constructor) (Q : gmap string value) (s : rstate) :
rd_heap s !! a = Some (Instance_ C Q) →
length vs = length props →
Forall plain vs →
(∀ i v, vs !! i = Some v → data !! (i + rd_currentDataPos s)%nat = Some v) →
run (decodeValue reg data (S fuel))
    (λ _, throw (TypeError "write is not a function"))
    (for_of props (λ prop, code_bind read_ (set_prop (VRef a) prop))) s =
Return tt
  (set_heap (<[a := Instance_ C (assign_all Q (zip props vs))]> (rd_heap s))
            (advance (length vs) s)).
Proof.
revert vs Q s.
induction props as [|prop props IH]; intros vs Q s Ha Hlen Hplain Hdata.
- destruct vs; [|done]. simpl. unfold ret. f_equal.
  destruct s. unfold advance. simpl in *. f_equal. by rewrite insert_id.
- destruct vs as [|v vs]; [done|]. simpl in Hlen.
  apply Forall_cons in Hplain as [Hv Hvs].
  rewrite run_for_of_cons. unfold bind at 1.
  rewrite run_bind. unfold bind at 1.
  change (run (decodeValue reg data (S fuel))
            (λ _, throw (TypeError "write is not a function")) read_ s)
    with (bind (decodeValue_body reg data (decodeValue reg data fuel)) ret s).
  unfold bind at 1.
  rewrite (decodeValue_plain reg data _ v) by (done || by apply (Hdata 0%nat)).
  unfold ret at 1.
  change (run (decodeValue reg data (S fuel))
            (λ _, throw (TypeError "write is not a function"))
            (set_prop (VRef a) prop v) (advance 1 s))
    with (bind (js_set (VRef a) prop v) (λ _, ret tt) (advance 1 s)).
  unfold bind at 1. unfold js_set. simpl get_heap. rewrite Ha.
  unfold ret at 1.
  rewrite (IH vs (<[prop := v]> Q)).
  + f_equal. unfold advance. simpl. f_equal; [|lia].
    by rewrite insert_insert_eq.
  + simpl. by rewrite lookup_insert_eq.
  + lia.
  + done.
  + intros i w Hi. simpl. replace (i + S (rd_currentDataPos s))%nat
      with (S i + rd_currentDataPos s)%nat by lia.
    by apply Hdata.
Qed.
End record_read.

(** X13.  Reading a record.  At the header of a type whose capability is
    a field-list capability, followed by as many plain values as the
    capability lists fields, [deserialize] makes one new object with the
    constructor, at an address the heap did not use, assigns the values
    to the listed fields in list order over what the constructor created,
    applies the hook, if there is one, to that object, and registers the
    object: the back-reference that follows yields the same object, not a
    copy.  Nothing else in the heap changes, unless the hook changes
    it. *)
Theorem record_decoded {E : Env}
    (reg : ObjectMiddleware.registry) (C : Constructor)
    (properties : list string) (onRestored : option (value → heap → heap))
    (req exp : value) (vs : list value) (context : value) (hr : heap) :
  ObjectMiddleware.resolve reg req exp =
    inr (PropertiesSerializer C properties onRestored) →
  length vs = length properties →
  Forall plain vs →
  let obj := fresh (dom hr) in
  let populated :=
    <[obj := Instance_ C (assign_all (instantiate C) (zip properties vs))]> hr in
  hr !! obj = None ∧
  ObjectMiddleware.deserialize reg
    (ObjectMiddleware.ESCAPE :: req :: exp :: vs ++
       [ObjectMiddleware.ESCAPE; VNum (-1)]) context hr =
  Return [VRef obj; VRef obj]
    (match onRestored with
     | Some hook => hook (VRef obj) populated
     | None => populated
     end).
Proof.
  intros Hcap Hlen Hplain obj populated.
  split; [apply not_elem_of_dom, is_fresh|].
  set (data := ObjectMiddleware.ESCAPE :: req :: exp :: vs ++
                 [ObjectMiddleware.ESCAPE; VNum (-1)]).
  set (s0 := ObjectMiddleware.rstate_init hr).
  set (h1 := match onRestored with
             | Some hook => hook (VRef obj) populated
             | None => populated
             end).
  set (s1 := registered' (VRef obj) (set_heap h1 (advance (3 + length vs) s0))).
  assert (ObjectMiddleware.decodeValue reg data 2 s0 = Return (VRef obj) s1)
    as Hfirst.
  { change (ObjectMiddleware.decodeValue reg data 2 s0)
      with (ObjectMiddleware.decodeValue_body reg data
              (ObjectMiddleware.decodeValue reg data 1) s0).
    rewrite (decodeValue_object reg data _ req exp
               (PropertiesSerializer C properties onRestored)) by done.
    unfold bind at 1. rewrite properties_deserialize_unfold.
    rewrite run_bind. unfold bind at 1.
    change (run (ObjectMiddleware.decodeValue reg data 1)
              (λ _, throw (TypeError "write is not a function")) (new_ C)
              (advance 3 s0))
      with (bind (alloc C) ret (advance 3 s0)).
    unfold bind at 1. unfold alloc. simpl get_heap. fold obj.
    unfold ret at 1.
    rewrite run_bind. unfold bind at 1.
    rewrite (fields_plain_read reg data 0 properties vs obj C (instantiate C));
      [|simpl; by rewrite lookup_insert_eq|done|done|].
    2:{ intros i v Hi. simpl. rewrite Nat.add_comm. simpl.
        by apply lookup_app_l_Some. }
    rewrite run_bind. unfold bind at 1.
    assert (∀ s, run (ObjectMiddleware.decodeValue reg data 1)
                   (λ _, throw (TypeError "write is not a function"))
                   (match onRestored with
                    | Some hook => invoke hook (VRef obj)
                    | None => Ret tt
                    end) s =
                 Return tt (set_heap
                              (match onRestored with
                               | Some hook => hook (VRef obj) (get_heap s)
                               | None => get_heap s
                               end) s)) as Hhook.
    { intros s. destruct onRestored as [hook|]; simpl.
      - done.
      - unfold ret. by destruct s. }
    rewrite Hhook. simpl run. unfold ret at 1. unfold bind at 1.
    unfold ObjectMiddleware.addReferenceable', modify. unfold ret.
    f_equal. unfold s1, registered', advance. simpl. f_equal; [|lia].
    unfold h1, populated. by rewrite insert_insert_eq. }
  assert (ObjectMiddleware.decode_all reg data 2 2 [] s0 =
          Return [VRef obj; VRef obj] (advance 2 s1)) as Hloop.
  { rewrite decode_all_step by (simpl; lia). unfold bind at 1.
    rewrite Hfirst.
    rewrite decode_all_step
      by (unfold data; simpl; rewrite length_app; simpl; lia).
    unfold bind at 1.
    change (ObjectMiddleware.decodeValue reg data 2 s1)
      with (ObjectMiddleware.decodeValue_body reg data
              (ObjectMiddleware.decodeValue reg data 1) s1).
    rewrite (decodeValue_reference reg data _ (-1)); [| | |done].
    - rewrite decode_all_done
        by (unfold data; simpl; rewrite length_app; simpl; lia).
      simpl. by rewrite lookup_insert_eq.
    - unfold data. simpl.
      rewrite lookup_app_r by (rewrite Nat.add_0_r; done).
      by rewrite Nat.add_0_r, Nat.sub_diag.
    - unfold data. simpl.
      rewrite lookup_app_r by (rewrite Nat.add_0_r; lia).
      rewrite Nat.add_0_r.
      by replace (S (length vs) - length vs)%nat with 1%nat by lia. }
  subst s0.
  rewrite (deserialize_decode_all reg data 2 2) by (by rewrite Hloop).
  by rewrite Hloop.
Qed.

Lemma record_decoded_witness :
  ∃ obj,
  Example.heap1 !! obj = None ∧
  ObjectMiddleware.deserialize (E := Example.env) Example.registry
    [VNull; VStr "./Point"; VNull; VNum 1; VNum 2; VNull; VNum (-1)]
    VUndefined Example.heap1 =
  Return [VRef obj; VRef obj]
    (<[obj := Instance_ "Point" (<["y" := VNum 2]> (<["x" := VNum 1]> ∅))]>
       Example.heap1).
Proof.
  eexists.
  apply (record_decoded (E := Example.env) Example.registry "Point"
           ["x"; "y"] None (VStr "./Point") VNull [VNum 1; VNum 2]
           VUndefined Example.heap1).
  - reflexivity.
  - reflexivity.
  - by repeat constructor.
Defined.

(** * Lazy producers *)

(** X14.  A function among the data is not called by [serialize] or by
    [deserialize]: it goes through both under their handlers.  Calling
    what comes out calls the function, serializes what it hands back, in
    a call of [serialize] of its own, and deserializes that: when the
    function hands back items that are no objects, directly or through a
    promise, the call hands back those items in the same way, functions
    among them wrapped in turn; a rejected promise stays rejected, and an
    exception of the function leaves the call. *)
Theorem lazy_function_roundtrip {E : Env}
    (reg : ObjectMiddleware.registry) (fuel : nat)
    (functions : nat → M heap produced) (f : nat) (ws : list wrapper)
    (data : list value) (context : value) (h h' : heap) :
  forallb is_flat data = true →
  let fn := VFun f ws in
  let fn' := VFun f (DeserializeWrap :: SerializeWrap :: ws) in
  (∃ out,
     ObjectMiddleware.serialize reg (S fuel) [fn] VUndefined h = Return out h ∧
     ObjectMiddleware.deserialize reg out context h = Return [fn'] h) ∧
  (call reg (S fuel) functions f ws context h = Return (Items data) h' →
   call reg (S fuel) functions f (DeserializeWrap :: SerializeWrap :: ws)
     context h = Return (Items (restored <$> data)) h') ∧
  (call reg (S fuel) functions f ws context h =
     Return (Later (Serializer.Fulfilled data)) h' →
   call reg (S fuel) functions f (DeserializeWrap :: SerializeWrap :: ws)
     context h = Return (Later (Serializer.Fulfilled (restored <$> data))) h') ∧
  (∀ e,
     call reg (S fuel) functions f ws context h =
       Return (Later (Serializer.Rejected e)) h' →
     call reg (S fuel) functions f (DeserializeWrap :: SerializeWrap :: ws)
       context h = Return (Later (Serializer.Rejected e)) h') ∧
  (∀ e,
     call reg (S fuel) functions f ws context h = Throw e h' →
     call reg (S fuel) functions f (DeserializeWrap :: SerializeWrap :: ws)
       context h = Throw e h').
Proof.
  intros Hflat fn fn'.
  destruct (roundtrip_flat reg fuel data VUndefined context h' h' Hflat)
    as (out & Hser & Hdes & _).
  split; [|split; [|split; [|split]]].
  - destruct (roundtrip_flat reg fuel [fn] VUndefined context h h eq_refl)
      as (out1 & Hser1 & Hdes1 & _).
    by exists out1.
  - intros Hcall. cbn [call]. unfold handled at 1. unfold bind at 1.
    unfold handled at 1. unfold bind at 1. rewrite Hcall.
    unfold bind at 1. rewrite Hser. unfold ret at 1.
    unfold bind at 1. by rewrite Hdes.
  - intros Hcall. cbn [call]. unfold handled at 1. unfold bind at 1.
    unfold handled at 1. unfold bind at 1. rewrite Hcall.
    rewrite Hser. by rewrite Hdes.
  - intros e Hcall. cbn [call]. unfold handled at 1. unfold bind at 1.
    unfold handled at 1. unfold bind at 1. by rewrite Hcall.
  - intros e Hcall. cbn [call]. unfold handled at 1. unfold bind at 1.
    unfold handled at 1. unfold bind at 1. by rewrite Hcall.
Qed.

Lemma lazy_function_roundtrip_witness :
  call (E := Example.env) Example.registry 1
    (λ _, ret (Items [VStr "a"; VNull; VStr "a"])) 0
    [DeserializeWrap; SerializeWrap] VUndefined ∅ =
  Return (Items [VStr "a"; VNull; VStr "a"]) ∅.
Proof.
  destruct (lazy_function_roundtrip (E := Example.env) Example.registry 0
              (λ _, ret (Items [VStr "a"; VNull; VStr "a"])) 0 []
              [VStr "a"; VNull; VStr "a"] VUndefined ∅ ∅ eq_refl)
    as (_ & Hcall & _).
  by apply Hcall.
Defined.

(** * A record that holds itself *)

Section self_reference.
Import ObjectMiddleware.
Context {E : Env} (reg : registry).
Variables (a : addr) (C : Constructor) (P : gmap string value)
          (before : list string) (p : string) (after : list string)
          (onRestored : option (value → heap → heap)) (req exp : value).
Hypothesis HC :
  serializers reg !! C =
  Some (Build_config req exp
          (PropertiesSerializer C (before ++ p :: after) onRestored)).
Hypothesis Hbefore : Forall (λ q, plain (default VUndefined (P !! q))) before.
Hypothesis Hp : P !! p = Some (VRef a).

(** The fields before the one that holds the object are written, then
  [process] is entered again on the object, which is not in the table
  yet. *)
Lemma fields_reach_self fuel (qs : list string) (s : wstate) :
(∀ s', wr_heap s' !! a = Some (Instance_ C P) → table_bounded s' →
       wr_referenceable s' !! VRef a = None →
       process reg fuel (VRef a) s' = OutOfFuel) →
Forall (λ q, plain (default VUndefined (P !! q))) qs →
wr_heap s !! a = Some (Instance_ C P) →
table_bounded s →
wr_referenceable s !! VRef a = None →
run (throw (TypeError "read is not a function")) (process reg fuel)
    (for_of (qs ++ p :: after)
       (λ prop, code_bind (get_prop (VRef a) prop) write_)) s = OutOfFuel.
Proof.
intros IH Hqs. revert s.
induction Hqs as [|q qs Hq _ IHqs]; intros s Ha Hb Hnone.
- simpl app. rewrite run_for_of_cons. unfold bind at 1.
  rewrite run_bind. unfold bind at 1.
  change (run (throw (TypeError "read is not a function")) (process reg fuel)
            (get_prop (VRef a) p) s)
    with (bind (js_get (VRef a) p) ret s).
  unfold bind at 1. unfold js_get. simpl get_heap. rewrite Ha, Hp.
  unfold ret at 1. simpl.
  unfold bind at 1. by rewrite IH.
- simpl app. rewrite run_for_of_cons. unfold bind at 1.
  rewrite run_bind. unfold bind at 1.
  change (run (throw (TypeError "read is not a function")) (process reg fuel)
            (get_prop (VRef a) q) s)
    with (bind (js_get (VRef a) q) ret s).
  unfold bind at 1. unfold js_get. simpl get_heap. rewrite Ha.
  unfold ret at 1.
  change (run (throw (TypeError "read is not a function")) (process reg fuel)
            (write_ (default VUndefined (P !! q))) s)
    with (bind (process reg fuel (default VUndefined (P !! q)))
               (λ _, ret tt) s).
  unfold bind at 1.
  destruct fuel as [|fuel']; [done|].
  change (process reg (S fuel') (default VUndefined (P !! q)))
    with (process_body reg (process reg fuel') (default VUndefined (P !! q))).
  rewrite process_plain by (done || by apply table_bounded_plain).
  unfold ret at 1. by apply IHqs.
Qed.

Lemma process_self_reference fuel (s : wstate) :
wr_heap s !! a = Some (Instance_ C P) →
table_bounded s →
wr_referenceable s !! VRef a = None →
process reg fuel (VRef a) s = OutOfFuel.
Proof.
revert s. induction fuel as [|fuel IH]; intros s Ha Hb Hnone; [done|].
change (process reg (S fuel) (VRef a) s)
  with (process_body reg (process reg fuel) (VRef a) s).
rewrite (process_object reg _ a
           (Build_config req exp
              (PropertiesSerializer C (before ++ p :: after) onRestored))).
- unfold bind at 1. cbn [serializer].
  rewrite properties_serialize_unfold.
  by rewrite fields_reach_self.
- done.
- unfold getSerializerFor. rewrite Ha. simpl. by rewrite HC.
Qed.
End self_reference.

(** X15.  A record that holds itself in a listed field, after fields that
    hold [undefined], booleans or numbers, is never written: [process]
    enters the object again before it has registered it, so no bound on
    the recursion lets [serialize] return or throw. *)
Theorem serialize_self_reference_diverges {E : Env}
    (reg : ObjectMiddleware.registry) (a : addr) (C : Constructor)
    (P : gmap string value) (before : list string) (p : string)
    (after : list string) (onRestored : option (value → heap → heap))
    (req exp : value) (rest : list value) (context : value) (h : heap)
    (fuel : nat) :
  h !! a = Some (Instance_ C P) →
  ObjectMiddleware.serializers reg !! C =
    Some (ObjectMiddleware.Build_config req exp
            (PropertiesSerializer C (before ++ p :: after) onRestored)) →
  Forall (λ q, plain (default VUndefined (P !! q))) before →
  P !! p = Some (VRef a) →
  ObjectMiddleware.serialize reg fuel (VRef a :: rest) context h = OutOfFuel.
Proof.
  intros Ha HC Hbefore Hp. unfold ObjectMiddleware.serialize.
  cbn [ObjectMiddleware.process_all]. unfold bind at 1.
  rewrite (process_self_reference reg a C P before p after onRestored req exp);
    try done.
Qed.

Lemma serialize_self_reference_diverges_witness :
  ObjectMiddleware.serialize (E := Example.env) Example.registry 1000
    [VRef 0%nat] VUndefined Example.heap_cyclic = OutOfFuel.
Proof.
  apply (serialize_self_reference_diverges (E := Example.env) Example.registry
           0%nat "Point" (<["x" := VRef 0%nat]> (<["y" := VNum 2]> ∅))
           [] "x" ["y"] None (VStr "./Point") VNull [] VUndefined
           Example.heap_cyclic 1000); by repeat constructor.
Defined.

(** * Distinct objects stay distinct *)

Section write_apart.
Import ObjectMiddleware.
Context {E : Env} (reg : registry).

(** Every registration takes a position of its own. *)
Lemma process_positions_apart fuel item s s' :
process reg fuel item s = Return tt s' →
table_bounded s ∧ positions_apart s →
table_bounded s' ∧ positions_apart s'.
Proof.
apply (process_preserves reg
         (λ s s', table_bounded s ∧ positions_apart s →
                  table_bounded s' ∧ positions_apart s')).
- done.
- intros s1 s2 s3 H12 H23 H1. auto.
- done.
- by intros items t t' [= <-].
- intros it t t' Href [= <-] [Hb Ha]. split.
  + by apply (table_bounded_registered it t).
  + intros k1 k2 p. simpl. rewrite !lookup_insert.
    destruct Hb as [_ Hb].
    case_decide as H1; case_decide as H2.
    * congruence.
    * intros [= <-] Hk2. destruct (Hb _ _ Hk2) as [_ ?]. lia.
    * intros Hk1 [= <-]. destruct (Hb _ _ Hk1) as [_ ?]. lia.
    * apply Ha.
Qed.

Lemma process_all_positions_apart fuel items s s' :
process_all reg fuel items s = Return tt s' →
table_bounded s ∧ positions_apart s →
table_bounded s' ∧ positions_apart s'.
Proof.
revert s. induction items as [|item items IH]; intros s; simpl.
- by intros [= <-].
- unfold bind. destruct (process reg fuel item s) as [[] s1| |] eqn:Hp; try done.
  intros Hrest Hs. eapply IH; [done|]. by eapply process_positions_apart.
Qed.
End write_apart.

Section fields_stay_apart.
Import ObjectMiddleware.
Context {E : Env} (reg : registry) (rank : addr → nat) (hw : heap)
      (data : list value).
Variable proc : value → M wstate unit.
Variable dec : M rstate value.
Hypothesis Hsim : simulates rank hw data proc dec.
Hypothesis Hprefix : ∀ v s s',
proc v s = Return tt s' → wr_result s `prefix_of` wr_result s'.
Hypothesis Hapart : ∀ v sw sw' sr v' sr',
value_ok hw v → sim_inv hw sw sr →
proc v sw = Return tt sw' → wr_result sw' `prefix_of` data →
dec sr = Return v' sr' →
references_apart sr → references_apart sr'.

Lemma references_apart_same (s s' : rstate) :
rd_referenceable s' = rd_referenceable s →
references_apart s → references_apart s'.
Proof. intros Ht Hs p q a. rewrite Ht. apply Hs. Qed.

(** An object that is not in the table can enter it. *)
Lemma references_apart_registered (a' : addr) (s : rstate) :
(∀ p, rd_referenceable s !! p ≠ Some (VRef a')) →
references_apart s → references_apart (registered' (VRef a') s).
Proof.
intros Hun Hs p q b. simpl. rewrite !lookup_insert.
case_decide as Hp; case_decide as Hq.
- congruence.
- intros [= <-] Hq'. by destruct (Hun q).
- intros Hp' [= <-]. by destruct (Hun p).
- apply Hs.
Qed.

(** A string takes a position; no object moves. *)
Lemma references_apart_string (str : string) (s : rstate) :
references_apart s → references_apart (registered' (VStr str) s).
Proof.
intros Hs p q b. simpl. rewrite !lookup_insert.
case_decide as Hp; case_decide as Hq; try done. apply Hs.
Qed.

(** The loop over the field list of an object that is being populated:
  the objects the fields bring in take positions of their own. *)
Lemma fields_stay_apart (ps : list string) (a a' : addr) (C : Constructor)
  (P Q : gmap string value) (sw sw_end : wstate) (sr sr_end : rstate) :
hw !! a = Some (Instance_ C P) →
(∀ p, p ∈ ps → is_Some (P !! p)) →
(∀ p v, P !! p = Some v → value_ok hw v ∧ (key_rank rank v ≤ rank a)%nat) →
sim_inv hw sw sr →
rd_heap sr !! a' = Some (Instance_ C Q) →
(∀ p, rd_referenceable sr !! p ≠ Some (VRef a')) →
run (throw (TypeError "read is not a function")) proc
    (for_of ps (λ prop, code_bind (get_prop (VRef a) prop) write_)) sw =
  Return tt sw_end →
wr_result sw_end `prefix_of` data →
run dec (λ _, throw (TypeError "write is not a function"))
    (for_of ps (λ prop, code_bind read_ (set_prop (VRef a') prop))) sr =
  Return tt sr_end →
references_apart sr → references_apart sr_end.
Proof.
intros Ha Hps Hfields. revert Hps Q sw sr.
induction ps as [|p ps IH];
  intros Hps Q sw sr Hinv Ha' Hun Hrun Hdata Hrun' Hsr.
{ simpl in Hrun'. unfold ret in Hrun'. by injection Hrun' as <-. }
(* the write side *)
rewrite run_for_of_cons in Hrun. unfold bind at 1 in Hrun.
rewrite run_bind in Hrun. unfold bind at 1 in Hrun.
destruct Hinv as (Hh & Hinv').
assert (sim_inv hw sw sr) as Hinv by (by split).
destruct (Hps p) as [v Hv]; [apply elem_of_cons; by left|].
cbn [run get_prop] in Hrun. unfold bind at 1 in Hrun.
unfold js_get in Hrun. simpl in Hrun. rewrite Hh, Ha, Hv in Hrun.
unfold ret in Hrun. simpl in Hrun. unfold bind at 1 in Hrun.
destruct (proc v sw) as [[] sw1| |] eqn:Hproc; try done.
unfold ret in Hrun.
destruct (Hfields p v Hv) as [Hvok Hvrank].
pose proof (run_result_prefix proc Hprefix _ _ _ _ Hrun) as Hpre.
assert (wr_result sw1 `prefix_of` data) as Hdata1 by (by etrans).
destruct (Hsim v sw sw1 sr Hvok Hinv Hproc Hdata1) as
  (v' & sr1 & Hdec & Hinv1 & Hrel & Hw & Hr & Hheap & Hkeys & Hfresh).
pose proof (Hapart v sw sw1 sr v' sr1 Hvok Hinv Hproc Hdata1 Hdec Hsr) as Hsr1.
(* the read side *)
pose proof (lookup_weaken _ _ _ _ Ha' Hheap) as Ha1.
set (sr1' := set_heap (<[a' := Instance_ C (<[p := v']> Q)]> (rd_heap sr1)) sr1).
assert (∀ q, rd_referenceable sr1 !! q ≠ Some (VRef a')) as Hun1.
{ intros q Hq. destruct (rd_referenceable sr !! q) as [w|] eqn:Hq0.
  - pose proof (lookup_weaken _ _ _ _ Hq0 Hr). simplify_eq. by eapply Hun.
  - specialize (Hfresh _ _ Hq0 Hq). congruence. }
assert (∀ q, q ∈ ps → is_Some (P !! q)) as Hps'.
{ intros q Hq. apply Hps. apply elem_of_cons. by right. }
rewrite run_for_of_cons in Hrun'. unfold bind at 1 in Hrun'.
rewrite run_bind in Hrun'. unfold bind at 1 in Hrun'.
cbn [run read_] in Hrun'. unfold bind at 1 in Hrun'. rewrite Hdec in Hrun'.
unfold ret in Hrun'.
cbn [run set_prop] in Hrun'. unfold bind at 1 in Hrun'.
unfold js_set in Hrun'. simpl in Hrun'. rewrite Ha1 in Hrun'.
unfold ret in Hrun'.
apply (IH Hps' (<[p := v']> Q) sw1 sr1').
- by apply sim_inv_set_unregistered.
- simpl. by rewrite lookup_insert_eq.
- done.
- done.
- done.
- exact Hrun'.
- by apply (references_apart_same sr1).
Qed.
End fields_stay_apart.

Section object_stays_apart.
Import ObjectMiddleware.
Context {E : Env} (reg : registry) (rank : addr → nat) (hw : heap)
      (data : list value).
Hypothesis Hgraph : graph_ok reg rank hw.
Variable proc : value → M wstate unit.
Variable dec : M rstate value.
Hypothesis Hsim : simulates rank hw data proc dec.
Hypothesis Hprefix : ∀ v s s',
proc v s = Return tt s' → wr_result s `prefix_of` wr_result s'.
Hypothesis Hapart : ∀ v sw sw' sr v' sr',
value_ok hw v → sim_inv hw sw sr →
proc v sw = Return tt sw' → wr_result sw' `prefix_of` data →
dec sr = Return v' sr' →
references_apart sr → references_apart sr'.

(** An object met for the first time comes back as a new instance, which
  enters the table once, after its fields. *)
Lemma object_stays_apart (a : addr) sw sw' sr v' sr' :
is_Some (hw !! a) →
sim_inv hw sw sr →
wr_referenceable sw !! VRef a = None →
process_body reg proc (VRef a) sw = Return tt sw' →
wr_result sw' `prefix_of` data →
decodeValue_body reg data dec sr = Return v' sr' →
references_apart sr → references_apart sr'.
Proof.
intros [c Hc] Hinv Hnone Hproc Hdata Hdec Hsr.
destruct (Hgraph a c Hc) as
  (C & P & props & req & exp & -> & Hser & Hres & Hinst & Hprops & Hfields).
set (cap := PropertiesSerializer C props None) in *.
set (cfg := Build_config req exp cap) in *.
assert (wr_heap sw = hw) as Hh by apply Hinv.
assert (getSerializerFor reg (wr_heap sw) (VRef a) = inr cfg) as Hcfg.
{ unfold getSerializerFor. rewrite Hh, Hc. simpl. by rewrite Hser. }
rewrite (process_object reg proc a cfg) in Hproc by done.
set (sw0 := pushed [ESCAPE; request cfg; exportName cfg] sw) in *.
unfold bind at 1 in Hproc.
destruct (run _ proc _ sw0) as [[] sw_end| |] eqn:Hrun; try done.
injection Hproc as <-.
pose proof (run_result_prefix proc Hprefix _ _ _ _ Hrun) as Hpre0.
assert (wr_result sw0 `prefix_of` data) as Hdata0 by (by etrans).
pose proof (data_at_cursor hw data _ _ _ 0 _ Hinv Hdata0 eq_refl) as H0.
pose proof (data_at_cursor hw data _ _ _ 1 _ Hinv Hdata0 eq_refl) as H1.
pose proof (data_at_cursor hw data _ _ _ 2 _ Hinv Hdata0 eq_refl) as H2.
rewrite (decodeValue_object reg data dec req exp cap) in Hdec by done.
set (sr3 := advance 3 sr) in *.
set (a' := fresh (dom (rd_heap sr3))).
assert (rd_heap sr !! a' = None) as Hfresh.
{ apply not_elem_of_dom. apply is_fresh. }
set (sr4 := set_heap (<[a' := Instance_ C (instantiate C)]> (rd_heap sr3)) sr3).
assert (sim_inv hw sw0 sr3) as Hinv3.
{ apply (sim_inv_pushed hw sw sr [ESCAPE; req; exp] Hinv). }
assert (∀ p, rd_referenceable sr3 !! p ≠ Some (VRef a')) as Hun3.
{ intros p Hp. destruct Hinv3 as (_ & _ & _ & _ & _ & Hr).
  destruct (Hr _ _ Hp) as [_ Hin].
  destruct (Hin a' eq_refl) as [? Hin']. simpl in Hin'. congruence. }
assert (sim_inv hw sw0 sr4) as Hinv4 by (by apply sim_inv_set_unregistered).
destruct (fields_simulate rank hw data proc dec Hsim Hprefix
            props a a' C P (instantiate C) sw0 sw_end sr4) as
  (sr_end & Q' & Hloop & Hinv_end & Ha_end & Hun_end & _).
{ done. }
{ intros p Hp. by apply Hprops. }
{ done. }
{ done. }
{ simpl. by rewrite lookup_insert_eq. }
{ done. }
{ done. }
{ done. }
assert (references_apart sr_end) as Hsr_end.
{ apply (fields_stay_apart rank hw data proc dec Hsim Hprefix Hapart
           props a a' C P (instantiate C) sw0 sw_end sr4 sr_end); try done.
  - intros p Hp. by apply Hprops.
  - simpl. by rewrite lookup_insert_eq. }
assert (sr' = registered' (VRef a') sr_end) as ->.
{ revert Hdec. unfold bind at 1. unfold cap.
  rewrite properties_deserialize_unfold.
  rewrite run_bind. unfold bind at 1. cbn [run new_]. unfold bind at 1.
  unfold alloc. unfold ret.
  change (get_heap sr3) with (rd_heap sr3). fold a'. fold sr4.
  rewrite run_bind. unfold bind at 1. rewrite Hloop.
  by intros [= _ <-]. }
by apply references_apart_registered.
Qed.
End object_stays_apart.

Section sequence_stays_apart.
Import ObjectMiddleware.
Context {E : Env} (reg : registry) (rank : addr → nat) (hw : heap)
      (data : list value).
Hypothesis Hgraph : graph_ok reg rank hw.

Lemma body_stays_apart (proc : value → M wstate unit) (dec : M rstate value) :
simulates rank hw data proc dec →
(∀ v s s', proc v s = Return tt s' → wr_result s `prefix_of` wr_result s') →
(∀ v sw sw' sr v' sr',
   value_ok hw v → sim_inv hw sw sr →
   proc v sw = Return tt sw' → wr_result sw' `prefix_of` data →
   dec sr = Return v' sr' →
   references_apart sr → references_apart sr') →
∀ v sw sw' sr v' sr',
  value_ok hw v → sim_inv hw sw sr →
  process_body reg proc v sw = Return tt sw' →
  wr_result sw' `prefix_of` data →
  decodeValue_body reg data dec sr = Return v' sr' →
  references_apart sr → references_apart sr'.
Proof.
intros Hsim Hprefix Hapart v sw sw' sr v' sr' Hvok Hinv Hproc Hdata Hdec Hsr.
destruct (wr_referenceable sw !! v) as [ref|] eqn:Href.
{ assert (sw' = pushed [ESCAPE; VNum (ref - wr_currentPos sw)] sw) as ->.
  { rewrite (process_reference reg proc v ref) in Hproc by done. congruence. }
  destruct (sim_reference reg hw data dec v ref sw sr Hinv Href Hdata)
    as (w & Hdec' & _).
  rewrite Hdec' in Hdec. injection Hdec as _ <-.
  by apply (references_apart_same sr). }
destruct v as [| |b|n|str|a|f ws].
- assert (sw' = pushed [VUndefined] sw) as ->.
  { rewrite process_plain in Hproc by done. congruence. }
  pose proof (data_at_cursor hw data _ _ _ 0 _ Hinv Hdata eq_refl) as H0.
  rewrite (decodeValue_plain reg data dec VUndefined) in Hdec by done.
  injection Hdec as _ <-. by apply (references_apart_same sr).
- assert (sw' = pushed [ESCAPE; ESCAPE_ESCAPE_VALUE] sw) as ->.
  { rewrite process_escape in Hproc by done. congruence. }
  pose proof (data_at_cursor hw data _ _ _ 0 _ Hinv Hdata eq_refl) as H0.
  pose proof (data_at_cursor hw data _ _ _ 1 _ Hinv Hdata eq_refl) as H1.
  rewrite (decodeValue_escape reg data dec) in Hdec by done.
  injection Hdec as _ <-. by apply (references_apart_same sr).
- assert (sw' = pushed [VBool b] sw) as ->.
  { rewrite process_plain in Hproc by done. congruence. }
  pose proof (data_at_cursor hw data _ _ _ 0 _ Hinv Hdata eq_refl) as H0.
  rewrite (decodeValue_plain reg data dec (VBool b)) in Hdec by done.
  injection Hdec as _ <-. by apply (references_apart_same sr).
- assert (sw' = pushed [VNum n] sw) as ->.
  { rewrite process_plain in Hproc by done. congruence. }
  pose proof (data_at_cursor hw data _ _ _ 0 _ Hinv Hdata eq_refl) as H0.
  rewrite (decodeValue_plain reg data dec (VNum n)) in Hdec by done.
  injection Hdec as _ <-. by apply (references_apart_same sr).
- assert (sw' = pushed [VStr str] (registered (VStr str) sw)) as ->.
  { rewrite process_string in Hproc by done. congruence. }
  assert (wr_result (pushed [VStr str] sw) `prefix_of` data) as Hdata' by done.
  pose proof (data_at_cursor hw data _ _ _ 0 _ Hinv Hdata' eq_refl) as H0.
  rewrite (decodeValue_string reg data dec str) in Hdec by done.
  injection Hdec as _ <-.
  apply (references_apart_same (registered' (VStr str) sr)); [done|].
  by apply references_apart_string.
- by eapply (object_stays_apart reg rank hw data Hgraph proc dec).
- done.
Qed.

Lemma process_stays_apart (fuel : nat) v sw sw' sr v' sr' :
value_ok hw v → sim_inv hw sw sr →
process reg fuel v sw = Return tt sw' →
wr_result sw' `prefix_of` data →
decodeValue reg data fuel sr = Return v' sr' →
references_apart sr → references_apart sr'.
Proof.
revert v sw sw' sr v' sr'.
induction fuel as [|fuel IH]; [by intros v sw sw' sr v' sr' _ _ ?|].
apply body_stays_apart.
- by apply sim_process.
- intros v s s'. apply process_result_prefix.
- exact IH.
Qed.

Lemma process_all_stays_apart fuel items sw sw' sr result n vs sr' :
Forall (value_ok hw) items →
sim_inv hw sw sr →
process_all reg fuel items sw = Return tt sw' →
wr_result sw' = data →
(length items ≤ n)%nat →
decode_all reg data n fuel result sr = Return vs sr' →
references_apart sr → references_apart sr'.
Proof.
intros Hitems. revert sw sr result n.
induction Hitems as [|item items Hok _ IH];
  intros sw sr result n Hinv Hp Hdata Hn Hloop Hsr.
- injection Hp as <-.
  rewrite decode_all_done in Hloop.
  + by injection Hloop as _ <-.
  + destruct Hinv as (_ & Hd & _). rewrite Hd, Hdata. lia.
- simpl in Hp. unfold bind in Hp.
  destruct (process reg fuel item sw) as [[] sw1| |] eqn:Hp1; try done.
  pose proof (process_all_result_prefix reg _ _ _ _ Hp) as Hpre.
  rewrite Hdata in Hpre.
  destruct (sim_process reg rank hw data Hgraph fuel item sw sw1 sr
              Hok Hinv Hp1 Hpre)
    as (v' & sr1 & Hdec & Hinv1 & Hrel & Hgrows).
  destruct n as [|n]; [simpl in Hn; lia|].
  rewrite decode_all_step in Hloop.
  + unfold bind in Hloop. rewrite Hdec in Hloop.
    eapply (IH sw1 sr1 (result ++ [v']) n); try done.
    * simpl in Hn. lia.
    * by eapply (process_stays_apart fuel item sw sw1 sr v' sr1).
  + pose proof (decodeValue_cursor_lt _ _ _ _ _ _ Hdec) as Hlt.
    destruct Hinv1 as (_ & Hd1 & _). apply prefix_length in Hpre. lia.
Qed.
End sequence_stays_apart.



(** * No object in the stream *)

Section flat_stream.
Import ObjectMiddleware.
Context {E : Env} (reg : registry).
Hypothesis Hheaders : ∀ C cfg,
  serializers reg !! C = Some cfg →
  is_flat (request cfg) = true ∧ is_flat (exportName cfg) = true.

Lemma getSerializerFor_flat (h : heap) (item : value) (cfg : config) :
getSerializerFor reg h item = inr cfg →
is_flat (request cfg) = true ∧ is_flat (exportName cfg) = true.
Proof.
unfold getSerializerFor. destruct item as [| | | | |a|]; try done.
destruct (h !! a) as [cl|]; [|done].
destruct (serializers reg !! constructor_of cl) as [cfg'|] eqn:Hc; [|done].
intros [= <-]. by eapply Hheaders.
Qed.

Lemma process_body_flat_stream (rec : value → M wstate unit) (item : value)
  (s s' : wstate) :
(∀ v t t', rec v t = Return tt t' →
           Forall (λ x, is_flat x = true) (wr_result t) →
           Forall (λ x, is_flat x = true) (wr_result t')) →
process_body reg rec item s = Return tt s' →
Forall (λ x, is_flat x = true) (wr_result s) →
Forall (λ x, is_flat x = true) (wr_result s').
Proof.
intros IH.
unfold process_body. unfold bind at 1. unfold gets at 1.
destruct (wr_referenceable s !! item) as [ref|].
{ unfold bind, gets, push, modify. intros [= <-] Hs. simpl.
  apply Forall_app. split; [done|]. by repeat constructor. }
destruct (String.eqb (typeof item) "object" && negb (bool_decide (item = VNull)))
  eqn:Hobj.
{ unfold bind at 1. unfold gets at 1.
  unfold bind at 1.
  destruct (getSerializerFor reg (wr_heap s) item) as [e|cfg] eqn:Hcfg; [done|].
  destruct (getSerializerFor_flat _ _ _ Hcfg) as [Hreq Hexp].
  unfold lift_sum, ret.
  unfold bind at 1. unfold push at 1, modify at 1.
  unfold bind at 1.
  destruct (run _ _ _ _) as [[] s2| |] eqn:Hrun; try done.
  unfold addReferenceable, modify. intros [= <-] Hs. simpl.
  apply (run_preserves
           (λ t t', Forall (λ x, is_flat x = true) (wr_result t) →
                    Forall (λ x, is_flat x = true) (wr_result t'))) in Hrun.
  - exact Hrun.
  - done.
  - intros s1 s3 s4 H13 H34 H1. auto.
  - done.
  - done.
  - exact IH.
  - simpl. apply Forall_app. split; [done|]. by repeat constructor. }
destruct (String.eqb (typeof item) "string") eqn:Hstr.
{ apply string_test_str in Hstr as [str ->].
  unfold bind, addReferenceable, push, modify. intros [= <-] Hs. simpl.
  apply Forall_app. split; [done|]. by repeat constructor. }
unfold bind at 1. unfold gets at 1.
assert (is_flat item = true) as Hflat by (by destruct item).
assert (isBuffer (wr_heap s) item = false) as -> by (by destruct item).
destruct (bool_decide (item = ESCAPE)).
{ unfold push, modify. intros [= <-] Hs. simpl.
  apply Forall_app. split; [done|]. by repeat constructor. }
destruct (String.eqb (typeof item) "function").
- unfold push, modify. intros [= <-] Hs. simpl.
  apply Forall_app. split; [done|]. repeat constructor. by destruct item.
- unfold push, modify. intros [= <-] Hs. simpl.
  apply Forall_app. split; [done|]. by repeat constructor.
Qed.

Lemma process_flat_stream (fuel : nat) (item : value) (s s' : wstate) :
process reg fuel item s = Return tt s' →
Forall (λ x, is_flat x = true) (wr_result s) →
Forall (λ x, is_flat x = true) (wr_result s').
Proof.
revert item s s'. induction fuel as [|fuel IH]; intros item s s'; [done|].
by apply process_body_flat_stream.
Qed.

Lemma process_all_flat_stream (fuel : nat) (items : list value)
  (s s' : wstate) :
process_all reg fuel items s = Return tt s' →
Forall (λ x, is_flat x = true) (wr_result s) →
Forall (λ x, is_flat x = true) (wr_result s').
Proof.
revert s. induction items as [|item items IH]; intros s; simpl.
- by intros [= <-].
- unfold bind. destruct (process reg fuel item s) as [[] s1| |] eqn:Hp; try done.
  intros Hrest Hs. eapply IH; [done|]. by eapply process_flat_stream.
Qed.
End flat_stream.

(** X17.  No object reaches the stream.  When the requests and export
    names of the registry are no objects, every item of what [serialize]
    returns is [undefined], [null], a boolean, a number, a string or a
    function under its handler, whatever the capabilities write: an
    object is only ever written as a header, the items of its capability
    and, later, back-references, and the branch that would push a
    byte-buffer as it is comes after the test that sends every object to
    its capability. *)
Theorem stream_holds_no_object {E : Env}
    (reg : ObjectMiddleware.registry) (fuel : nat) (data : list value)
    (context : value) (h : heap) (out : list value) (h' : heap) :
  (∀ C cfg,
     ObjectMiddleware.serializers reg !! C = Some cfg →
     is_flat (ObjectMiddleware.request cfg) = true ∧
     is_flat (ObjectMiddleware.exportName cfg) = true) →
  ObjectMiddleware.serialize reg fuel data context h = Return out h' →
  Forall (λ x, is_flat x = true) out.
Proof.
  intros Hheaders. unfold ObjectMiddleware.serialize.
  destruct (ObjectMiddleware.process_all reg fuel data
              (ObjectMiddleware.wstate_init h)) as [[] s'| |] eqn:Hp; try done.
  intros [= <- <-].
  by eapply (process_all_flat_stream reg Hheaders fuel data).
Qed.

Lemma stream_holds_no_object_witness :
  ∃ out,
    ObjectMiddleware.serialize (E := Example.env) Example.registry 3
      [VRef 1%nat; VRef 0%nat] VUndefined Example.heap_shared =
      Return out Example.heap_shared ∧
    Forall (λ x, is_flat x = true) out.
Proof.
  eexists. split; [by vm_compute|].
  apply (stream_holds_no_object (E := Example.env) Example.registry 3
           [VRef 1%nat; VRef 0%nat] VUndefined Example.heap_shared _
           Example.heap_shared).
  - intros C cfg. unfold Example.registry. simpl. rewrite !lookup_insert.
    repeat case_decide; try done; by intros [= <-].
  - by vm_compute.
Defined.

(** * What [deserialize] leaves alone *)

Section decode_keeps.
Import ObjectMiddleware.
Context {E : Env} (reg : registry) (data : list value) (h0 : heap).

Section with_rec.
Variable rec : M rstate value.
Hypothesis IH : ∀ t w t',
  rec t = Return w t' → h0 ⊆ rd_heap t → h0 ⊆ rd_heap t'.

Lemma fields_keep (props : list string) (obj : addr) (s s' : rstate) :
run rec (λ _, throw (TypeError "write is not a function"))
    (for_of props (λ prop, code_bind read_ (set_prop (VRef obj) prop))) s =
  Return tt s' →
h0 !! obj = None →
h0 ⊆ rd_heap s → h0 ⊆ rd_heap s'.
Proof.
intros Hrun Hobj. revert s Hrun.
induction props as [|prop props IHprops]; intros s.
- simpl. by intros [= <-].
- rewrite run_for_of_cons. unfold bind at 1.
  rewrite run_bind. unfold bind at 1.
  change (run rec (λ _, throw (TypeError "write is not a function")) read_ s)
    with (bind rec ret s).
  unfold bind at 1.
  destruct (rec s) as [v t| |] eqn:Hrec; try done.
  unfold ret at 1.
  change (run rec (λ _, throw (TypeError "write is not a function"))
            (set_prop (VRef obj) prop v) t)
    with (bind (js_set (VRef obj) prop v) (λ _, ret tt) t).
  unfold bind at 1. unfold js_set. simpl get_heap.
  intros Hrun Hs.
  assert (h0 ⊆ rd_heap t) as Ht by (by eapply IH).
  destruct (rd_heap t !! obj) as [[C Q|bytes]|] eqn:Hcell; try done.
  + unfold ret at 1 in Hrun. eapply IHprops; [exact Hrun|]. simpl.
    by apply insert_subseteq_r.
  + unfold ret at 1 in Hrun. by eapply IHprops.
Qed.
End with_rec.

(** A field-list capability keeps the objects of [h0] when its hook
  does: the instance it populates is a new one. *)
Lemma properties_keeps (C : Constructor) (props : list string)
  (onRestored : option (value → heap → heap)) :
(∀ hook arg h, onRestored = Some hook → h0 ⊆ h → h0 ⊆ hook arg h) →
capability_keeps h0 (PropertiesSerializer C props onRestored).
Proof.
intros Hhook rec IH s v s'.
rewrite properties_deserialize_unfold.
rewrite run_bind. unfold bind at 1.
change (run rec (λ _, throw (TypeError "write is not a function")) (new_ C) s)
  with (bind (alloc C) ret s).
unfold bind at 1. unfold alloc. simpl get_heap.
set (obj := fresh (dom (rd_heap s))).
assert (rd_heap s !! obj = None) as Hfresh by apply not_elem_of_dom, is_fresh.
unfold ret at 1.
rewrite run_bind. unfold bind at 1.
destruct (run rec _ (for_of props _) _) as [[] s2| |] eqn:Hfields; try done.
intros Hrest Hs.
assert (h0 ⊆ rd_heap s2) as Hs2.
{ eapply fields_keep; [exact IH|exact Hfields| |].
  - destruct (h0 !! obj) as [c|] eqn:Hc; [|done].
    pose proof (lookup_weaken _ _ _ _ Hc Hs). congruence.
  - simpl. etrans; [exact Hs|]. by apply insert_subseteq. }
rewrite run_bind in Hrest. unfold bind at 1 in Hrest.
destruct onRestored as [hook|]; simpl in Hrest.
- unfold bind, modify, ret in Hrest. injection Hrest as _ <-. simpl.
  by eapply Hhook.
- unfold ret in Hrest. by injection Hrest as _ <-.
Qed.

Hypothesis Hcaps : ∀ (i : nat) req exp cap,
  data !! i = Some req → data !! Datatypes.S i = Some exp →
  resolve reg req exp = inr cap → capability_keeps h0 cap.

Lemma decode_body_keeps (rec : M rstate value) (s : rstate) (v : value)
  (s' : rstate) :
(∀ t w t', rec t = Return w t' → h0 ⊆ rd_heap t → h0 ⊆ rd_heap t') →
decodeValue_body reg data rec s = Return v s' →
h0 ⊆ rd_heap s → h0 ⊆ rd_heap s'.
Proof.
intros IH. unfold decodeValue_body. unfold bind at 1.
destruct (read data s) as [item s1| |] eqn:Hread1; try done.
apply read_Return in Hread1 as [_ ->].
destruct (bool_decide (item = ESCAPE)).
{ unfold bind at 1.
  destruct (read data _) as [nextItem s2| |] eqn:Hread2; try done.
  apply read_Return in Hread2 as [Hnext ->]. simpl in Hnext.
  destruct (bool_decide (nextItem = ESCAPE_ESCAPE_VALUE)).
  { unfold ret. by intros [= _ <-]. }
  match goal with
  | |- context [match nextItem with _ => _ end ?t] => set (s2 := t)
  end.
  assert (∀ s3,
    (let* exportName_ := read data in
     let* serializer_ := lift_sum (resolve reg nextItem exportName_) in
     let* item0 := run rec
                      (λ _, throw (TypeError "write is not a function"))
                      (ObjectSerializer.deserialize serializer_) in
     addReferenceable' item0;; ret item0) s2 = Return v s3 →
    h0 ⊆ rd_heap s → h0 ⊆ rd_heap s3) as Hobj.
  { intros s3. unfold bind at 1.
    destruct (read data s2) as [exportName_ s4| |] eqn:Hread3; try done.
    apply read_Return in Hread3 as [Hexp ->]. simpl in Hexp.
    unfold bind at 1.
    destruct (resolve reg nextItem exportName_) as [e|serializer_] eqn:Hres;
      [done|].
    pose proof (Hcaps _ _ _ _ Hnext Hexp Hres) as Hcap.
    unfold lift_sum, ret. unfold bind at 1.
    destruct (run _ _ _ _) as [item0 s5| |] eqn:Hrun; try done.
    unfold bind at 1. unfold addReferenceable', modify.
    intros [= _ <-] Hs. simpl.
    by apply (Hcap rec IH _ _ _ Hrun). }
  destruct nextItem; try (intros Hk Hs; by apply (Hobj _ Hk)).
  unfold gets. by intros [= _ <-]. }
destruct (String.eqb (typeof item) "string").
{ unfold bind, addReferenceable', modify, ret. by intros [= _ <-]. }
unfold bind at 1. unfold gets at 1.
destruct (isBuffer _ item).
{ unfold bind, addReferenceable', modify, ret. by intros [= _ <-]. }
destruct (String.eqb (typeof item) "function"); unfold ret;
  by intros [= _ <-].
Qed.

Lemma decode_keeps (fuel : nat) (s : rstate) (v : value) (s' : rstate) :
decodeValue reg data fuel s = Return v s' →
h0 ⊆ rd_heap s → h0 ⊆ rd_heap s'.
Proof.
revert s v s'. induction fuel as [|fuel IH]; intros s v s'; [done|].
by apply decode_body_keeps.
Qed.

Lemma decode_all_keeps (n fuel : nat) (result : list value) (s : rstate)
  (vs : list value) (s' : rstate) :
decode_all reg data n fuel result s = Return vs s' →
h0 ⊆ rd_heap s → h0 ⊆ rd_heap s'.
Proof.
revert result s. induction n as [|n IH]; intros result s; simpl.
- case_bool_decide; [done|]. by intros [= _ <-].
- case_bool_decide; [|by intros [= _ <-]].
  unfold bind. destruct (decodeValue reg data fuel s) as [v s1| |] eqn:Hd;
    try done.
  intros Hrest Hs. eapply IH; [exact Hrest|]. by eapply decode_keeps.
Qed.
End decode_keeps.

(** X18.  [deserialize] touches no object that was there before the call
    when the capabilities it runs touch none.  A field-list capability
    keeps the objects of a heap whenever its hook does: it assigns to
    the instance it has just made.  And whatever the stream, well formed
    or not, if every capability that two neighbouring items of the
    stream name as a header keeps the objects of the heap the call
    starts from (run with a [read] that keeps them), the heap a
    returning call leaves holds every one of these objects, unchanged:
    all the call does to the heap is to add objects. *)
Theorem deserialize_only_adds {E : Env}
    (reg : ObjectMiddleware.registry) (data : list value) (context : value)
    (h : heap) :
  (∀ C props onRestored,
     (∀ hook arg h1, onRestored = Some hook → h ⊆ h1 → h ⊆ hook arg h1) →
     capability_keeps h (PropertiesSerializer C props onRestored)) ∧
  (∀ vs h',
     (∀ (i : nat) req exp cap,
        data !! i = Some req → data !! S i = Some exp →
        ObjectMiddleware.resolve reg req exp = inr cap →
        capability_keeps h cap) →
     ObjectMiddleware.deserialize reg data context h = Return vs h' →
     h ⊆ h').
Proof.
  split; [apply properties_keeps|].
  intros vs h' Hcaps. unfold ObjectMiddleware.deserialize.
  destruct (ObjectMiddleware.decode_all reg data (length data)
              (S (length data)) [] (ObjectMiddleware.rstate_init h))
    as [vs' s'| |] eqn:Hloop; try done.
  intros [= _ <-].
  by apply (decode_all_keeps reg data h Hcaps _ _ _ _ _ _ Hloop).
Qed.

Lemma deserialize_only_adds_witness :
  ∃ vs h',
    ObjectMiddleware.deserialize (E := Example.env) Example.registry
      [VNull; VStr "./Point"; VNull; VNum 5; VNull; VNum (-7)]
      VUndefined Example.heap1 = Return vs h' ∧
    Example.heap1 ⊆ h'.
Proof.
  eexists _, _. split; [by vm_compute|].
  destruct (deserialize_only_adds (E := Example.env) Example.registry
              [VNull; VStr "./Point"; VNull; VNum 5; VNull; VNum (-7)]
              VUndefined Example.heap1) as [Hfield Hkeeps].
  eapply Hkeeps.
  - intros i req exp cap Hreq Hexp Hres.
    destruct i as [|[|[|[|[|i]]]]]; simpl in Hreq, Hexp;
      try done; simplify_eq; try (by vm_compute in Hres).
    assert (cap = Example.point_serializer) as ->.
    { vm_compute in Hres. by injection Hres as <-. }
    by apply Hfield.
  - by vm_compute.
Defined.
